(** * emoji-search-and-destroy: detector, file processor and command

    A shallow embedding of [pkg/emoji/detector.go] (the [Detector] and the
    [FileProcessor]) and of the command of
    [internal/cli/commands/destroy.go], with the properties of the
    specification stated over it, and further properties of the code.

    A Go [string] is a sequence of bytes: it is embedded as a Rocq [string]
    (a sequence of [ascii], that is of 8-bit bytes).  A [rune] is an [int32];
    it is embedded as a [Z].  The Go run time turns strings into runes and
    back with UTF-8 ([range], [[]rune(s)], [string(r)], [string(runes)]);
    that codec is part of the embedding, and so is what the program uses
    of the packages [regexp], [strings], [path/filepath] and [os].  The glob
    matcher [filepath.Match] is a parameter.

    The definitions come first: the codec, the detector, the paths, the
    file system, the processor, the command.  The properties follow: those
    the specification claims, each under the number of its claim, and then
    the further ones, numbered X1 and up. *)

From Stdlib Require Import ZArith Lia Ascii String List Bool DecimalString.
From stdpp Require Import base gmap strings list.
From Equations Require Import Equations.

Local Open Scope Z_scope.

(** ** Bytes and byte strings *)

Module Bytes.

Definition byteZ (c : ascii) : Z := Z.of_N (N_of_ascii c).
Definition byte_of (z : Z) : ascii := ascii_of_N (Z.to_N z).

(** [s[n:]] and [s[:n]] *)
Fixpoint drop_bytes (n : nat) (s : string) : string :=
  match n, s with
  | O, _ => s
  | S _, EmptyString => EmptyString
  | S n', String _ s' => drop_bytes n' s'
  end.

Fixpoint take_bytes (n : nat) (s : string) : string :=
  match n, s with
  | O, _ => EmptyString
  | S _, EmptyString => EmptyString
  | S n', String c s' => String c (take_bytes n' s')
  end.

(** the string with the given byte values *)
Definition of_bytes (l : list Z) : string :=
  fold_right (fun z s => String (byte_of z) s) EmptyString l.

(** concatenation of a sequence of strings *)
Fixpoint concat_bytes (l : list string) : string :=
  match l with
  | [] => EmptyString
  | s :: l' => s +:+ concat_bytes l'
  end.

End Bytes.
Import Bytes.

(** ** The UTF-8 codec of the Go run time (package [unicode/utf8]) *)

Module utf8.

Definition RuneError : Z := 0xFFFD.
Definition MaxRune : Z := 0x10FFFF.

Definition surrogateMin : Z := 0xD800.
Definition surrogateMax : Z := 0xDFFF.

Definition tx : Z := 0x80.      (* 1000 0000 *)
Definition t2 : Z := 0xC0.      (* 1100 0000 *)
Definition t3 : Z := 0xE0.      (* 1110 0000 *)
Definition t4 : Z := 0xF0.      (* 1111 0000 *)

Definition maskx : Z := 0x3F.   (* 0011 1111 *)
Definition mask2 : Z := 0x1F.   (* 0001 1111 *)
Definition mask3 : Z := 0x0F.   (* 0000 1111 *)
Definition mask4 : Z := 0x07.   (* 0000 0111 *)

Definition rune1Max : Z := 0x7F.      (* 1<<7 - 1 *)
Definition rune2Max : Z := 0x7FF.     (* 1<<11 - 1 *)
Definition rune3Max : Z := 0xFFFF.    (* 1<<16 - 1 *)

Definition locb : Z := 0x80.    (* the lowest continuation byte *)
Definition hicb : Z := 0xBF.    (* the highest continuation byte *)

(** the conversions [uint32(r)] of an [int32] and [byte(x)] of an integer *)
Definition uint32 (r : Z) : Z := r mod 2 ^ 32.
Definition byte (x : Z) : Z := x mod 2 ^ 8.

(** The table [first] of the decoder, read as: the length of the sequence
    that starts with byte [b0] and the range accepted for its second byte;
    [None] for a byte that starts no sequence. *)
Definition first (b0 : Z) : option (nat * Z * Z) :=
  if (0xC2 <=? b0) && (b0 <=? 0xDF) then Some (2%nat, locb, hicb)
  else if b0 =? 0xE0 then Some (3%nat, 0xA0, hicb)
  else if (0xE1 <=? b0) && (b0 <=? 0xEC) then Some (3%nat, locb, hicb)
  else if b0 =? 0xED then Some (3%nat, locb, 0x9F)
  else if (0xEE <=? b0) && (b0 <=? 0xEF) then Some (3%nat, locb, hicb)
  else if b0 =? 0xF0 then Some (4%nat, 0x90, hicb)
  else if (0xF1 <=? b0) && (b0 <=? 0xF3) then Some (4%nat, locb, hicb)
  else if b0 =? 0xF4 then Some (4%nat, locb, 0x8F)
  else None.

Definition between (lo hi : Z) (c : ascii) : bool :=
  (lo <=? byteZ c) && (byteZ c <=? hi).

(** [utf8.DecodeRuneInString]: the first rune of [s] and its width in bytes.
    An ill-formed or truncated sequence decodes to [(RuneError, 1)]; the
    empty string to [(RuneError, 0)]. *)
Definition DecodeRuneInString (s : string) : Z * nat :=
  match s with
  | EmptyString => (RuneError, 0%nat)
  | String c0 s1 =>
    let s0 := byteZ c0 in
    if s0 <? 0x80 then (s0, 1%nat)
    else
      match first s0 with
      | None => (RuneError, 1%nat)
      | Some (sz, lo, hi) =>
        match s1 with
        | EmptyString => (RuneError, 1%nat)
        | String c1 s2 =>
          if negb (between lo hi c1) then (RuneError, 1%nat)
          else if (sz <=? 2)%nat then
            (Z.lor (Z.shiftl (Z.land s0 mask2) 6) (Z.land (byteZ c1) maskx),
             2%nat)
          else
            match s2 with
            | EmptyString => (RuneError, 1%nat)
            | String c2 s3 =>
              if negb (between locb hicb c2) then (RuneError, 1%nat)
              else if (sz <=? 3)%nat then
                (Z.lor (Z.lor (Z.shiftl (Z.land s0 mask3) 12)
                              (Z.shiftl (Z.land (byteZ c1) maskx) 6))
                       (Z.land (byteZ c2) maskx),
                 3%nat)
              else
                match s3 with
                | EmptyString => (RuneError, 1%nat)
                | String c3 _ =>
                  if negb (between locb hicb c3) then (RuneError, 1%nat)
                  else
                    (Z.lor (Z.lor (Z.lor (Z.shiftl (Z.land s0 mask4) 18)
                                         (Z.shiftl (Z.land (byteZ c1) maskx) 12))
                                  (Z.shiftl (Z.land (byteZ c2) maskx) 6))
                           (Z.land (byteZ c3) maskx),
                     4%nat)
                end
            end
        end
      end
  end.

(** A Unicode scalar value: what [utf8.ValidRune] accepts. *)
Definition ValidRune (r : Z) : bool :=
  ((0 <=? r) && (r <? surrogateMin)) || ((surrogateMax <? r) && (r <=? MaxRune)).

(** the three bytes [t3|byte(r>>12), tx|byte(r>>6)&maskx, tx|byte(r)&maskx] *)
Definition bytes3 (r : Z) : string :=
  String (byte_of (Z.lor t3 (byte (Z.shiftr r 12))))
    (String (byte_of (Z.lor tx (Z.land (byte (Z.shiftr r 6)) maskx)))
       (String (byte_of (Z.lor tx (Z.land (byte r) maskx))) EmptyString)).

(** [utf8.AppendRune] on an empty buffer, which is also the conversion
    [string(r)]: the UTF-8 encoding of [r], and that of [RuneError] when [r]
    is no scalar value. *)
Definition EncodeRune (r : Z) : string :=
  let i := uint32 r in
  if i <=? rune1Max then String (byte_of (byte r)) EmptyString
  else if i <=? rune2Max then
    String (byte_of (Z.lor t2 (byte (Z.shiftr r 6))))
      (String (byte_of (Z.lor tx (Z.land (byte r) maskx))) EmptyString)
  else if (MaxRune <? i) || ((surrogateMin <=? i) && (i <=? surrogateMax)) then
    bytes3 RuneError
  else if i <=? rune3Max then bytes3 r
  else
    String (byte_of (Z.lor t4 (byte (Z.shiftr r 18))))
      (String (byte_of (Z.lor tx (Z.land (byte (Z.shiftr r 12)) maskx)))
         (String (byte_of (Z.lor tx (Z.land (byte (Z.shiftr r 6)) maskx)))
            (String (byte_of (Z.lor tx (Z.land (byte r) maskx))) EmptyString))).

End utf8.

(** ** Iterating over a string, rune by rune *)

(** The loop [for len(s) > 0 { r, w := DecodeRuneInString(s); ...; s = s[w:] }]
    that underlies [range s], [[]rune(s)] and the input of the regexp
    engine: the runes of [s], each with the bytes it was decoded from. *)
Equations? chunks (s : string) : list (Z * string) by wf (String.length s) lt :=
  chunks EmptyString := [];
  chunks (String c s') :=
    (fst (utf8.DecodeRuneInString (String c s')),
     take_bytes (snd (utf8.DecodeRuneInString (String c s'))) (String c s'))
    :: chunks (drop_bytes (Nat.pred (snd (utf8.DecodeRuneInString (String c s')))) s').
Proof.
  all: match goal with
       | |- (String.length (drop_bytes ?n ?s) < _)%nat =>
         generalize n; intros k;
         assert (Hle : forall j t,
                    (String.length (drop_bytes j t) <= String.length t)%nat)
           by (induction j as [|j IHj]; intros [|a t]; simpl; auto with arith);
         specialize (Hle k s); simpl in *; lia
       end.
Qed.

(** [[]rune(s)], and the runes a [range s] loop visits *)
Definition runes (s : string) : list Z := map fst (chunks s).

(** [string(rs)] for a slice of runes *)
Definition string_of_runes (rs : list Z) : string :=
  concat_bytes (map utf8.EncodeRune rs).

(** Well-formed UTF-8, the strings [utf8.ValidString] accepts: [s] is the
    encoding of the runes it decodes to. *)
Definition ValidString (s : string) : Prop := string_of_runes (runes s) = s.

(** What the decoder returns on a non-empty string: either the string
    starts with the encoding of a scalar value, which is returned with the
    length of that encoding, or the first byte is given up as [RuneError]. *)
Inductive decoded (s : string) : Z * nat -> Prop :=
| decoded_rune r rest :
    utf8.ValidRune r = true ->
    s = utf8.EncodeRune r +:+ rest ->
    decoded s (r, String.length (utf8.EncodeRune r))
| decoded_error : decoded s (utf8.RuneError, 1%nat).

(** ** Package [regexp], for the pattern of the detector *)

Module regexp.

(** The pattern of the detector is an alternation [c1|c2|...] of character
    classes, each one range [[\x{lo}-\x{hi}]].  A compiled expression of
    that shape is the list of its ranges; it matches one rune at a time, and
    it matches the runes that lie in one of the ranges. *)
Definition Regexp : Type := list (Z * Z).

Definition MustCompile (ranges : list (Z * Z)) : Regexp := ranges.

Definition matchRune (re : Regexp) (r : Z) : bool :=
  existsb (fun '(lo, hi) => (lo <=? r) && (r <=? hi)) re.

(** [re.FindAllString(s, -1)]: the matches from left to right, each the
    bytes of [s] the match covers. *)
Definition FindAllString (re : Regexp) (s : string) : list string :=
  map snd (List.filter (fun ch => matchRune re (fst ch)) (chunks s)).

(** [re.ReplaceAllString(s, repl)] for a replacement without [$]: the bytes
    between the matches are copied as they are. *)
Definition ReplaceAllString (re : Regexp) (s repl : string) : string :=
  concat_bytes
    (map (fun ch => if matchRune re (fst ch) then repl else snd ch) (chunks s)).

(** [re.MatchString(s)]: some rune of [s] matches. *)
Definition MatchString (re : Regexp) (s : string) : bool :=
  existsb (fun ch => matchRune re (fst ch)) (chunks s).

End regexp.

(** ** The detector ([pkg/emoji/detector.go]) *)

Record Detector : Type := mkDetector {
  emojiRegex : regexp.Regexp;
  allowedEmojis : gmap string bool
}.

(** [m[k]] on a [map[string]bool]: [false] for a missing key *)
Definition index (m : gmap string bool) (k : string) : bool :=
  default false (m !! k).

Definition emojiPattern : list (Z * Z) :=
  [ (0x1F600, 0x1F64F); (0x1F300, 0x1F5FF); (0x1F680, 0x1F6FF);
    (0x1F1E0, 0x1F1FF); (0x2600, 0x26FF); (0x2700, 0x27BF);
    (0x1F900, 0x1F9FF); (0x1F018, 0x1F0FF); (0x1F90A, 0x1F93A);
    (0x1F940, 0x1F94C); (0x1F947, 0x1F978); (0x1F980, 0x1F991);
    (0x1F993, 0x1F9A2); (0x1F9A5, 0x1F9AA); (0x1F9AE, 0x1F9CA);
    (0x1F9CD, 0x1F9FF); (0x1FA70, 0x1FA73); (0x1FA78, 0x1FA7A);
    (0x1FA80, 0x1FA82); (0x1FA90, 0x1FA95) ].

Definition NewDetector : Detector :=
  {| emojiRegex := regexp.MustCompile emojiPattern;
     allowedEmojis := ∅ |}.

Definition NewDetectorWithAllowed (allowed : list string) : Detector :=
  fold_left
    (fun detector emoji =>
       {| emojiRegex := emojiRegex detector;
          allowedEmojis := <[emoji := true]> (allowedEmojis detector) |})
    allowed NewDetector.

Definition isEmoji (r : Z) : bool :=
  if (0x1F600 <=? r) && (r <=? 0x1F64F) then true
  else if (0x1F300 <=? r) && (r <=? 0x1F5FF) then true
  else if (0x1F680 <=? r) && (r <=? 0x1F6FF) then true
  else if (0x1F1E0 <=? r) && (r <=? 0x1F1FF) then true
  else if (0x2600 <=? r) && (r <=? 0x26FF) then true
  else if (0x2700 <=? r) && (r <=? 0x27BF) then true
  else if (0x1F900 <=? r) && (r <=? 0x1F9FF) then true
  else false.

(** The body shared by the two loops of [FindEmojis]: skip an allowed
    emoji, append one not seen before and mark it seen.  The state is the
    pair of the locals [emojis] and [seen]. *)
Definition record_emoji (d : Detector) (st : list string * gmap string bool)
    (emoji : string) : list string * gmap string bool :=
  let '(emojis, seen) := st in
  if index (allowedEmojis d) emoji then st
  else if negb (index seen emoji) then (emojis ++ [emoji], <[emoji := true]> seen)
  else st.

Definition FindEmojis (d : Detector) (text : string) : list string :=
  let matches := regexp.FindAllString (emojiRegex d) text in
  let st1 := fold_left (record_emoji d) matches ([], ∅) in
  let st2 :=
    fold_left
      (fun st r => if isEmoji r then record_emoji d st (utf8.EncodeRune r) else st)
      (runes text) st1 in
  fst st2.

(** The branch of [RemoveEmojis] taken when there are allowed emojis: rune
    by rune, keeping the allowed ones. *)
Definition RemoveEmojis_selective (d : Detector) (text : string) : string :=
  let textRunes := runes text in
  let cleaned :=
    fold_left
      (fun cleaned r =>
         let emoji := utf8.EncodeRune r in
         if isEmoji r || regexp.MatchString (emojiRegex d) emoji then
           if index (allowedEmojis d) emoji then cleaned ++ [r] else cleaned
         else cleaned ++ [r])
      textRunes [] in
  string_of_runes cleaned.

(** The branch taken when nothing is allowed ("the faster method"): the
    substitution of the pattern, then a pass of [isEmoji] over the result. *)
Definition RemoveEmojis_fast (d : Detector) (text : string) : string :=
  let result := regexp.ReplaceAllString (emojiRegex d) text EmptyString in
  let cleaned :=
    fold_left
      (fun cleaned r => if negb (isEmoji r) then cleaned ++ [r] else cleaned)
      (runes result) [] in
  string_of_runes cleaned.

Definition RemoveEmojis (d : Detector) (text : string) : string :=
  if (0 <? size (allowedEmojis d))%nat then RemoveEmojis_selective d text
  else RemoveEmojis_fast d text.

(** ** The vocabulary of the specification *)

(** The ranges of the detector are those of [isEmoji] and those of its
    pattern.  A code point qualifies when it lies in one of them and its
    one-character string is not in the allow set. *)
Definition in_emoji_range (d : Detector) (r : Z) : bool :=
  isEmoji r || regexp.matchRune (emojiRegex d) r.

Definition qualifies (d : Detector) (r : Z) : bool :=
  in_emoji_range d r && negb (index (allowedEmojis d) (utf8.EncodeRune r)).

(** The distinct elements of a sequence, each at the place of its first
    occurrence. *)
Fixpoint first_occurrences (l : list string) : list string :=
  match l with
  | [] => []
  | x :: l' =>
    x :: List.filter (fun y => negb (String.eqb x y)) (first_occurrences l')
  end.

(** Membership in a sequence of strings, and the step that appends a string
    unless it is there already. *)
Definition mem (k : string) (l : list string) : bool := existsb (String.eqb k) l.

Definition add_distinct (acc : list string) (k : string) : list string :=
  if mem k acc then acc else acc ++ [k].

(** The loop invariant of [FindEmojis]: [seen] is the set of [emojis]. *)
Definition seen_inv (st : list string * gmap string bool) : Prop :=
  forall k, index (snd st) k = mem k (fst st).

(** Two byte strings that are not well-formed UTF-8: an emoji, the four bytes
    [F0 9F 98 80] of U+1F600, in the middle of what would otherwise be the
    encoding of U+2600, and in the middle of that of U+1FA70. *)
Definition ill_formed_1 : string :=
  of_bytes [0xE2; 0xF0; 0x9F; 0x98; 0x80; 0x98; 0x80].

Definition ill_formed_2 : string :=
  of_bytes [0xF0; 0x9F; 0xF0; 0x9F; 0x98; 0x80; 0xA9; 0xB0].

(** ** Package [strings] *)

Module strings.

Fixpoint HasPrefix (s prefix : string) {struct prefix} : bool :=
  match prefix, s with
  | EmptyString, _ => true
  | String _ _, EmptyString => false
  | String a prefix', String b s' => Ascii.eqb a b && HasPrefix s' prefix'
  end.

Definition HasSuffix (s suffix : string) : bool :=
  (String.length suffix <=? String.length s)%nat
  && String.eqb (drop_bytes (String.length s - String.length suffix) s) suffix.

Fixpoint Contains (s substr : string) : bool :=
  HasPrefix s substr
  || match s with
     | EmptyString => false
     | String _ s' => Contains s' substr
     end.

(** [strings.Split(s, sep)] for a separator of one byte: the pieces of [s]
    between the separators, empty pieces included; one piece, [s] itself,
    when [s] has no separator. *)
Fixpoint Split (s : string) (sep : ascii) : list string :=
  match s with
  | EmptyString => [EmptyString]
  | String a s' =>
    if Ascii.eqb a sep then EmptyString :: Split s' sep
    else
      match Split s' sep with
      | piece :: pieces => String a piece :: pieces
      | [] => [String a EmptyString]
      end
  end.

(** [strings.Join(elems, sep)] *)
Fixpoint Join (elems : list string) (sep : string) : string :=
  match elems with
  | [] => EmptyString
  | [x] => x
  | x :: elems' => x +:+ sep +:+ Join elems' sep
  end.

Definition TrimSuffix (s suffix : string) : string :=
  if HasSuffix s suffix
  then take_bytes (String.length s - String.length suffix) s
  else s.

End strings.

(** ** Package [path/filepath], on Unix *)

Module filepath.

Definition Separator : ascii := "/"%char.

Definition IsAbs (path : string) : bool := strings.HasPrefix path "/".

(** One element of the path in [Clean]; [out] is the stack of the elements
    kept so far, the last one first.  An empty element and [.] are dropped;
    [..] removes the element before it, stays when there is none to remove
    and the path is relative, and is dropped at the root. *)
Definition clean_step (rooted : bool) (out : list string) (elem : string)
    : list string :=
  if String.eqb elem "" then out
  else if String.eqb elem "." then out
  else if String.eqb elem ".." then
    match out with
    | top :: out' =>
      if String.eqb top ".." then (if rooted then out else elem :: out)
      else out'
    | [] => if rooted then out else [elem]
    end
  else elem :: out.

(** [filepath.Clean]: the shortest path name equivalent to [path] by purely
    lexical processing. *)
Definition Clean (path : string) : string :=
  if String.eqb path "" then "."
  else
    let rooted := strings.HasPrefix path "/" in
    let out := rev (fold_left (clean_step rooted) (strings.Split path Separator) []) in
    let body := strings.Join out "/" in
    if rooted then "/" +:+ body
    else if String.eqb body "" then "." else body.

(** [filepath.Join]: the non-empty elements joined by the separator, and the
    result cleaned; the empty string when there is no such element. *)
Definition Join (elems : list string) : string :=
  match List.filter (fun e => negb (String.eqb e "")) elems with
  | [] => EmptyString
  | nonempty => Clean (strings.Join nonempty "/")
  end.

(** [filepath.Base]: the last element of the path, trailing separators
    removed; [.] for the empty path and [/] for a path of separators only. *)
Definition Base (path : string) : string :=
  if String.eqb path "" then "."
  else
    match rev (List.filter (fun e => negb (String.eqb e ""))
                           (strings.Split path Separator)) with
    | last :: _ => last
    | [] => "/"
    end.

(** the suffix of [s] that starts at its last dot, or the empty string *)
Fixpoint from_last_dot (s : string) : string :=
  match s with
  | EmptyString => EmptyString
  | String a s' =>
    match from_last_dot s' with
    | EmptyString => if Ascii.eqb a "."%char then s else EmptyString
    | ext => ext
    end
  end.

(** [filepath.Ext]: the suffix beginning at the final dot in the final
    element of the path. *)
Definition Ext (path : string) : string :=
  match rev (strings.Split path Separator) with
  | last :: _ => from_last_dot last
  | [] => EmptyString
  end.

End filepath.

(** ** The file processor: exclusion patterns *)

Record FileProcessor : Type := mkFileProcessor {
  fpDetector : Detector;       (* the field [Detector] *)
  excludes : list string
}.

Definition NewFileProcessor : FileProcessor :=
  {| fpDetector := NewDetector; excludes := [] |}.

Definition NewFileProcessorWithExcludes (excludes : list string) : FileProcessor :=
  {| fpDetector := NewDetector; excludes := excludes |}.

Definition NewFileProcessorWithExcludesAndAllowed
    (excludes allowed : list string) : FileProcessor :=
  {| fpDetector := NewDetectorWithAllowed allowed; excludes := excludes |}.

(** The glob matcher [filepath.Match(pattern, name)] of the Go library is a
    parameter of the development: it answers [Some matched], or [None] for
    [ErrBadPattern]. *)
Definition GlobMatcher : Type := string -> string -> option bool.

Definition glob_matches (Match : GlobMatcher) (pattern name : string) : bool :=
  match Match pattern name with
  | Some matched => matched     (* [err == nil && matched] *)
  | None => false
  end.

Section Exclusion.

Variable Match : GlobMatcher.

Definition matchExclude (path pattern : string) : bool :=
  let path := filepath.Clean path in
  let pattern := filepath.Clean pattern in
  if String.eqb path pattern then true
  else if filepath.IsAbs pattern then
    if strings.HasPrefix path (pattern +:+ "/") || String.eqb path pattern
    then true else false
  else
    let pathParts := strings.Split path filepath.Separator in
    if existsb (fun part => String.eqb part pattern) pathParts then true
    else if strings.HasSuffix path ("/" +:+ pattern)
            || String.eqb (filepath.Base path) pattern then true
    else if strings.Contains pattern "*" || strings.Contains pattern "?" then
      if glob_matches Match pattern path then true
      else if glob_matches Match pattern (filepath.Base path) then true
      else false
    else false.

Definition isExcluded (fp : FileProcessor) (path : string) : bool :=
  existsb (fun exclude => matchExclude path exclude) (excludes fp).

(** *** The matching rules, as the specification words them *)

Definition starts_with (s prefix : string) : Prop := exists rest, s = prefix +:+ rest.
Definition ends_with (s suffix : string) : Prop := exists front, s = front +:+ suffix.
Definition has_substring (s sub : string) : Prop :=
  exists front rest, s = front +:+ sub +:+ rest.

Definition absolute (pattern : string) : Prop := starts_with pattern "/".

Definition glob_succeeds (pattern path : string) : Prop :=
  (has_substring pattern "*" \/ has_substring pattern "?") /\
  (Match pattern path = Some true \/
   Match pattern (filepath.Base path) = Some true).

(** [matches(path, pattern)] for a normalized path and pattern, by the
    rules 1 to 3 of the exclusion matching algorithm *)
Definition matches_by_rules (path pattern : string) : Prop :=
  path = pattern \/
  (absolute pattern /\
   (path = pattern \/ starts_with path (pattern +:+ "/"))) \/
  (~ absolute pattern /\
   (In pattern (strings.Split path filepath.Separator) \/
    filepath.Base path = pattern \/
    glob_succeeds pattern path)).

(** the same with the rule the code has besides: a relative pattern also
    matches a path that ends with a separator and the pattern *)
Definition matches_in_code (path pattern : string) : Prop :=
  path = pattern \/
  (absolute pattern /\
   (path = pattern \/ starts_with path (pattern +:+ "/"))) \/
  (~ absolute pattern /\
   (In pattern (strings.Split path filepath.Separator) \/
    ends_with path ("/" +:+ pattern) \/
    filepath.Base path = pattern \/
    glob_succeeds pattern path)).

End Exclusion.

(** a glob matcher that matches nothing, for the examples whose patterns
    have no metacharacter *)
Definition no_glob : GlobMatcher := fun _ _ => Some false.

(** ** The file system and the calls of package [os]

    The file system is a tree of directories and files; the working
    directory of the process is its root, so that [a/b], [./a/b] and [/a/b]
    name the same file.  The process owns the files: what it may do to a
    file is decided by the owner bits of the file ([0400] to read, [0200] to
    write), and [Chmod] on a file that exists succeeds.  Search permission
    on the directories of a path is not modelled.  A file has one name:
    there are no symbolic or hard links, and a path is resolved from its
    cleaned form.  A write that fails leaves the file as it was.  Every
    call is recorded in a trace.

    The properties below that speak of the contents of a file after
    [ProcessFile] has rewritten it are stated for the runs that return no
    error. *)

Module os.

Inductive fileKind : Type := Regular | NamedPipe | Socket | Device.

#[local] Set Warnings "-register-all".

Inductive node : Type :=
| File (kind : fileKind) (perm : Z) (data : string)
| Dir (perm : Z) (entries : list (string * node)).

Inductive Errno : Type := ENOENT | EACCES | EISDIR | ENOTDIR | ENXIO.

(** Go [error] values: the errors of the system calls, [fs.SkipDir], and the
    errors wrapped by [fmt.Errorf("...: %w", err)]. *)
Inductive error : Type :=
| PathError (op path : string) (errno : Errno)
| SkipDir
| Errorf (msg : string) (cause : error).

Inductive syscall : Type :=
| SysReadFile (path : string)
| SysWriteFile (path data : string) (perm : Z)
| SysChmod (path : string) (mode : Z)
| SysStat (path : string)
| SysLstat (path : string)
| SysReadDir (path : string)
| SysPrint (text : string).        (* a write to standard output *)

Record world : Type := mkWorld {
  root : node;
  trace : list syscall
}.

Definition readable (perm : Z) : bool := Z.testbit perm 8.
Definition writable (perm : Z) : bool := Z.testbit perm 7.

(** the names to follow from the root to reach [path] *)
Definition segments (path : string) : list string :=
  List.filter
    (fun e => negb (String.eqb e "") && negb (String.eqb e ".")
              && negb (String.eqb e ".."))
    (strings.Split (filepath.Clean path) filepath.Separator).

Fixpoint find_entry (name : string) (entries : list (string * node))
    : option node :=
  match entries with
  | [] => None
  | (n, child) :: entries' =>
    if String.eqb n name then Some child else find_entry name entries'
  end.

Fixpoint lookup (segs : list string) (n : node) : Errno + node :=
  match segs with
  | [] => inr n
  | name :: segs' =>
    match n with
    | File _ _ _ => inl ENOTDIR
    | Dir _ entries =>
      match find_entry name entries with
      | None => inl ENOENT
      | Some child => lookup segs' child
      end
    end
  end.

Fixpoint replace_entry (name : string) (g : node -> Errno + node)
    (entries : list (string * node)) : Errno + list (string * node) :=
  match entries with
  | [] => inl ENOENT
  | (n, child) :: entries' =>
    if String.eqb n name then
      match g child with
      | inl e => inl e
      | inr child' => inr ((n, child') :: entries')
      end
    else
      match replace_entry name g entries' with
      | inl e => inl e
      | inr entries'' => inr ((n, child) :: entries'')
      end
  end.

(** the tree with the node at [segs] replaced by what [g] makes of it *)
Fixpoint update (segs : list string) (g : node -> Errno + node) (n : node)
    : Errno + node :=
  match segs with
  | [] => g n
  | name :: segs' =>
    match n with
    | File _ _ _ => inl ENOTDIR
    | Dir perm entries =>
      match replace_entry name (update segs' g) entries with
      | inl e => inl e
      | inr entries' => inr (Dir perm entries')
      end
    end
  end.

(** a directory keeps its entries in the order of their names, the order in
    which [ReadDir] returns them *)
Fixpoint insert_entry (name : string) (child : node)
    (entries : list (string * node)) : list (string * node) :=
  match entries with
  | [] => [(name, child)]
  | (n, c) :: entries' =>
    if String.leb name n then (name, child) :: entries
    else (n, c) :: insert_entry name child entries'
  end.

(** *** The calls, as functions of the file tree *)

Definition read_file (path : string) (r : node) : Errno + string :=
  match lookup (segments path) r with
  | inl e => inl e
  | inr (Dir _ _) => inl EISDIR
  | inr (File Regular perm data) => if readable perm then inr data else inl EACCES
  | inr (File _ _ _) => inl ENXIO
  end.

(** [os.WriteFile]: the file is opened for writing, created with [perm] if
    it does not exist, and truncated; the permission bits of a file that
    exists are left as they are. *)
Definition write_file (path data : string) (perm : Z) (r : node) : Errno + node :=
  match lookup (segments path) r with
  | inr (Dir _ _) => inl EISDIR
  | inr (File Regular p _) =>
    if writable p
    then update (segments path) (fun _ => inr (File Regular p data)) r
    else inl EACCES
  | inr (File _ _ _) => inl ENXIO
  | inl ENOENT =>
    match rev (segments path) with
    | [] => inl EISDIR
    | name :: parent =>
      update (rev parent)
        (fun n => match n with
                  | Dir p entries =>
                    inr (Dir p (insert_entry name (File Regular perm data) entries))
                  | File _ _ _ => inl ENOTDIR
                  end) r
    end
  | inl e => inl e
  end.

Definition chmod (path : string) (mode : Z) (r : node) : Errno + node :=
  update (segments path)
    (fun n => match n with
              | File kind _ data => inr (File kind mode data)
              | Dir _ entries => inr (Dir mode entries)
              end) r.

(** *** The calls, as actions on the world *)

Definition OS (A : Type) : Type := world -> A * world.

#[global] Instance OS_ret : MRet OS := fun A (x : A) w => (x, w).
#[global] Instance OS_bind : MBind OS :=
  fun A B (k : A -> OS B) (m : OS A) w => let '(x, w') := m w in k x w'.

Definition record (c : syscall) : OS unit :=
  fun w => (tt, {| root := root w; trace := trace w ++ [c] |}).

Definition ReadFile (path : string) : OS (error + string) :=
  fun w =>
    let w' := {| root := root w; trace := trace w ++ [SysReadFile path] |} in
    match read_file path (root w) with
    | inl e => (inl (PathError "open" path e), w')
    | inr data => (inr data, w')
    end.

Definition WriteFile (path data : string) (perm : Z) : OS (option error) :=
  fun w =>
    let t := trace w ++ [SysWriteFile path data perm] in
    match write_file path data perm (root w) with
    | inl e => (Some (PathError "open" path e), {| root := root w; trace := t |})
    | inr r' => (None, {| root := r'; trace := t |})
    end.

Definition Chmod (path : string) (mode : Z) : OS (option error) :=
  fun w =>
    let t := trace w ++ [SysChmod path mode] in
    match chmod path mode (root w) with
    | inl e => (Some (PathError "chmod" path e), {| root := root w; trace := t |})
    | inr r' => (None, {| root := r'; trace := t |})
    end.

(** What the program reads of a [FileInfo] or a [DirEntry]: the name, whether
    it is a directory, whether it is a regular file. *)
Record FileInfo : Type := mkFileInfo {
  Name : string;
  IsDir : bool;
  IsRegular : bool
}.

Definition info_of (name : string) (n : node) : FileInfo :=
  match n with
  | Dir _ _ => {| Name := name; IsDir := true; IsRegular := false |}
  | File Regular _ _ => {| Name := name; IsDir := false; IsRegular := true |}
  | File _ _ _ => {| Name := name; IsDir := false; IsRegular := false |}
  end.

Definition Stat (path : string) : OS (error + FileInfo) :=
  fun w =>
    let w' := {| root := root w; trace := trace w ++ [SysStat path] |} in
    match lookup (segments path) (root w) with
    | inl e => (inl (PathError "stat" path e), w')
    | inr n => (inr (info_of (filepath.Base path) n), w')
    end.

Definition Print (text : string) : OS unit := record (SysPrint text).

End os.

(** ** The file processor ([pkg/emoji/detector.go], second part) *)

Import os.

Record ProcessResult : Type := mkProcessResult {
  FilePath : string;
  EmojisFound : list string;
  OriginalSize : Z;        (* [int64] *)
  NewSize : Z;             (* [int64] *)
  Modified : bool
}.

(** the file mode [0600], in octal: read and write for the owner only *)
Definition perm0600 : Z := 6 * 64.

(** the string of one line feed *)
Definition newline : string := String "010"%char EmptyString.

(** [int64(len(s))] *)
Definition len64 (s : string) : Z := Z.of_nat (String.length s).

Definition ProcessFile (fp : FileProcessor) (filePath : string) (dryRun : bool)
    : OS (ProcessResult * option error) :=
  read ← ReadFile filePath;
  match read with
  | inl err =>
    mret ({| FilePath := filePath; EmojisFound := []; OriginalSize := 0;
             NewSize := 0; Modified := false |},
          Some (Errorf "failed to read file" err))
  | inr content =>
    let originalText := content in
    let emojis := FindEmojis (fpDetector fp) originalText in
    let result :=
      {| FilePath := filePath; EmojisFound := emojis;
         OriginalSize := len64 content; NewSize := 0; Modified := false |} in
    if (length emojis =? 0)%nat then mret (result, None)
    else
      let cleanedText := RemoveEmojis (fpDetector fp) originalText in
      let result :=
        {| FilePath := FilePath result; EmojisFound := EmojisFound result;
           OriginalSize := OriginalSize result;
           NewSize := len64 cleanedText; Modified := true |} in
      if negb dryRun then
        werr ← WriteFile filePath cleanedText perm0600;
        match werr with
        | Some err => mret (result, Some (Errorf "failed to write cleaned file" err))
        | None =>
          cerr ← Chmod filePath perm0600;
          match cerr with
          | Some err =>
            mret (result, Some (Errorf "failed to set file permissions" err))
          | None => mret (result, None)
          end
        end
      else mret (result, None)
  end.

Definition skipExtensions : gmap string bool :=
  list_to_map
    [ (".exe", true); (".bin", true); (".so", true); (".dll", true);
      (".jpg", true); (".jpeg", true); (".png", true); (".gif", true);
      (".bmp", true);
      (".mp3", true); (".mp4", true); (".avi", true); (".mov", true);
      (".zip", true); (".tar", true); (".gz", true); (".7z", true);
      (".pdf", true);
      (".sock", true) ].

Definition shouldSkipFile (path : string) : OS bool :=
  st ← Stat path;
  match st with
  | inl _ => mret true
  | inr info =>
    if negb (IsRegular info) then mret true
    else
      let ext := filepath.Ext path in
      mret (index skipExtensions ext)
  end.

(** *** [filepath.WalkDir] *)

Section Walk.

(** The function called on every entry: [fn(path, d, err)].  It is a closure
    in the source; [R] is the type of the variables it captures and
    updates. *)
Context {R : Type}.
Variable fn : R -> string -> option FileInfo -> option error -> OS (R * option error).

(** [walkDir] of the Go library.  It recurses on the directory as it is
    when the walk starts: the program rewrites the data and the permission
    bits of regular files only, so that the entries [ReadDir] finds during
    the walk are those. *)
Fixpoint walkDir (path : string) (d : FileInfo) (n : node) (acc : R) (w : world)
    {struct n} : (R * option error) * world :=
  let '((acc1, err), w1) := fn acc path (Some d) None w in
  match n with
  | File _ _ _ => ((acc1, err), w1)
  | Dir perm entries =>
    match err with
    | Some SkipDir => ((acc1, None), w1)          (* the directory is skipped *)
    | Some e => ((acc1, Some e), w1)
    | None =>
      let '(_, w2) := record (SysReadDir path) w1 in
      if readable perm then
        (fix walkEntries (dirs : list (string * node)) (acc : R) (w : world)
             {struct dirs} : (R * option error) * world :=
           match dirs with
           | [] => ((acc, None), w)
           | (name, child) :: dirs' =>
             let path1 := filepath.Join [path; name] in
             let '((acc', err1), w') :=
               walkDir path1 (info_of name child) child acc w in
             match err1 with
             | Some SkipDir => ((acc', None), w')  (* [break] *)
             | Some e => ((acc', Some e), w')
             | None => walkEntries dirs' acc' w'
             end
           end) entries acc1 w2
      else
        (* the second call, to report the error of [ReadDir] *)
        let '((acc2, err2), w3) :=
          fn acc1 path (Some d) (Some (PathError "open" path EACCES)) w2 in
        match err2 with
        | Some SkipDir => ((acc2, None), w3)
        | Some e => ((acc2, Some e), w3)
        | None => ((acc2, None), w3)
        end
    end
  end.

Definition WalkDir (root : string) (acc : R) : OS (R * option error) :=
  fun w =>
    let '(_, w1) := record (SysLstat root) w in
    let '((acc', err), w') :=
      match lookup (segments root) (os.root w) with
      | inl e => fn acc root None (Some (PathError "lstat" root e)) w1
      | inr n => walkDir root (info_of (filepath.Base root) n) n acc w1
      end in
    match err with
    | Some SkipDir => ((acc', None), w')
    | _ => ((acc', err), w')
    end.

End Walk.

Section Processor.

Variable Match : GlobMatcher.

(** the function [ProcessDirectory] passes to [WalkDir]; the variable it
    captures is [results] *)
Definition visit (fp : FileProcessor) (dryRun : bool)
    (results : list ProcessResult) (path : string)
    (d : option FileInfo) (err : option error)
    : OS (list ProcessResult * option error) :=
  match err, d with
  | Some e, _ => mret (results, Some e)
  | None, None => mret (results, None)   (* [WalkDir] gives no entry only with an error *)
  | None, Some d =>
    if isExcluded Match fp path then
      if IsDir d then mret (results, Some SkipDir) else mret (results, None)
    else if IsDir d then mret (results, None)
    else if strings.Contains path "/.git/" || strings.Contains path "/.svn/"
            || strings.Contains path "/.hg/" then mret (results, None)
    else
      skip ← shouldSkipFile path;
      if (skip : bool) then mret (results, None)
      else
        processed ← ProcessFile fp path dryRun;
        let '(result, err) := processed in
        match err with
        | Some e => mret (results, Some (Errorf ("failed to process " +:+ path) e))
        | None =>
          if (0 <? length (EmojisFound result))%nat
          then mret (results ++ [result], None)
          else mret (results, None)
        end
  end.

Definition ProcessDirectory (fp : FileProcessor) (dirPath : string) (dryRun : bool)
    : OS (list ProcessResult * option error) :=
  WalkDir (visit fp dryRun) dirPath [].

End Processor.

(** ** [processContentFromStdin] ([internal/cli/commands/destroy.go])

    Standard input is given as the lines the scanner returns and the error
    it ends with, if any. *)
Definition processContentFromStdin (processor : FileProcessor) (dryRun : bool)
    (lines : list string) (scanErr : option error)
    : OS (list ProcessResult * option error) :=
  let content := concat_bytes (map (fun line => line +:+ newline) lines) in
  match scanErr with
  | Some err => mret ([], Some (Errorf "error reading from stdin" err))
  | None =>
    let contentStr := content in
    if String.eqb contentStr "" then mret ([], None)
    else
      let contentStr := strings.TrimSuffix contentStr newline in
      let emojis := FindEmojis (fpDetector processor) contentStr in
      let result :=
        {| FilePath := "<stdin>"; EmojisFound := emojis;
           OriginalSize := len64 contentStr; NewSize := 0;
           Modified := (0 <? length emojis)%nat |} in
      if (length emojis =? 0)%nat then mret ([], None)
      else
        let cleanedContent := RemoveEmojis (fpDetector processor) contentStr in
        let result :=
          {| FilePath := FilePath result; EmojisFound := EmojisFound result;
             OriginalSize := OriginalSize result;
             NewSize := len64 cleanedContent; Modified := Modified result |} in
        if negb dryRun then
          _ ← Print cleanedContent;
          mret ([result], None)
        else mret ([result], None)
  end.

(** ** The vocabulary of the claims on the processor *)

(** the calls that write: [WriteFile] and [Chmod] *)
Definition is_write (c : syscall) : bool :=
  match c with
  | SysWriteFile _ _ _ | SysChmod _ _ => true
  | _ => false
  end.

(** the two shapes of the result of [ProcessFile] on a file it could read *)
Definition unmodified (path content : string) (emojis : list string) : ProcessResult :=
  {| FilePath := path; EmojisFound := emojis; OriginalSize := len64 content;
     NewSize := 0; Modified := false |}.

Definition modified (d : Detector) (path content : string) : ProcessResult :=
  {| FilePath := path; EmojisFound := FindEmojis d content;
     OriginalSize := len64 content;
     NewSize := len64 (RemoveEmojis d content); Modified := true |}.

(** The invariant of a [ProcessResult] made from [text]: [Modified] is false
    exactly when no emoji was found, and when one was found [NewSize] is the
    length in bytes of the cleaned text. *)
Definition result_invariant (d : Detector) (text : option string)
    (res : ProcessResult) : Prop :=
  (Modified res = false <-> EmojisFound res = []) /\
  (EmojisFound res <> [] ->
   Modified res = true /\
   exists t, text = Some t /\ NewSize res = len64 (RemoveEmojis d t)).

(** the text [processContentFromStdin] makes of the lines it reads *)
Definition stdin_text (lines : list string) : string :=
  strings.TrimSuffix (concat_bytes (map (fun line => line +:+ newline) lines)) newline.


(** The names of the directories of version control; a path with a segment
    of that name; and the test of [ProcessDirectory], which looks for the
    name between two separators. *)
Definition vcs_names : list string := [".git"; ".svn"; ".hg"].

Definition has_vcs_segment (path : string) : bool :=
  existsb (fun seg => existsb (String.eqb seg) vcs_names)
          (strings.Split path filepath.Separator).

Definition has_inner_vcs (path : string) : bool :=
  strings.Contains path "/.git/" || strings.Contains path "/.svn/"
  || strings.Contains path "/.hg/".

(** Two file trees for the examples: the directory of the end-to-end
    scenarios, and a working copy with a git object that holds an emoji. *)
Definition scenario_tree : node :=
  Dir 0x1ED   (* 0755 *)
    [ ("a.txt", File Regular 0x1A4 "Hi 😊");      (* 0644 *)
      ("b.txt", File Regular 0x1A4 "clean") ].

Definition scenario_world : world := {| root := scenario_tree; trace := [] |}.

Definition git_tree : node :=
  Dir 0x1ED
    [ (".git",
       Dir 0x1ED
         [ ("objects",
            Dir 0x1ED [ ("ab", Dir 0x1ED [ ("xyz", File Regular 0x1A4 "blob 😊") ]) ]) ]) ].

Definition git_world : world := {| root := git_tree; trace := [] |}.

(** a project with dependencies in [node_modules] *)
Definition project_tree : node :=
  Dir 0x1ED
    [ ("node_modules", Dir 0x1ED [ ("lib.js", File Regular 0x1A4 "dep 🚀") ]);
      ("src", Dir 0x1ED [ ("main.js", File Regular 0x1A4 "app 😊") ]) ].

Definition project_world : world := {| root := project_tree; trace := [] |}.

(** ** The vocabulary of the further properties *)

(** The rune the selective branch keeps, for a detector of any pattern and
    allow set. *)
Definition kept_selective (d : Detector) (r : Z) : bool :=
  if isEmoji r || regexp.MatchString (emojiRegex d) (utf8.EncodeRune r)
  then index (allowedEmojis d) (utf8.EncodeRune r) else true.

(** The file tree without the contents and the permission bits of its
    regular files: the names, the kinds, the directories and their
    permission bits, and the other files as they are. *)
Fixpoint skeleton (n : os.node) : os.node :=
  match n with
  | os.File os.Regular _ _ => os.File os.Regular 0 EmptyString
  | os.File kind perm data => os.File kind perm data
  | os.Dir perm entries =>
    os.Dir perm
      ((fix each (es : list (string * os.node)) : list (string * os.node) :=
          match es with
          | [] => []
          | (name, child) :: es' => (name, skeleton child) :: each es'
          end) entries)
  end.

(** The files [ProcessDirectory] may open: those that are not excluded, have
    no directory of version control in their name, and no extension of the
    deny list. *)
Definition eligible (Match : GlobMatcher) (fp : FileProcessor) (path : string)
    : bool :=
  negb (isExcluded Match fp path) && negb (has_inner_vcs path)
  && negb (index skipExtensions (filepath.Ext path)).

(** The calls a walk from [dirPath] may make. *)
Definition permitted (Match : GlobMatcher) (fp : FileProcessor)
    (dirPath : string) (c : os.syscall) : bool :=
  match c with
  | os.SysReadFile path => eligible Match fp path
  | os.SysWriteFile path data perm =>
    eligible Match fp path && (perm =? perm0600)
  | os.SysChmod path mode => eligible Match fp path && (mode =? perm0600)
  | os.SysStat path =>
    negb (isExcluded Match fp path) && negb (has_inner_vcs path)
  | os.SysReadDir path => negb (isExcluded Match fp path)
  | os.SysLstat path => String.eqb path dirPath
  | os.SysPrint _ => false
  end.

(** What [ProcessDirectory] reports of a file. *)
Definition reported (Match : GlobMatcher) (fp : FileProcessor)
    (res : ProcessResult) : Prop :=
  eligible Match fp (FilePath res) = true /\
  EmojisFound res <> [] /\ Modified res = true.

(** What holds of the results and of the world at every step of the walk of
    [ProcessDirectory] that started in the world [w0]. *)
Definition walk_invariant (Match : GlobMatcher) (fp : FileProcessor)
    (dryRun : bool) (dirPath : string) (w0 : os.world)
    (results : list ProcessResult) (w : os.world) : Prop :=
  skeleton (os.root w) = skeleton (os.root w0) /\
  (dryRun = true -> os.root w = os.root w0) /\
  (exists calls,
      os.trace w = os.trace w0 ++ calls /\
      forallb (permitted Match fp dirPath) calls = true /\
      (dryRun = true -> existsb is_write calls = false)) /\
  Forall (reported Match fp) results.

(** a directory with a file of mode [0444], which holds an emoji *)
Definition read_only_world : os.world :=
  {| os.root := os.Dir 0x1ED [ ("a.txt", os.File os.Regular 0x124 "Hi 😊") ];
     os.trace := [] |}.

(** What holds of the results and of the console at every turn of the loop
    of [processFilePathsFromStdin] that started on the console [c0] and
    reads the lines [lines]. *)
Definition paths_invariant (TrimSpace : string -> string) (dryRun : bool)
    (lines : list string) (tree : os.node)
    (results : list ProcessResult) (w : os.world) : Prop :=
  skeleton (os.root w) = skeleton tree /\
  (dryRun = true -> os.root w = tree) /\
  Forall (fun res => EmojisFound res <> [] /\ Modified res = true /\
                     exists line, In line lines /\ FilePath res = TrimSpace line)
         results.

(** The path a call writes to or changes the mode of. *)
Definition written (c : os.syscall) : option string :=
  match c with
  | os.SysWriteFile path _ _ => Some path
  | os.SysChmod path _ => Some path
  | _ => None
  end.

(** The calls since the trace [t0] that write name files the results
    report. *)
Definition writes_reported (t0 : list os.syscall) (results : list ProcessResult)
    (w : os.world) : Prop :=
  exists calls,
    os.trace w = t0 ++ calls /\
    forall c path, In c calls -> written c = Some path ->
      exists res, In res results /\ FilePath res = path.

(** The same when the walk ends on the error [e]: the file the error names
    may have been written to. *)
Definition writes_accounted (t0 : list os.syscall) (results : list ProcessResult)
    (e : os.error) (w : os.world) : Prop :=
  exists calls,
    os.trace w = t0 ++ calls /\
    forall c path, In c calls -> written c = Some path ->
      (exists res, In res results /\ FilePath res = path) \/
      (exists cause, e = os.Errorf ("failed to process " +:+ path) cause).

(** What holds after a call of the function of a walk, or after the walk:
    the invariant [Inv] when the walk goes on, and [Fail] when it ends on
    an error. *)
Definition outcome {R : Type} (Inv : R -> os.world -> Prop)
    (Fail : R -> os.error -> os.world -> Prop)
    (out : (R * option os.error) * os.world) : Prop :=
  match snd (fst out) with
  | None => Inv (fst (fst out)) (snd out)
  | Some os.SkipDir => Inv (fst (fst out)) (snd out)
  | Some e => Fail (fst (fst out)) e (snd out)
  end.

(** No regular file of the tree holds an emoji the detector finds. *)
Fixpoint emoji_free (d : Detector) (n : os.node) : bool :=
  match n with
  | os.File os.Regular _ data =>
    match FindEmojis d data with [] => true | _ :: _ => false end
  | os.File _ _ _ => true
  | os.Dir _ entries =>
    (fix each (es : list (string * os.node)) : bool :=
       match es with
       | [] => true
       | (_, child) :: es' => emoji_free d child && each es'
       end) entries
  end.

(** a directory in which nothing is to be found *)
Definition clean_world : os.world :=
  {| os.root :=
       os.Dir 0x1ED
         [ ("b.txt", os.File os.Regular 0x1A4 "clean");
           ("src", os.Dir 0x1ED [ ("c.txt", os.File os.Regular 0x1A4 "plain") ]) ];
     os.trace := [] |}.

(** Nothing is reported, and nothing has been written since [w0]. *)
Definition untouched (w0 : os.world) (results : list ProcessResult)
    (w : os.world) : Prop :=
  results = [] /\ os.root w = os.root w0 /\
  exists calls,
    os.trace w = os.trace w0 ++ calls /\ existsb is_write calls = false.

(** The string is the encoding of one rune: only such a string is ever
    looked up in the allow set. *)
Definition single_rune (s : string) : bool :=
  match runes s with
  | [r] => String.eqb (utf8.EncodeRune r) s
  | _ => false
  end.

(** The errors of [ProcessFile] on [path]: the message put before the
    error of the call, and the call. *)
Definition file_failure (path : string) (e : os.error) : Prop :=
  exists msg op errno,
    e = os.Errorf msg (os.PathError op path errno) /\
    In (msg, op) [ ("failed to read file", "open");
                   ("failed to write cleaned file", "open");
                   ("failed to set file permissions", "chmod") ].

(** The errors of [ProcessDirectory] on [dirPath]: the root cannot be
    examined, a directory cannot be listed, a file cannot be processed. *)
Definition walk_failure (dirPath : string) (e : os.error) : Prop :=
  (exists errno, e = os.PathError "lstat" dirPath errno) \/
  (exists path, e = os.PathError "open" path os.EACCES) \/
  (exists path cause,
      e = os.Errorf ("failed to process " +:+ path) cause /\
      file_failure path cause).

(** The errors [WalkDir] hands to the function it calls. *)
Definition handed (dirPath : string) (err : option os.error) : Prop :=
  err = None \/
  (exists path, err = Some (os.PathError "open" path os.EACCES)) \/
  (exists errno, err = Some (os.PathError "lstat" dirPath errno)).

(** a directory that cannot be listed *)
Definition locked_world : os.world :=
  {| os.root :=
       os.Dir 0x1ED
         [ ("private", os.Dir 0 [ ("a.txt", os.File os.Regular 0x1A4 "Hi 😊") ]) ];
     os.trace := [] |}.


(** ** The command ([internal/cli/commands/destroy.go])

    The command writes to standard output, which the world records, and to
    standard error, which is kept beside it.  Its standard input is given
    as the lines the scanner returns and the error it ends with, if any.
    Two functions of libraries are parameters, [strings.TrimSpace] and
    [json.MarshalIndent], and so is [parseFlags], which reads the flags of
    the cobra command and the allow file. *)

Module commands.

Record commandConfig : Type := mkConfig {
  dryRun : bool;
  listOnly : bool;
  exclude : list string;
  output : string;
  filesFromStdin : bool;
  quiet : bool;
  allowFile : string;
  allowedEmojis : list string
}.

(** The errors of the command: those of the packages below it, and those it
    makes with [fmt.Errorf], with or without an error to wrap. *)
Inductive error : Type :=
| Sys (e : os.error)
| New (msg : string)
| Wrap (msg : string) (cause : error).

Record console : Type := mkConsole {
  sys : os.world;
  stderr : list string
}.

Definition CLI (A : Type) : Type := console -> A * console.

(** an action on the world, as an action of the command *)
Definition lift {A : Type} (m : os.OS A) : CLI A :=
  fun c => let '(x, w) := m (sys c) in (x, {| sys := w; stderr := stderr c |}).

(** [fmt.Fprint(out, text)] for [out] one of [os.Stdout] and [os.Stderr] *)
Definition Fprint (toStderr : bool) (text : string) (c : console) : console :=
  if toStderr then {| sys := sys c; stderr := stderr c ++ [text] |}
  else {| sys := snd (os.Print text (sys c)); stderr := stderr c |}.

(** *** What [fmt] makes of the values printed *)

(** [%d] *)
Definition itoa (n : Z) : string := NilZero.string_of_int (Z.to_int n).

(** [%v] for a slice of strings *)
Definition format_strings (l : list string) : string :=
  "[" +:+ strings.Join l " " +:+ "]".

Definition errno_string (e : os.Errno) : string :=
  match e with
  | os.ENOENT => "no such file or directory"
  | os.EACCES => "permission denied"
  | os.EISDIR => "is a directory"
  | os.ENOTDIR => "not a directory"
  | os.ENXIO => "no such device or address"
  end.

(** [err.Error()], which [%v] prints *)
Fixpoint error_string (e : os.error) : string :=
  match e with
  | os.PathError op path errno => op +:+ " " +:+ path +:+ ": " +:+ errno_string errno
  | os.SkipDir => "skip this directory"
  | os.Errorf msg cause => msg +:+ ": " +:+ error_string cause
  end.

(** [os.IsNotExist(err)]; it is false of [nil] *)
Definition IsNotExist {A : Type} (r : os.error + A) : bool :=
  match r with
  | inl (os.PathError _ _ os.ENOENT) => true
  | _ => false
  end.

(** *** Reading the input *)

Section Input.

Variable Match : GlobMatcher.
Variable TrimSpace : string -> string.

(** One turn of the loop of [processFilePathsFromStdin], on one line of the
    input; the state is the slice [results] and the console. *)
Definition processFilePath (processor : FileProcessor) (dryRun : bool)
    (st : list ProcessResult * console) (line : string)
    : list ProcessResult * console :=
  let '(results, c) := st in
  let filePath := TrimSpace line in
  if String.eqb filePath "" then st
  else
    let '(info, c1) := lift (os.Stat filePath) c in
    if IsNotExist info then
      (results,
       Fprint true ("Warning: file does not exist: " +:+ filePath +:+ newline) c1)
    else
      let '((result, err), c2) := lift (ProcessFile processor filePath dryRun) c1 in
      match err with
      | Some e =>
        (results,
         Fprint true ("Warning: failed to process " +:+ filePath +:+ ": "
                      +:+ error_string e +:+ newline) c2)
      | None =>
        if (0 <? length (EmojisFound result))%nat then (results ++ [result], c2)
        else (results, c2)
      end.

Definition processFilePathsFromStdin (processor : FileProcessor) (dryRun : bool)
    (lines : list string) (scanErr : option os.error)
    : CLI (list ProcessResult * option os.error) :=
  fun c =>
    let '(results, c') := fold_left (processFilePath processor dryRun) lines ([], c) in
    match scanErr with
    | Some err => (([], Some (os.Errorf "error reading from stdin" err)), c')
    | None => ((results, None), c')
    end.

Definition sys_error {A : Type} (r : A * option os.error) : A * option error :=
  (fst r, match snd r with Some e => Some (Sys e) | None => None end).

Definition processInput (dirPath : string) (config : commandConfig)
    (lines : list string) (scanErr : option os.error)
    : CLI (list ProcessResult * option error) :=
  fun c =>
    let processor :=
      NewFileProcessorWithExcludesAndAllowed (exclude config) (allowedEmojis config) in
    if String.eqb dirPath "-" then
      if listOnly config && negb (filesFromStdin config) then
        (([], Some (New "--list-only cannot be used with stdin content processing (use --files-from-stdin for file lists)")), c)
      else if filesFromStdin config then
        let '(r, c') := processFilePathsFromStdin processor (dryRun config)
                          lines scanErr c in
        (sys_error r, c')
      else
        let '(r, c') := lift (processContentFromStdin processor (dryRun config)
                                lines scanErr) c in
        (sys_error r, c')
    else
      let '(info, c1) := lift (os.Stat dirPath) c in
      if IsNotExist info then
        (([], Some (New ("directory does not exist: " +:+ dirPath))), c1)
      else
        let '(r, c') := lift (ProcessDirectory Match processor dirPath
                                (dryRun config)) c1 in
        (sys_error r, c').

End Input.

(** *** Writing the report *)

Record JSONSummary : Type := mkJSONSummary {
  TotalFiles : Z;
  TotalEmojis : Z;
  DryRun : bool;
  Mode : string
}.

(** The fields have the names of the JSON keys, the fields of the source
    being those of [ProcessResult] again. *)
Record JSONFileInfo : Type := mkJSONFileInfo {
  file_path : string;
  emojis_found : list string;
  original_size : Z;
  new_size : Z;                 (* [omitempty]: left out when it is 0 *)
  modified : bool
}.

Record JSONOutput : Type := mkJSONOutput {
  Summary : JSONSummary;
  Files : list JSONFileInfo
}.

(** [len(s)], an [int] *)
Definition len {A : Type} (l : list A) : Z := Z.of_nat (length l).

(** the value [outputJSON] builds and marshals *)
Definition jsonOutput (results : list ProcessResult) (config : commandConfig)
    : JSONOutput :=
  let mode := if listOnly config then "list" else "process" in
  let totalEmojis :=
    fold_left (fun total result => total + len (EmojisFound result)) results 0 in
  {| Summary := {| TotalFiles := len results; TotalEmojis := totalEmojis;
                   DryRun := dryRun config; Mode := mode |};
     Files :=
       map (fun result =>
              {| file_path := FilePath result;
                 emojis_found := EmojisFound result;
                 original_size := OriginalSize result;
                 new_size := if Modified result then NewSize result else 0;
                 modified := Modified result |})
           results |}.

Section Output.

Variable MarshalIndent : JSONOutput -> error + string.

Definition outputJSON (results : list ProcessResult) (config : commandConfig)
    : CLI (option error) :=
  fun c =>
    match MarshalIndent (jsonOutput results config) with
    | inl err => (Some (Wrap "failed to marshal JSON output" err), c)
    | inr jsonBytes => (None, Fprint false (jsonBytes +:+ newline) c)
    end.

Definition outputFileList (results : list ProcessResult) : CLI (option error) :=
  fun c =>
    (None,
     fold_left (fun c result => Fprint false (FilePath result +:+ newline) c)
               results c).

(** the lines [outputDetailedResults] prints for one result *)
Definition report_result (dryRun toStderr : bool) (c : console)
    (result : ProcessResult) : console :=
  let c := Fprint toStderr ("File: " +:+ FilePath result +:+ newline) c in
  let c := Fprint toStderr ("  Emojis found: "
                            +:+ format_strings (EmojisFound result) +:+ newline) c in
  let c :=
    if Modified result then
      if dryRun then
        Fprint toStderr ("  Would reduce size: " +:+ itoa (OriginalSize result)
                         +:+ " → " +:+ itoa (NewSize result) +:+ " bytes"
                         +:+ newline) c
      else
        Fprint toStderr ("  Size changed: " +:+ itoa (OriginalSize result)
                         +:+ " → " +:+ itoa (NewSize result) +:+ " bytes"
                         +:+ newline) c
    else c in
  Fprint toStderr newline c.

Definition outputDetailedResults (results : list ProcessResult)
    (dryRun toStderr : bool) : CLI (option error) :=
  fun c =>
    let c :=
      if dryRun then
        Fprint toStderr ("DRY RUN: Found emojis in " +:+ itoa (len results)
                         +:+ " file(s):" +:+ newline +:+ newline) c
      else
        Fprint toStderr ("Processed " +:+ itoa (len results)
                         +:+ " file(s) and removed emojis:" +:+ newline +:+ newline) c in
    let totalEmojis :=
      fold_left (fun total result => total + len (EmojisFound result)) results 0 in
    let c := fold_left (report_result dryRun toStderr) results c in
    if dryRun then
      let c := Fprint toStderr ("Total: Would remove " +:+ itoa totalEmojis
                                +:+ " emoji(s) from " +:+ itoa (len results)
                                +:+ " file(s)" +:+ newline) c in
      (None,
       Fprint toStderr ("Run with --no-dry-run to actually remove emojis."
                        +:+ newline) c)
    else
      (None,
       Fprint toStderr ("Total: Removed " +:+ itoa totalEmojis
                        +:+ " emoji(s) from " +:+ itoa (len results)
                        +:+ " file(s)" +:+ newline) c).

Definition outputResults (results : list ProcessResult) (config : commandConfig)
    (isStdinContent : bool) : CLI (option error) :=
  fun c =>
    if String.eqb (output config) "json" then outputJSON results config c
    else if isStdinContent then
      if quiet config || (len results =? 0) then (None, c)
      else outputDetailedResults results (dryRun config) true c
    else if quiet config && negb (listOnly config) then (None, c)
    else if len results =? 0 then
      if negb (listOnly config)
      then (None, Fprint false ("No emojis found in any files." +:+ newline) c)
      else (None, c)
    else if listOnly config then outputFileList results c
    else outputDetailedResults results (dryRun config) false c.

(** *** The command *)

Section Command.

Variable Match : GlobMatcher.
Variable TrimSpace : string -> string.
Variable parseFlags : CLI (error + commandConfig).

(** [DestroyEmojis(cmd, args)]; [dirPath] is [args[0]]. *)
Definition DestroyEmojis (dirPath : string) (lines : list string)
    (scanErr : option os.error) : CLI (option error) :=
  fun c =>
    let '(parsed, c1) := parseFlags c in
    match parsed with
    | inl err => (Some err, c1)
    | inr config =>
      let '((results, err), c2) :=
        processInput Match TrimSpace dirPath config lines scanErr c1 in
      match err with
      | Some e => (Some e, c2)
      | None =>
        let isStdinContent := String.eqb dirPath "-" && negb (filesFromStdin config) in
        outputResults results config isStdinContent c2
      end
    end.

End Command.

End Output.

End commands.

(** the standard output of a run: the texts printed, in order *)
Definition stdout (calls : list os.syscall) : list string :=
  omap (fun c => match c with os.SysPrint text => Some text | _ => None end) calls.

(** the flags of [emoji-sad --no-dry-run -], and those of
    [emoji-sad --list-only DIR] *)
Definition filter_config : commands.commandConfig :=
  {| commands.dryRun := false; commands.listOnly := false;
     commands.exclude := []; commands.output := "text";
     commands.filesFromStdin := false; commands.quiet := false;
     commands.allowFile := ""; commands.allowedEmojis := [] |}.

Definition list_config : commands.commandConfig :=
  {| commands.dryRun := true; commands.listOnly := true;
     commands.exclude := []; commands.output := "text";
     commands.filesFromStdin := false; commands.quiet := false;
     commands.allowFile := ""; commands.allowedEmojis := [] |}.

(** the flags of [emoji-sad --no-dry-run --output json -] *)
Definition json_config : commands.commandConfig :=
  {| commands.dryRun := false; commands.listOnly := false;
     commands.exclude := []; commands.output := "json";
     commands.filesFromStdin := false; commands.quiet := false;
     commands.allowFile := ""; commands.allowedEmojis := [] |}.

(** Since the console [c0], the calls that write name files the results
    report or files a warning on standard error names. *)
Definition paths_accounted (c0 : commands.console)
    (results : list ProcessResult) (c : commands.console) : Prop :=
  exists calls warnings,
    os.trace (commands.sys c) = os.trace (commands.sys c0) ++ calls /\
    commands.stderr c = commands.stderr c0 ++ warnings /\
    forall call path, In call calls -> written call = Some path ->
      (exists res, In res results /\ FilePath res = path) \/
      (exists text,
          In ("Warning: failed to process " +:+ path +:+ ": " +:+ text) warnings).


(** * Properties *)

(** ** Bytes and the UTF-8 codec *)

Lemma byteZ_range c : 0 <= byteZ c < 256.
Proof.
  unfold byteZ. pose proof (N_ascii_bounded c). lia.
Qed.

Lemma byteZ_byte_of z : 0 <= z < 256 -> byteZ (byte_of z) = z.
Proof.
  intros Hz. unfold byteZ, byte_of.
  rewrite N_ascii_embedding by lia. lia.
Qed.

Lemma byte_of_byteZ c : byte_of (byteZ c) = c.
Proof.
  unfold byteZ, byte_of. rewrite N2Z.id. apply ascii_N_embedding.
Qed.

Ltac euclid := Z.to_euclidean_division_equations; lia.

(** Case analysis on the integer comparisons of the goal, one at a time,
    dropping at once the cases the context contradicts. *)
Ltac cmp_cases :=
  match goal with
  | |- context [(?x <? ?y)%Z] => case (Z.ltb_spec x y); intro
  | |- context [(?x <=? ?y)%Z] => case (Z.leb_spec x y); intro
  | |- context [(?x =? ?y)%Z] => case (Z.eqb_spec x y); intro
  end.

Ltac split_cmp := repeat (cmp_cases; simpl; try (exfalso; lia)).

(** *** The bit operations of the codec, as arithmetic *)

Lemma land_low_bits x n : 0 <= n -> Z.land x (2 ^ n - 1) = x mod 2 ^ n.
Proof.
  intros Hn. rewrite <- Z.land_ones by exact Hn. f_equal.
  rewrite Z.ones_equiv. lia.
Qed.

(** an [or] of a multiple of [2^n] and a number below [2^n] is their sum *)
Lemma lor_high_low k b n :
  0 <= n -> 0 <= b < 2 ^ n -> Z.lor (k * 2 ^ n) b = k * 2 ^ n + b.
Proof.
  intros Hn Hb.
  assert (Hland : Z.land (k * 2 ^ n) b = 0).
  { rewrite <- (Z.mod_small b (2 ^ n)) by exact Hb.
    rewrite <- Z.land_ones by exact Hn.
    rewrite (Z.land_comm b), Z.land_assoc, Z.land_ones by exact Hn.
    rewrite Z.mod_mul by lia. apply Z.land_0_l. }
  pose proof (Z.add_lor_land (k * 2 ^ n) b) as H. rewrite Hland in H. lia.
Qed.

Lemma continuation_value b : Z.land b utf8.maskx = b mod 64.
Proof. apply (land_low_bits b 6). lia. Qed.

Lemma decode2_value b0 b1 :
  Z.lor (Z.shiftl (Z.land b0 utf8.mask2) 6) (Z.land b1 utf8.maskx)
  = b0 mod 32 * 64 + b1 mod 64.
Proof.
  rewrite continuation_value.
  replace (Z.land b0 utf8.mask2) with (b0 mod 32) by (symmetry; apply (land_low_bits b0 5); lia).
  rewrite Z.shiftl_mul_pow2 by lia.
  apply (lor_high_low (b0 mod 32) (b1 mod 64) 6); [lia|].
  apply Z.mod_pos_bound. lia.
Qed.

Lemma decode3_value b0 b1 b2 :
  Z.lor (Z.lor (Z.shiftl (Z.land b0 utf8.mask3) 12)
               (Z.shiftl (Z.land b1 utf8.maskx) 6))
        (Z.land b2 utf8.maskx)
  = b0 mod 16 * 4096 + b1 mod 64 * 64 + b2 mod 64.
Proof.
  rewrite !continuation_value.
  replace (Z.land b0 utf8.mask3) with (b0 mod 16) by (symmetry; apply (land_low_bits b0 4); lia).
  rewrite !Z.shiftl_mul_pow2 by lia.
  pose proof (Z.mod_pos_bound b1 64 eq_refl) as H1.
  pose proof (Z.mod_pos_bound b2 64 eq_refl) as H2.
  rewrite (lor_high_low (b0 mod 16) (b1 mod 64 * 2 ^ 6) 12) by lia.
  replace (b0 mod 16 * 2 ^ 12 + b1 mod 64 * 2 ^ 6)
    with ((b0 mod 16 * 64 + b1 mod 64) * 2 ^ 6) by lia.
  rewrite (lor_high_low _ (b2 mod 64) 6) by lia. lia.
Qed.

Lemma decode4_value b0 b1 b2 b3 :
  Z.lor (Z.lor (Z.lor (Z.shiftl (Z.land b0 utf8.mask4) 18)
                      (Z.shiftl (Z.land b1 utf8.maskx) 12))
               (Z.shiftl (Z.land b2 utf8.maskx) 6))
        (Z.land b3 utf8.maskx)
  = b0 mod 8 * 262144 + b1 mod 64 * 4096 + b2 mod 64 * 64 + b3 mod 64.
Proof.
  rewrite !continuation_value.
  replace (Z.land b0 utf8.mask4) with (b0 mod 8) by (symmetry; apply (land_low_bits b0 3); lia).
  rewrite !Z.shiftl_mul_pow2 by lia.
  pose proof (Z.mod_pos_bound b1 64 eq_refl) as H1.
  pose proof (Z.mod_pos_bound b2 64 eq_refl) as H2.
  pose proof (Z.mod_pos_bound b3 64 eq_refl) as H3.
  rewrite (lor_high_low (b0 mod 8) (b1 mod 64 * 2 ^ 12) 18) by lia.
  replace (b0 mod 8 * 2 ^ 18 + b1 mod 64 * 2 ^ 12)
    with ((b0 mod 8 * 64 + b1 mod 64) * 2 ^ 12) by lia.
  rewrite (lor_high_low _ (b2 mod 64 * 2 ^ 6) 12) by lia.
  replace ((b0 mod 8 * 64 + b1 mod 64) * 2 ^ 12 + b2 mod 64 * 2 ^ 6)
    with (((b0 mod 8 * 64 + b1 mod 64) * 64 + b2 mod 64) * 2 ^ 6) by lia.
  rewrite (lor_high_low _ (b3 mod 64) 6) by lia. lia.
Qed.

(** the continuation byte [tx | byte(x)&maskx] *)
Lemma continuation_byte x :
  Z.lor utf8.tx (Z.land (utf8.byte x) utf8.maskx) = 0x80 + x mod 64.
Proof.
  rewrite continuation_value. unfold utf8.byte, utf8.tx.
  replace ((x mod 2 ^ 8) mod 64) with (x mod 64) by euclid.
  apply (lor_high_low 2 (x mod 64) 6); [lia|]. apply Z.mod_pos_bound. lia.
Qed.

(** the leading byte [t | byte(x)], where [t] has its low [n] bits clear
    and [x] fits in them *)
Lemma leading_byte k n x :
  0 <= n -> 0 <= x < 2 ^ n -> n <= 8 ->
  Z.lor (k * 2 ^ n) (utf8.byte x) = k * 2 ^ n + x.
Proof.
  intros Hn Hx H8. unfold utf8.byte.
  assert (2 ^ n <= 2 ^ 8) by (apply Z.pow_le_mono_r; lia).
  rewrite Z.mod_small by lia. now apply lor_high_low.
Qed.

Lemma leading2 x : 0 <= x < 32 -> Z.lor utf8.t2 (utf8.byte x) = 0xC0 + x.
Proof. intros H. apply (leading_byte 6 5 x); lia. Qed.

Lemma leading3 x : 0 <= x < 16 -> Z.lor utf8.t3 (utf8.byte x) = 0xE0 + x.
Proof. intros H. apply (leading_byte 14 4 x); lia. Qed.

Lemma leading4 x : 0 <= x < 8 -> Z.lor utf8.t4 (utf8.byte x) = 0xF0 + x.
Proof. intros H. apply (leading_byte 30 3 x); lia. Qed.

Lemma ValidRune_spec r :
  utf8.ValidRune r = true <-> (0 <= r < 0xD800 \/ 0xDFFF < r <= 0x10FFFF).
Proof. unfold utf8.ValidRune, utf8.MaxRune, utf8.surrogateMin, utf8.surrogateMax. lia. Qed.

Lemma append_cons a s t : String a s +:+ t = String a (s +:+ t).
Proof. reflexivity. Qed.

Lemma append_empty t : EmptyString +:+ t = t.
Proof. reflexivity. Qed.

Ltac app_simpl := rewrite ?append_cons, ?append_empty.

Lemma uint32_small r : 0 <= r < 2 ^ 32 -> utf8.uint32 r = r.
Proof. intros H. unfold utf8.uint32. apply Z.mod_small. exact H. Qed.

(** *** The encodings of one, two, three and four bytes *)

Ltac encode_cases :=
  unfold utf8.EncodeRune;
  rewrite uint32_small by lia;
  unfold utf8.rune1Max, utf8.rune2Max, utf8.rune3Max, utf8.MaxRune,
    utf8.surrogateMin, utf8.surrogateMax;
  split_cmp.

Lemma encode1 r : 0 <= r < 0x80 ->
  utf8.EncodeRune r = String (byte_of r) EmptyString.
Proof.
  intros H. encode_cases.
  unfold utf8.byte. now rewrite Z.mod_small by lia.
Qed.

Lemma encode2 r : 0x80 <= r <= 0x7FF ->
  utf8.EncodeRune r =
  String (byte_of (0xC0 + r / 64)) (String (byte_of (0x80 + r mod 64)) EmptyString).
Proof.
  intros H. encode_cases.
  rewrite continuation_byte, Z.shiftr_div_pow2 by lia.
  rewrite leading2 by euclid. reflexivity.
Qed.

Lemma bytes3_value r : 0 <= r <= 0xFFFF ->
  utf8.bytes3 r =
  String (byte_of (0xE0 + r / 4096))
    (String (byte_of (0x80 + (r / 64) mod 64))
       (String (byte_of (0x80 + r mod 64)) EmptyString)).
Proof.
  intros H. unfold utf8.bytes3.
  rewrite !continuation_byte, !Z.shiftr_div_pow2 by lia.
  rewrite leading3 by euclid. reflexivity.
Qed.

Lemma encode3 r : 0x800 <= r <= 0xFFFF -> ~ (0xD800 <= r <= 0xDFFF) ->
  utf8.EncodeRune r =
  String (byte_of (0xE0 + r / 4096))
    (String (byte_of (0x80 + (r / 64) mod 64))
       (String (byte_of (0x80 + r mod 64)) EmptyString)).
Proof.
  intros H Hs. encode_cases; apply bytes3_value; lia.
Qed.

Lemma encode4 r : 0x10000 <= r <= 0x10FFFF ->
  utf8.EncodeRune r =
  String (byte_of (0xF0 + r / 262144))
    (String (byte_of (0x80 + (r / 4096) mod 64))
       (String (byte_of (0x80 + (r / 64) mod 64))
          (String (byte_of (0x80 + r mod 64)) EmptyString))).
Proof.
  intros H. encode_cases.
  rewrite !continuation_byte, !Z.shiftr_div_pow2 by lia.
  rewrite leading4 by euclid. reflexivity.
Qed.

(** the digits of a rune in base 64 *)
Lemma digits64 r :
  0 <= r ->
  exists a b c d,
    r = a * 262144 + b * 4096 + c * 64 + d /\
    0 <= a /\ 0 <= b < 64 /\ 0 <= c < 64 /\ 0 <= d < 64 /\
    r mod 64 = d /\ (r / 64) mod 64 = c /\ (r / 4096) mod 64 = b /\
    r / 262144 = a /\ r / 4096 = a * 64 + b /\ r / 64 = a * 4096 + b * 64 + c.
Proof.
  intros Hr.
  exists (r / 262144), ((r / 4096) mod 64), ((r / 64) mod 64), (r mod 64).
  euclid.
Qed.

Lemma mod_offset k m x : 0 < m -> 0 <= x < m -> (k * m + x) mod m = x.
Proof.
  intros Hm Hx. rewrite Z.add_comm, Z.mod_add by lia. apply Z.mod_small; lia.
Qed.

Ltac decode_cases_tac :=
  unfold utf8.DecodeRuneInString, utf8.first, utf8.between, utf8.locb, utf8.hicb;
  rewrite ?byteZ_byte_of by lia;
  split_cmp.

(** *** Decoding after encoding *)

Lemma decode_encode r s :
  utf8.ValidRune r = true ->
  utf8.DecodeRuneInString (utf8.EncodeRune r +:+ s)
  = (r, String.length (utf8.EncodeRune r)).
Proof.
  intros Hv. apply ValidRune_spec in Hv.
  destruct (digits64 r) as (a & b & c & d & Hr & Ha & Hb & Hc & Hd
                            & E1 & E2 & E3 & E4 & E5 & E6); [lia|].
  destruct (Z.lt_ge_cases r 0x80) as [H1|H1].
  { rewrite encode1 by lia. app_simpl. decode_cases_tac; reflexivity. }
  destruct (Z.le_gt_cases r 0x7FF) as [H2|H2].
  { rewrite encode2 by lia. rewrite E1, E6. clear E1 E2 E3 E4 E5 E6. subst r.
    assert (a = 0) by lia. assert (b = 0) by lia. subst a b.
    app_simpl. decode_cases_tac;
      rewrite decode2_value;
      rewrite (mod_offset 6 32), (mod_offset 2 64) by lia; simpl; f_equal; lia. }
  destruct (Z.le_gt_cases r 0xFFFF) as [H3|H3].
  { rewrite encode3 by lia. rewrite E1, E2, E5. clear E1 E2 E3 E4 E5 E6. subst r.
    assert (a = 0) by lia. subst a.
    app_simpl. decode_cases_tac;
      rewrite decode3_value;
      rewrite (mod_offset 14 16), !(mod_offset 2 64) by lia; simpl; f_equal; lia. }
  { rewrite encode4 by lia. rewrite E1, E2, E3, E4. clear E1 E2 E3 E4 E5 E6. subst r.
    app_simpl. decode_cases_tac;
      rewrite decode4_value;
      rewrite (mod_offset 30 8), !(mod_offset 2 64) by lia; simpl; f_equal; lia. }
Qed.

Lemma byte_eq c z : byteZ c = z -> c = byte_of z.
Proof. intros <-. symmetry. apply byte_of_byteZ. Qed.

(** *** Encoding after decoding *)

Lemma first_cases b0 sz lo hi :
  utf8.first b0 = Some (sz, lo, hi) ->
  (sz = 2%nat /\ 0xC2 <= b0 <= 0xDF /\ lo = 0x80 /\ hi = 0xBF) \/
  (sz = 3%nat /\ 0xE0 <= b0 <= 0xEF /\ 0x80 <= lo /\ hi <= 0xBF /\
   (b0 = 0xE0 -> lo = 0xA0) /\ (b0 = 0xED -> hi = 0x9F)) \/
  (sz = 4%nat /\ 0xF0 <= b0 <= 0xF4 /\ 0x80 <= lo /\ hi <= 0xBF /\
   (b0 = 0xF0 -> lo = 0x90) /\ (b0 = 0xF4 -> hi = 0x8F)).
Proof.
  unfold utf8.first, utf8.locb, utf8.hicb.
  split_cmp; intros [= <- <- <-]; lia.
Qed.

Lemma decode_cases c0 s1 :
  decoded (String c0 s1) (utf8.DecodeRuneInString (String c0 s1)).
Proof.
  unfold utf8.DecodeRuneInString.
  pose proof (byteZ_range c0) as R0. pose proof (byte_eq c0 _ eq_refl) as E0.
  set (b0 := byteZ c0) in *.
  destruct (Z.ltb_spec b0 128).
  { replace 1%nat with (String.length (utf8.EncodeRune b0))
      by (rewrite encode1 by lia; reflexivity).
    apply (decoded_rune _ b0 s1); [apply ValidRune_spec; lia|].
    rewrite encode1 by lia. app_simpl. congruence. }
  destruct (utf8.first b0) as [[[sz lo] hi]|] eqn:F; [|constructor].
  apply first_cases in F.
  destruct s1 as [|c1 s2]; [constructor|].
  pose proof (byteZ_range c1) as R1. pose proof (byte_eq c1 _ eq_refl) as E1.
  unfold utf8.between, utf8.locb, utf8.hicb. set (b1 := byteZ c1) in *.
  destruct (Z.leb_spec lo b1); simpl; [|constructor].
  destruct (Z.leb_spec b1 hi); simpl; [|constructor].
  destruct F as [(-> & Hb0 & -> & ->)
                |[(-> & Hb0 & Hlo & Hhi & HE0 & HED)
                 |(-> & Hb0 & Hlo & Hhi & HF0 & HF4)]]; simpl.
  - rewrite decode2_value. set (r := b0 mod 32 * 64 + b1 mod 64).
    assert (Hr : 0x80 <= r <= 0x7FF) by (subst r; euclid).
    replace 2%nat with (String.length (utf8.EncodeRune r))
      by (rewrite encode2 by lia; reflexivity).
    apply (decoded_rune _ r s2); [apply ValidRune_spec; lia|].
    rewrite encode2 by lia. app_simpl. rewrite E0, E1.
    repeat f_equal; subst r; euclid.
  - destruct s2 as [|c2 s3]; [constructor|].
    pose proof (byteZ_range c2) as R2. pose proof (byte_eq c2 _ eq_refl) as E2.
    set (b2 := byteZ c2) in *.
    destruct (Z.leb_spec 128 b2); simpl; [|constructor].
    destruct (Z.leb_spec b2 191); simpl; [|constructor].
    rewrite decode3_value.
    set (r := b0 mod 16 * 4096 + b1 mod 64 * 64 + b2 mod 64).
    assert (Hr : 0x800 <= r <= 0xFFFF /\ ~ (0xD800 <= r <= 0xDFFF))
      by (subst r; euclid).
    replace 3%nat with (String.length (utf8.EncodeRune r))
      by (rewrite encode3 by lia; reflexivity).
    apply (decoded_rune _ r s3); [apply ValidRune_spec; lia|].
    rewrite encode3 by lia. app_simpl. rewrite E0, E1, E2.
    repeat f_equal; subst r; euclid.
  - destruct s2 as [|c2 s3]; [constructor|].
    pose proof (byteZ_range c2) as R2. pose proof (byte_eq c2 _ eq_refl) as E2.
    set (b2 := byteZ c2) in *.
    destruct (Z.leb_spec 128 b2); simpl; [|constructor].
    destruct (Z.leb_spec b2 191); simpl; [|constructor].
    destruct s3 as [|c3 s4]; [constructor|].
    pose proof (byteZ_range c3) as R3. pose proof (byte_eq c3 _ eq_refl) as E3.
    set (b3 := byteZ c3) in *.
    destruct (Z.leb_spec 128 b3); simpl; [|constructor].
    destruct (Z.leb_spec b3 191); simpl; [|constructor].
    rewrite decode4_value.
    set (r := b0 mod 8 * 262144 + b1 mod 64 * 4096 + b2 mod 64 * 64 + b3 mod 64).
    assert (Hr : 0x10000 <= r <= 0x10FFFF) by (subst r; euclid).
    replace 4%nat with (String.length (utf8.EncodeRune r))
      by (rewrite encode4 by lia; reflexivity).
    apply (decoded_rune _ r s4); [apply ValidRune_spec; lia|].
    rewrite encode4 by lia. app_simpl. rewrite E0, E1, E2, E3.
    repeat f_equal; subst r; euclid.
Qed.

Lemma append_assoc (s t u : string) : (s +:+ t) +:+ u = s +:+ (t +:+ u).
Proof.
  induction s as [|a s IH]; [reflexivity|]. app_simpl. now rewrite IH.
Qed.

Lemma append_empty_r (s : string) : s +:+ EmptyString = s.
Proof.
  induction s as [|a s IH]; [reflexivity|]. app_simpl. now rewrite IH.
Qed.

Lemma length_append (s t : string) :
  String.length (s +:+ t) = (String.length s + String.length t)%nat.
Proof.
  induction s as [|a s IH]; [reflexivity|]. app_simpl. simpl. now rewrite IH.
Qed.

Lemma take_bytes_append (e s : string) :
  take_bytes (String.length e) (e +:+ s) = e.
Proof.
  induction e as [|a e IH]; [reflexivity|]. app_simpl. simpl. now rewrite IH.
Qed.

Lemma drop_bytes_append (e s : string) :
  drop_bytes (String.length e) (e +:+ s) = s.
Proof.
  induction e as [|a e IH]; [reflexivity|]. app_simpl. simpl. exact IH.
Qed.

Lemma encode_nonempty r : exists c e, utf8.EncodeRune r = String c e.
Proof.
  unfold utf8.EncodeRune, utf8.bytes3.
  repeat match goal with
         | |- context [if ?b then _ else _] => destruct b
         end; eauto.
Qed.

(** *** The rune loop *)

Lemma chunks_encode r s :
  utf8.ValidRune r = true ->
  chunks (utf8.EncodeRune r +:+ s) = (r, utf8.EncodeRune r) :: chunks s.
Proof.
  intros Hv. pose proof (decode_encode r s Hv) as Hd.
  destruct (encode_nonempty r) as (c & e & He).
  pose proof (take_bytes_append (utf8.EncodeRune r) s) as Ht.
  pose proof (drop_bytes_append e s) as Hdr.
  rewrite He in *. rewrite append_cons in *.
  rewrite chunks_equation_2, Hd. simpl. simpl in Ht. now rewrite Ht, Hdr.
Qed.

Lemma chunks_error c s :
  utf8.DecodeRuneInString (String c s) = (utf8.RuneError, 1%nat) ->
  chunks (String c s) = (utf8.RuneError, String c EmptyString) :: chunks s.
Proof.
  intros Hd. rewrite chunks_equation_2, Hd. reflexivity.
Qed.

(** Induction over a byte string the way the rune loop reads it. *)
Lemma string_utf8_ind (P : string -> Prop) :
  P EmptyString ->
  (forall r rest, utf8.ValidRune r = true -> P rest ->
                  P (utf8.EncodeRune r +:+ rest)) ->
  (forall c s, utf8.DecodeRuneInString (String c s) = (utf8.RuneError, 1%nat) ->
               P s -> P (String c s)) ->
  forall s, P s.
Proof.
  intros Hnil Hrune Herr s.
  remember (String.length s) as n eqn:Hn. revert s Hn.
  induction n as [n IH] using lt_wf_ind. intros [|c s1] Hn; [exact Hnil|].
  pose proof (decode_cases c s1) as Hd.
  remember (utf8.DecodeRuneInString (String c s1)) as dec eqn:Hdec.
  destruct Hd as [r rest Hv Hs|].
  - rewrite Hs. apply Hrune; [exact Hv|].
    apply (IH (String.length rest)); [|reflexivity].
    subst n. rewrite Hs, length_append.
    destruct (encode_nonempty r) as (c' & e & ->). simpl. lia.
  - apply Herr; [now symmetry|].
    apply (IH (String.length s1)); [|reflexivity]. subst n. simpl. lia.
Qed.

Lemma chunks_valid s :
  Forall (fun ch => utf8.ValidRune (fst ch) = true) (chunks s).
Proof.
  induction s as [|r rest Hv IH|c s Hd IH] using string_utf8_ind.
  - rewrite chunks_equation_1. constructor.
  - rewrite chunks_encode by exact Hv. constructor; assumption.
  - rewrite chunks_error by exact Hd. constructor; [reflexivity|assumption].
Qed.

(** Every rune of the loop comes with its own encoding, but for the bytes
    given up as [RuneError]. *)
Lemma chunks_shape s :
  Forall (fun ch => snd ch = utf8.EncodeRune (fst ch) \/ fst ch = utf8.RuneError)
         (chunks s).
Proof.
  induction s as [|r rest Hv IH|c s Hd IH] using string_utf8_ind.
  - rewrite chunks_equation_1. constructor.
  - rewrite chunks_encode by exact Hv. constructor; [now left|assumption].
  - rewrite chunks_error by exact Hd. constructor; [now right|assumption].
Qed.

Lemma runes_valid s : Forall (fun r => utf8.ValidRune r = true) (runes s).
Proof.
  unfold runes. apply Forall_map. apply chunks_valid.
Qed.

Lemma chunks_string_of_runes (l : list Z) (s : string) :
  Forall (fun r => utf8.ValidRune r = true) l ->
  chunks (string_of_runes l +:+ s)
  = map (fun r => (r, utf8.EncodeRune r)) l ++ chunks s.
Proof.
  unfold string_of_runes. induction 1 as [|r l Hr Hl IH]; [reflexivity|].
  simpl. rewrite append_assoc, chunks_encode by exact Hr. now rewrite IH.
Qed.

Lemma chunks_of_runes (l : list Z) :
  Forall (fun r => utf8.ValidRune r = true) l ->
  chunks (string_of_runes l) = map (fun r => (r, utf8.EncodeRune r)) l.
Proof.
  intros Hl. rewrite <- (append_empty_r (string_of_runes l)).
  rewrite chunks_string_of_runes by exact Hl.
  rewrite chunks_equation_1. apply app_nil_r.
Qed.

Lemma runes_of_runes (l : list Z) :
  Forall (fun r => utf8.ValidRune r = true) l ->
  runes (string_of_runes l) = l.
Proof.
  intros Hl. unfold runes. rewrite chunks_of_runes by exact Hl.
  rewrite map_map. simpl. apply map_id.
Qed.

Lemma chunks_encode_one r :
  utf8.ValidRune r = true ->
  chunks (utf8.EncodeRune r) = [(r, utf8.EncodeRune r)].
Proof.
  intros Hv. rewrite <- (append_empty_r (utf8.EncodeRune r)) at 1.
  rewrite chunks_encode by exact Hv. now rewrite chunks_equation_1.
Qed.

Lemma ValidString_of_runes (l : list Z) :
  Forall (fun r => utf8.ValidRune r = true) l ->
  ValidString (string_of_runes l).
Proof.
  intros Hl. unfold ValidString. now rewrite runes_of_runes.
Qed.

Lemma ValidString_chunks s :
  ValidString s ->
  chunks s = map (fun r => (r, utf8.EncodeRune r)) (runes s).
Proof.
  unfold ValidString. intros Hs.
  rewrite <- Hs at 1. apply chunks_of_runes, runes_valid.
Qed.

(** ** The detector *)

Arguments regexp.matchRune : simpl never.
Arguments isEmoji : simpl never.
Arguments utf8.EncodeRune : simpl never.

Lemma fold_left_snoc {A : Type} (p : A -> bool) (l acc : list A) :
  fold_left (fun acc x => if p x then acc ++ [x] else acc) l acc
  = acc ++ List.filter p l.
Proof.
  revert acc. induction l as [|x l IH]; intros acc; simpl.
  - now rewrite app_nil_r.
  - rewrite IH. destruct (p x); [|reflexivity].
    now rewrite <- app_assoc.
Qed.

Lemma isEmoji_in_pattern r :
  isEmoji r = true -> regexp.matchRune emojiPattern r = true.
Proof.
  unfold isEmoji, regexp.matchRune, emojiPattern, existsb.
  split_cmp; intros; try reflexivity; discriminate.
Qed.

Lemma MatchString_encode re r :
  utf8.ValidRune r = true ->
  regexp.MatchString re (utf8.EncodeRune r) = regexp.matchRune re r.
Proof.
  intros Hv. unfold regexp.MatchString. rewrite chunks_encode_one by exact Hv.
  simpl. apply orb_false_r.
Qed.

Lemma RuneError_no_match : regexp.matchRune emojiPattern utf8.RuneError = false.
Proof. reflexivity. Qed.

(** *** The constructors *)

Lemma allowed_fold (allowed : list string) (d0 : Detector) (k : string) :
  index (allowedEmojis
           (fold_left
              (fun detector emoji =>
                 {| emojiRegex := emojiRegex detector;
                    allowedEmojis := <[emoji := true]> (allowedEmojis detector) |})
              allowed d0)) k
  = existsb (String.eqb k) allowed || index (allowedEmojis d0) k.
Proof.
  revert d0. induction allowed as [|a l IH]; intros d0; [reflexivity|].
  simpl. rewrite IH. simpl. unfold index.
  destruct (String.eqb_spec k a) as [->|Hne].
  - rewrite lookup_insert_eq. simpl. now rewrite orb_true_r.
  - rewrite lookup_insert_ne by congruence. reflexivity.
Qed.

Lemma regex_fold (allowed : list string) (d0 : Detector) :
  emojiRegex
    (fold_left
       (fun detector emoji =>
          {| emojiRegex := emojiRegex detector;
             allowedEmojis := <[emoji := true]> (allowedEmojis detector) |})
       allowed d0)
  = emojiRegex d0.
Proof.
  revert d0. induction allowed as [|a l IH]; intros d0; [reflexivity|].
  simpl. now rewrite IH.
Qed.

Lemma size_fold (allowed : list string) (d0 : Detector) :
  (size (allowedEmojis d0) <=
   size (allowedEmojis
           (fold_left
              (fun detector emoji =>
                 {| emojiRegex := emojiRegex detector;
                    allowedEmojis := <[emoji := true]> (allowedEmojis detector) |})
              allowed d0)))%nat.
Proof.
  revert d0. induction allowed as [|a l IH]; intros d0; [reflexivity|].
  simpl. etransitivity; [|apply IH]. simpl.
  destruct (allowedEmojis d0 !! a) as [b|] eqn:Hl.
  - rewrite map_size_insert_Some by eauto. reflexivity.
  - rewrite map_size_insert_None by exact Hl. lia.
Qed.

Lemma detector_regex allowed :
  emojiRegex (NewDetectorWithAllowed allowed) = emojiPattern.
Proof. unfold NewDetectorWithAllowed. now rewrite regex_fold. Qed.

Lemma detector_allows allowed k :
  index (allowedEmojis (NewDetectorWithAllowed allowed)) k = true <-> In k allowed.
Proof.
  unfold NewDetectorWithAllowed. rewrite allowed_fold.
  replace (index (allowedEmojis NewDetector) k) with false by reflexivity.
  rewrite orb_false_r.
  rewrite existsb_exists. split.
  - intros (x & Hx & He). apply String.eqb_eq in He. now subst.
  - intros Hk. exists k. split; [exact Hk|apply String.eqb_refl].
Qed.

Lemma detector_size allowed :
  (0 <? size (allowedEmojis (NewDetectorWithAllowed allowed)))%nat
  = negb (Nat.eqb (length allowed) 0).
Proof.
  destruct allowed as [|a l]; [reflexivity|].
  unfold NewDetectorWithAllowed. simpl.
  match goal with |- (0 <? size (allowedEmojis (fold_left ?f l ?d0)))%nat = _ =>
    pose proof (size_fold l d0) as Hs end.
  simpl in Hs. rewrite map_size_insert_None in Hs by apply lookup_empty.
  apply Nat.ltb_lt. lia.
Qed.

(** *** List lemmas *)

Lemma fold_left_ext_in {A B : Type} (f g : A -> B -> A) (l : list B) (a : A) :
  (forall a x, In x l -> f a x = g a x) ->
  fold_left f l a = fold_left g l a.
Proof.
  revert a. induction l as [|x l IH]; intros a H; [reflexivity|].
  simpl. rewrite H by now left. apply IH. intros; apply H; now right.
Qed.

Lemma filter_filter {A : Type} (p q : A -> bool) (l : list A) :
  List.filter p (List.filter q l) = List.filter (fun x => q x && p x) l.
Proof.
  induction l as [|x l IH]; [reflexivity|]. simpl.
  destruct (q x); simpl; [destruct (p x)|]; now rewrite IH.
Qed.

Lemma Forall_filter_valid (p : Z -> bool) (l : list Z) :
  Forall (fun r => utf8.ValidRune r = true) l ->
  Forall (fun r => utf8.ValidRune r = true) (List.filter p l).
Proof.
  rewrite !List.Forall_forall. intros H x Hx. apply filter_In in Hx. now apply H.
Qed.

(** *** [RemoveEmojis] as a filter *)

(** The ranges of [isEmoji] are among those of the pattern. *)
Lemma in_emoji_range_pattern allowed r :
  in_emoji_range (NewDetectorWithAllowed allowed) r
  = regexp.matchRune emojiPattern r.
Proof.
  unfold in_emoji_range. rewrite detector_regex.
  pose proof (isEmoji_in_pattern r) as Hi.
  destruct (isEmoji r); [now rewrite Hi|reflexivity].
Qed.

Lemma keep_qualifies allowed r :
  utf8.ValidRune r = true ->
  let d := NewDetectorWithAllowed allowed in
  (if isEmoji r || regexp.MatchString (emojiRegex d) (utf8.EncodeRune r)
   then index (allowedEmojis d) (utf8.EncodeRune r) else true)
  = negb (qualifies d r).
Proof.
  intros Hv d. unfold qualifies. subst d.
  rewrite in_emoji_range_pattern, detector_regex, MatchString_encode by exact Hv.
  pose proof (isEmoji_in_pattern r) as Hi.
  destruct (isEmoji r); [rewrite Hi by reflexivity|];
    destruct (regexp.matchRune emojiPattern r); simpl;
    try rewrite negb_involutive; reflexivity.
Qed.

Lemma RemoveEmojis_selective_filter allowed t :
  let d := NewDetectorWithAllowed allowed in
  RemoveEmojis_selective d t
  = string_of_runes (List.filter (fun r => negb (qualifies d r)) (runes t)).
Proof.
  intros d. unfold RemoveEmojis_selective. f_equal.
  rewrite (fold_left_ext_in _
             (fun acc r => if negb (qualifies d r) then acc ++ [r] else acc)).
  - rewrite fold_left_snoc. reflexivity.
  - intros acc r Hr.
    pose proof (runes_valid t) as Hv. rewrite List.Forall_forall in Hv.
    pose proof (keep_qualifies allowed r (Hv r Hr)) as Hk.
    simpl in Hk. fold d in Hk. rewrite <- Hk.
    destruct (isEmoji r || regexp.MatchString (emojiRegex d) (utf8.EncodeRune r));
      [destruct (index (allowedEmojis d) (utf8.EncodeRune r))|]; reflexivity.
Qed.

Lemma concat_skip (p : Z -> bool) (l : list Z) :
  concat_bytes (map (fun r => if p r then EmptyString else utf8.EncodeRune r) l)
  = string_of_runes (List.filter (fun r => negb (p r)) l).
Proof.
  unfold string_of_runes. induction l as [|r l IH]; [reflexivity|].
  simpl. destruct (p r); simpl; now rewrite IH.
Qed.

Lemma ReplaceAllString_valid re t :
  ValidString t ->
  regexp.ReplaceAllString re t EmptyString
  = string_of_runes (List.filter (fun r => negb (regexp.matchRune re r)) (runes t)).
Proof.
  intros Ht. unfold regexp.ReplaceAllString.
  rewrite (ValidString_chunks t Ht), map_map. simpl. apply concat_skip.
Qed.

Lemma RemoveEmojis_fast_filter allowed t :
  ValidString t ->
  RemoveEmojis_fast (NewDetectorWithAllowed allowed) t
  = string_of_runes
      (List.filter (fun r => negb (regexp.matchRune emojiPattern r)) (runes t)).
Proof.
  intros Ht. unfold RemoveEmojis_fast. rewrite detector_regex.
  rewrite (ReplaceAllString_valid _ t Ht).
  rewrite runes_of_runes by apply Forall_filter_valid, runes_valid.
  rewrite fold_left_snoc, app_nil_l. f_equal.
  rewrite filter_filter. apply filter_ext. intros r.
  pose proof (isEmoji_in_pattern r) as Hi.
  destruct (isEmoji r); [rewrite Hi by reflexivity; reflexivity|].
  apply andb_true_r.
Qed.

Lemma qualifies_nothing_allowed r :
  qualifies NewDetector r = regexp.matchRune emojiPattern r.
Proof.
  unfold qualifies. change NewDetector with (NewDetectorWithAllowed []).
  rewrite in_emoji_range_pattern. apply andb_true_r.
Qed.

(** *** [FindEmojis] *)

Lemma mem_In k l : mem k l = true <-> In k l.
Proof.
  unfold mem. rewrite existsb_exists. split.
  - intros (x & Hx & He). apply String.eqb_eq in He. now subst.
  - intros Hk. exists k. split; [exact Hk|apply String.eqb_refl].
Qed.

Lemma mem_snoc k l x : mem k (l ++ [x]) = mem k l || String.eqb k x.
Proof. unfold mem. rewrite existsb_app. simpl. now rewrite orb_false_r. Qed.

Lemma first_occurrences_In k l : In k (first_occurrences l) <-> In k l.
Proof.
  induction l as [|x l IH]; [reflexivity|]. simpl.
  rewrite filter_In, IH. destruct (String.eqb_spec x k) as [->|Hne].
  - tauto.
  - simpl. intuition congruence.
Qed.

Lemma first_occurrences_NoDup l : List.NoDup (first_occurrences l).
Proof.
  induction l as [|x l IH]; simpl; constructor.
  - rewrite filter_In. intros [_ H]. now rewrite String.eqb_refl in H.
  - now apply List.NoDup_filter.
Qed.

Lemma fold_add_distinct l acc :
  fold_left add_distinct l acc
  = acc ++ List.filter (fun k => negb (mem k acc)) (first_occurrences l).
Proof.
  revert acc. induction l as [|x l IH]; intros acc; simpl.
  - now rewrite app_nil_r.
  - rewrite IH. unfold add_distinct. destruct (mem x acc) eqn:Hx; simpl.
    + f_equal. rewrite filter_filter. apply filter_ext_in. intros k _.
      destruct (String.eqb_spec x k) as [->|Hne]; [now rewrite Hx|reflexivity].
    + rewrite <- app_assoc. simpl. do 2 f_equal.
      rewrite filter_filter. apply filter_ext. intros k.
      rewrite mem_snoc, negb_orb, (String.eqb_sym k x). apply andb_comm.
Qed.

Lemma record_emoji_step d st k :
  seen_inv st ->
  seen_inv (record_emoji d st k) /\
  fst (record_emoji d st k)
  = if index (allowedEmojis d) k then fst st else add_distinct (fst st) k.
Proof.
  destruct st as [emojis seen]. unfold seen_inv, record_emoji. simpl. intros Hinv.
  destruct (index (allowedEmojis d) k); [now split|].
  unfold add_distinct. rewrite <- Hinv.
  destruct (index seen k) eqn:Hk; simpl; [now split|]. split; [|reflexivity].
  intros k'. rewrite mem_snoc, <- Hinv. unfold index.
  destruct (String.eqb_spec k' k) as [->|Hne].
  - rewrite lookup_insert_eq. simpl. now rewrite orb_true_r.
  - rewrite lookup_insert_ne by congruence. now rewrite orb_false_r.
Qed.

Lemma record_emoji_fold d l st :
  seen_inv st ->
  seen_inv (fold_left (record_emoji d) l st) /\
  fst (fold_left (record_emoji d) l st)
  = fold_left add_distinct
      (List.filter (fun k => negb (index (allowedEmojis d) k)) l) (fst st).
Proof.
  revert st. induction l as [|k l IH]; intros st Hinv; [now split|].
  simpl. destruct (record_emoji_step d st k Hinv) as [Hinv' Hfst].
  destruct (IH _ Hinv') as [Hinv'' Hfold]. split; [exact Hinv''|].
  rewrite Hfold, Hfst. now destruct (index (allowedEmojis d) k).
Qed.

Lemma record_emoji_known d st k :
  seen_inv st ->
  index (allowedEmojis d) k = true \/ In k (fst st) ->
  record_emoji d st k = st.
Proof.
  destruct st as [emojis seen]. unfold seen_inv, record_emoji. simpl.
  intros Hinv [Ha|Hk]; [now rewrite Ha|].
  destruct (index (allowedEmojis d) k); [reflexivity|].
  apply mem_In in Hk. rewrite Hinv, Hk. reflexivity.
Qed.

Lemma FindAllString_encode t :
  regexp.FindAllString emojiPattern t
  = map utf8.EncodeRune (List.filter (regexp.matchRune emojiPattern) (runes t)).
Proof.
  unfold regexp.FindAllString, runes.
  pose proof (chunks_shape t) as Hs.
  induction Hs as [|[r bs] l Hch _ IH]; [reflexivity|]. simpl in *.
  destruct (regexp.matchRune emojiPattern r) eqn:Hm; simpl; rewrite IH; [|reflexivity].
  f_equal. destruct Hch as [-> | ->]; [reflexivity|].
  now rewrite RuneError_no_match in Hm.
Qed.

Lemma FindEmojis_first_occurrences allowed t :
  let d := NewDetectorWithAllowed allowed in
  FindEmojis d t
  = first_occurrences
      (map utf8.EncodeRune (List.filter (qualifies d) (runes t))).
Proof.
  intros d. unfold FindEmojis.
  assert (Hre : emojiRegex d = emojiPattern) by apply detector_regex.
  rewrite Hre, FindAllString_encode.
  set (matches := map utf8.EncodeRune
                    (List.filter (regexp.matchRune emojiPattern) (runes t))).
  assert (Hinv0 : seen_inv (([] : list string), (∅ : gmap string bool))).
  { intros k. reflexivity. }
  destruct (record_emoji_fold d matches _ Hinv0) as [Hinv1 Hfst1].
  set (st1 := fold_left (record_emoji d) matches ([], ∅)) in *.
  assert (Hq : List.filter (fun k => negb (index (allowedEmojis d) k)) matches
               = map utf8.EncodeRune (List.filter (qualifies d) (runes t))).
  { subst matches. rewrite filter_map_swap, filter_filter.
    f_equal. apply filter_ext. intros r. unfold qualifies, d.
    now rewrite in_emoji_range_pattern. }
  rewrite Hq, fold_add_distinct in Hfst1. simpl in Hfst1.
  rewrite filter_true in Hfst1.
  rewrite <- Hfst1. f_equal.
  assert (Hnoop : forall l, incl l (runes t) ->
            fold_left (fun st r => if isEmoji r
                                   then record_emoji d st (utf8.EncodeRune r)
                                   else st) l st1 = st1).
  { induction l as [|r l IH]; intros Hl; [reflexivity|]. simpl.
    destruct (isEmoji r) eqn:Hi; [|apply IH; intros x Hx; apply Hl; now right].
    rewrite record_emoji_known; [apply IH; intros x Hx; apply Hl; now right|exact Hinv1|].
    destruct (index (allowedEmojis d) (utf8.EncodeRune r)) eqn:Ha; [now left|right].
    rewrite Hfst1. apply first_occurrences_In, in_map, filter_In.
    split; [apply Hl; now left|].
    unfold qualifies, in_emoji_range. now rewrite Hi, Ha. }
  apply Hnoop, incl_refl.
Qed.

(** ** Strings and paths *)

Lemma take_drop_bytes (n : nat) (s : string) :
  take_bytes n s +:+ drop_bytes n s = s.
Proof.
  revert s. induction n as [|n IH]; intros [|a s]; try reflexivity.
  simpl. rewrite append_cons. now rewrite IH.
Qed.

Lemma HasPrefix_spec (s prefix : string) :
  strings.HasPrefix s prefix = true <-> starts_with s prefix.
Proof.
  unfold starts_with. revert s. induction prefix as [|a p IH]; intros s; simpl.
  - split; [intros _; now exists s|reflexivity].
  - destruct s as [|b s].
    + split; [discriminate|]. intros [rest H]. discriminate.
    + rewrite andb_true_iff, IH. split.
      * intros [Hab [rest ->]]. apply Ascii.eqb_eq in Hab. subst b.
        exists rest. reflexivity.
      * intros [rest H]. rewrite append_cons in H. injection H as -> ->.
        split; [apply Ascii.eqb_refl|now exists rest].
Qed.

Lemma HasSuffix_spec (s suffix : string) :
  strings.HasSuffix s suffix = true <-> ends_with s suffix.
Proof.
  unfold strings.HasSuffix, ends_with. rewrite andb_true_iff. split.
  - intros [_ He]. apply String.eqb_eq in He.
    exists (take_bytes (String.length s - String.length suffix) s).
    pose proof (take_drop_bytes (String.length s - String.length suffix) s) as Htd.
    rewrite He in Htd. now symmetry.
  - intros [front ->]. rewrite length_append. split.
    + apply Nat.leb_le. lia.
    + replace (String.length front + String.length suffix - String.length suffix)%nat
        with (String.length front) by lia.
      rewrite drop_bytes_append. apply String.eqb_refl.
Qed.

Lemma Contains_spec (s sub : string) :
  strings.Contains s sub = true <-> has_substring s sub.
Proof.
  unfold has_substring. induction s as [|a s IH]; simpl.
  - rewrite orb_false_r, HasPrefix_spec. split.
    + intros [rest H]. exists "", rest. exact H.
    + intros (front & rest & H). destruct front as [|b front]; [now exists rest|].
      discriminate.
  - rewrite orb_true_iff, IH. split.
    + intros [Hp|(front & rest & ->)].
      * apply (HasPrefix_spec (String a s) sub) in Hp. destruct Hp as [rest H].
        exists "", rest. exact H.
      * exists (String a front), rest. reflexivity.
    + intros (front & rest & H). destruct front as [|b front].
      * left. apply (HasPrefix_spec (String a s) sub). now exists rest.
      * right. rewrite append_cons in H. injection H as -> ->. now exists front, rest.
Qed.

Lemma existsb_eqb_In (x : string) (l : list string) :
  existsb (fun y => String.eqb y x) l = true <-> In x l.
Proof.
  rewrite existsb_exists. split.
  - intros (y & Hy & He). apply String.eqb_eq in He. now subst.
  - intros Hx. exists x. split; [exact Hx|apply String.eqb_refl].
Qed.

Lemma IsAbs_spec (pattern : string) :
  filepath.IsAbs pattern = true <-> absolute pattern.
Proof. apply HasPrefix_spec. Qed.

Lemma glob_matches_spec Match pattern name :
  glob_matches Match pattern name = true <-> Match pattern name = Some true.
Proof.
  unfold glob_matches. destruct (Match pattern name) as [[|]|]; split; congruence.
Qed.

Lemma matchExclude_spec (Match : GlobMatcher) (path pattern : string) :
  matchExclude Match path pattern = true
  <-> matches_in_code Match (filepath.Clean path) (filepath.Clean pattern).
Proof.
  unfold matchExclude, matches_in_code.
  set (p := filepath.Clean path). set (q := filepath.Clean pattern).
  destruct (String.eqb_spec p q) as [Heq|Hne]; [split; [now left|reflexivity]|].
  pose proof (IsAbs_spec q) as Habs.
  destruct (filepath.IsAbs q).
  - rewrite orb_false_r.
    pose proof (HasPrefix_spec p (q +:+ "/")) as Hpre.
    destruct (strings.HasPrefix p (q +:+ "/")).
    + split; [|reflexivity]. intros _. right. left.
      split; [now apply Habs|right; now apply Hpre].
    + split; [discriminate|].
      intros [H|[[_ [H|H]]|[Hrel _]]]; try contradiction.
      * apply Hpre in H. discriminate.
      * exfalso. apply Hrel. now apply Habs.
  - assert (Hrel : ~ absolute q) by (intros H; apply Habs in H; discriminate).
    pose proof (existsb_eqb_In q (strings.Split p filepath.Separator)) as Hin.
    destruct (existsb _ _).
    { split; [|reflexivity]. intros _. right. right.
      split; [exact Hrel|left; now apply Hin]. }
    pose proof (HasSuffix_spec p ("/" +:+ q)) as Hsuf.
    destruct (strings.HasSuffix p ("/" +:+ q)).
    { split; [|reflexivity]. intros _. right. right.
      split; [exact Hrel|right; left; now apply Hsuf]. }
    destruct (String.eqb_spec (filepath.Base p) q) as [Hb|Hb]; simpl.
    { split; [|reflexivity]. intros _. right. right.
      split; [exact Hrel|right; right; left; exact Hb]. }
    pose proof (Contains_spec q "*") as Hstar.
    pose proof (Contains_spec q "?") as Hqm.
    pose proof (glob_matches_spec Match q p) as Hg1.
    pose proof (glob_matches_spec Match q (filepath.Base p)) as Hg2.
    assert (Hrest : forall b : bool,
               (b = true <-> glob_succeeds Match q p) ->
               (b = true <->
                p = q \/
                absolute q /\ (p = q \/ starts_with p (q +:+ "/")) \/
                ~ absolute q /\
                (In q (strings.Split p filepath.Separator) \/
                 ends_with p ("/" +:+ q) \/
                 filepath.Base p = q \/ glob_succeeds Match q p))).
    { intros b Hb'. rewrite Hb'. split.
      - intros H. right. right. split; [exact Hrel|]. tauto.
      - intros [H|[[H _]|[_ [H|[H|[H|H]]]]]]; try contradiction; try exact H.
        + apply Hin in H. discriminate.
        + apply Hsuf in H. discriminate. }
    apply Hrest. unfold glob_succeeds.
    destruct (strings.Contains q "*" || strings.Contains q "?") eqn:Hmeta.
    + apply orb_true_iff in Hmeta.
      destruct (glob_matches Match q p);
        [|destruct (glob_matches Match q (filepath.Base p))].
      * split; [|reflexivity]. intros _. split; [tauto|left; now apply Hg1].
      * split; [|reflexivity]. intros _. split; [tauto|right; now apply Hg2].
      * split; [discriminate|]. intros [_ [H|H]]; [apply Hg1 in H|apply Hg2 in H];
          discriminate.
    + apply orb_false_iff in Hmeta. destruct Hmeta as [H1 H2].
      split; [discriminate|]. intros [[H|H] _]; [apply Hstar in H|apply Hqm in H];
        congruence.
Qed.


Import os.

(** ** The file tree *)

Lemma replace_entry_find name g entries child child' :
  find_entry name entries = Some child ->
  g child = inr child' ->
  exists entries',
    replace_entry name g entries = inr entries' /\
    find_entry name entries' = Some child'.
Proof.
  intros Hfind Hg. induction entries as [|[n c] entries IH]; [discriminate|].
  simpl in *. destruct (String.eqb n name) eqn:Hn.
  - injection Hfind as ->. rewrite Hg. eexists. split; [reflexivity|].
    simpl. now rewrite Hn.
  - destruct (IH Hfind) as (entries' & -> & Hf). eexists. split; [reflexivity|].
    simpl. now rewrite Hn.
Qed.

(** Replacing the node at a path that exists succeeds, and the new node is
    then found at that path. *)
Lemma update_lookup segs g r n n' :
  lookup segs r = inr n ->
  g n = inr n' ->
  exists r', update segs g r = inr r' /\ lookup segs r' = inr n'.
Proof.
  revert r. induction segs as [|name segs IH]; intros r Hl Hg; simpl in *.
  - injection Hl as ->. now exists n'.
  - destruct r as [k p d|p entries]; [discriminate|].
    destruct (find_entry name entries) as [child|] eqn:Hf; [|discriminate].
    destruct (IH child Hl Hg) as (child' & Hu & Hl').
    destruct (replace_entry_find name (update segs g) entries child child' Hf Hu)
      as (entries' & -> & Hf').
    eexists. split; [reflexivity|]. simpl. now rewrite Hf'.
Qed.

Lemma read_file_inv path r content :
  read_file path r = inr content ->
  exists perm, lookup (segments path) r = inr (File Regular perm content)
               /\ readable perm = true.
Proof.
  unfold read_file. destruct (lookup (segments path) r) as [e|[[] perm data|]];
    try discriminate.
  destruct (readable perm) eqn:Hr; [|discriminate].
  intros [= ->]. now exists perm.
Qed.

Lemma write_then_chmod path data perm mode r :
  lookup (segments path) r = inr (File Regular perm data) ->
  forall data', writable perm = true ->
  exists r1 r2,
    write_file path data' mode r = inr r1 /\
    chmod path mode r1 = inr r2 /\
    lookup (segments path) r2 = inr (File Regular mode data').
Proof.
  intros Hl data' Hw. unfold write_file, chmod. rewrite Hl, Hw.
  destruct (update_lookup (segments path)
              (fun _ => inr (File Regular perm data')) r _ _ Hl eq_refl)
    as (r1 & Hu1 & Hl1).
  exists r1.
  destruct (update_lookup (segments path)
              (fun n => match n with
                        | File kind _ d => inr (File kind mode d)
                        | Dir _ entries => inr (Dir mode entries)
                        end) r1 _ _ Hl1 eq_refl)
    as (r2 & Hu2 & Hl2).
  exists r2. auto.
Qed.

(** ** [ProcessFile] *)


Lemma ProcessFile_unreadable fp path dryRun w e :
  read_file path (root w) = inl e ->
  ProcessFile fp path dryRun w
  = (({| FilePath := path; EmojisFound := []; OriginalSize := 0;
         NewSize := 0; Modified := false |},
      Some (Errorf "failed to read file" (PathError "open" path e))),
     {| root := root w; trace := trace w ++ [SysReadFile path] |}).
Proof.
  intros Hr. unfold ProcessFile, mbind, OS_bind, ReadFile. now rewrite Hr.
Qed.

Lemma ProcessFile_no_emoji fp path dryRun w content :
  read_file path (root w) = inr content ->
  FindEmojis (fpDetector fp) content = [] ->
  ProcessFile fp path dryRun w
  = ((unmodified path content [], None),
     {| root := root w; trace := trace w ++ [SysReadFile path] |}).
Proof.
  intros Hr Hf. unfold ProcessFile, mbind, OS_bind, ReadFile.
  now rewrite Hr, Hf.
Qed.

Lemma ProcessFile_preview fp path w content :
  read_file path (root w) = inr content ->
  FindEmojis (fpDetector fp) content <> [] ->
  ProcessFile fp path true w
  = ((modified (fpDetector fp) path content, None),
     {| root := root w; trace := trace w ++ [SysReadFile path] |}).
Proof.
  intros Hr Hf. unfold ProcessFile, mbind, OS_bind, ReadFile. rewrite Hr.
  destruct (FindEmojis (fpDetector fp) content) as [|g l] eqn:He; [contradiction|].
  unfold modified. now rewrite He.
Qed.

Lemma ProcessFile_rewrite fp path w content :
  read_file path (root w) = inr content ->
  FindEmojis (fpDetector fp) content <> [] ->
  let d := fpDetector fp in
  let cleaned := RemoveEmojis d content in
  let t1 := trace w ++ [SysReadFile path; SysWriteFile path cleaned perm0600] in
  ProcessFile fp path false w
  = match write_file path cleaned perm0600 (root w) with
    | inl e =>
      ((modified d path content,
        Some (Errorf "failed to write cleaned file" (PathError "open" path e))),
       {| root := root w; trace := t1 |})
    | inr r1 =>
      match chmod path perm0600 r1 with
      | inl e =>
        ((modified d path content,
          Some (Errorf "failed to set file permissions" (PathError "chmod" path e))),
         {| root := r1; trace := t1 ++ [SysChmod path perm0600] |})
      | inr r2 =>
        ((modified d path content, None),
         {| root := r2; trace := t1 ++ [SysChmod path perm0600] |})
      end
    end.
Proof.
  intros Hr Hf d cleaned t1.
  unfold ProcessFile, mbind, OS_bind, ReadFile. rewrite Hr. fold d.
  subst t1. unfold modified.
  destruct (FindEmojis d content) as [|g l] eqn:He; [contradiction|].
  cbn [length Nat.eqb negb]. unfold WriteFile, Chmod, mret, OS_ret. cbn [root trace].
  fold cleaned. rewrite <- app_assoc. cbn [app].
  destruct (write_file path cleaned perm0600 (root w)) as [e1|r1]; [reflexivity|].
  cbn [root trace]. rewrite <- app_assoc. cbn [app].
  destruct (chmod path perm0600 r1); reflexivity.
Qed.

Lemma unmodified_invariant d text path content :
  result_invariant d text (unmodified path content []).
Proof. split; [tauto|]. simpl. congruence. Qed.

Lemma modified_invariant d path content :
  FindEmojis d content <> [] ->
  result_invariant d (Some content) (modified d path content).
Proof.
  intros Hf. split; simpl.
  - split; [discriminate|contradiction].
  - intros _. split; [reflexivity|]. now exists content.
Qed.


(** After a write and a change of mode that both succeed, the file holds
    what was written, with the mode that was set. *)
Lemma lookup_after_rewrite path r perm content cleaned r1 r2 :
  lookup (segments path) r = inr (File Regular perm content) ->
  write_file path cleaned perm0600 r = inr r1 ->
  chmod path perm0600 r1 = inr r2 ->
  lookup (segments path) r2 = inr (File Regular perm0600 cleaned).
Proof.
  intros Hl Hw Hc. unfold write_file in Hw. rewrite Hl in Hw.
  destruct (writable perm); [|discriminate].
  destruct (update_lookup (segments path)
              (fun _ => inr (File Regular perm cleaned)) r _ _ Hl eq_refl)
    as (r1' & Hu1 & Hl1).
  assert (r1' = r1) by congruence. subst r1'.
  unfold chmod in Hc.
  destruct (update_lookup (segments path)
              (fun n => match n with
                        | File kind _ data => inr (File kind perm0600 data)
                        | Dir _ entries => inr (Dir perm0600 entries)
                        end) r1 _ _ Hl1 eq_refl)
    as (r2' & Hu2 & Hl2).
  assert (r2' = r2) by congruence. now subst r2'.
Qed.

(** ** The walk *)

Lemma node_nested_ind (Q : node -> Prop) :
  (forall kind perm data, Q (File kind perm data)) ->
  (forall perm entries, Forall (fun e => Q (snd e)) entries -> Q (Dir perm entries)) ->
  forall n, Q n.
Proof.
  intros HFile HDir.
  refine (fix IH (n : node) : Q n :=
            match n with
            | File kind perm data => HFile kind perm data
            | Dir perm entries =>
              HDir perm entries
                ((fix go (es : list (string * node)) : Forall (fun e => Q (snd e)) es :=
                    match es with
                    | [] => @List.Forall_nil _ _
                    | e :: es' => @List.Forall_cons _ _ e es' (IH (snd e)) (go es')
                    end) entries)
            end).
Qed.

Section WalkInvariant.

Context {R : Type}.
Variable fn : R -> string -> option FileInfo -> option error -> OS (R * option error).
Variable P : R -> Prop.
Hypothesis fn_keeps :
  forall acc path d err w, P acc -> P (fst (fst (fn acc path d err w))).

Lemma walkDir_keeps n :
  forall path d acc w, P acc -> P (fst (fst (walkDir fn path d n acc w))).
Proof.
  induction n as [kind perm data|perm entries IH] using node_nested_ind;
    intros path d acc w Hacc.
  - simpl. pose proof (fn_keeps acc path (Some d) None w Hacc) as H.
    destruct (fn acc path (Some d) None w) as [[acc1 err] w1]. exact H.
  - simpl. pose proof (fn_keeps acc path (Some d) None w Hacc) as H.
    destruct (fn acc path (Some d) None w) as [[acc1 err] w1]. simpl in H.
    destruct err as [e|].
    { destruct e; exact H. }
    destruct (readable perm).
    + generalize dependent acc1.
      generalize ({| root := root w1; trace := trace w1 ++ [SysReadDir path] |}).
      induction IH as [|[name child] entries Hchild _ IHentries];
        intros w2 acc1 Hacc1; [exact Hacc1|].
      simpl in Hchild.
      pose proof (Hchild (filepath.Join [path; name]) (info_of name child)
                         acc1 w2 Hacc1) as Hc.
      destruct (walkDir fn (filepath.Join [path; name]) (info_of name child)
                        child acc1 w2) as [[acc' err1] w'].
      simpl in Hc. destruct err1 as [e|]; [destruct e; exact Hc|].
      apply IHentries. exact Hc.
    + match goal with
      | |- context [fn acc1 path (Some d) (Some ?e) ?w2] =>
        pose proof (fn_keeps acc1 path (Some d) (Some e) w2 H) as H2;
        destruct (fn acc1 path (Some d) (Some e) w2) as [[acc2 err2] w3]
      end.
      simpl in H2. destruct err2 as [e|]; [destruct e|]; exact H2.
Qed.

Lemma WalkDir_keeps root acc w :
  P acc -> P (fst (fst (WalkDir fn root acc w))).
Proof.
  intros Hacc. unfold WalkDir. simpl.
  destruct (lookup (segments root) (os.root w)) as [e|n].
  - match goal with
    | |- context [fn acc root None (Some ?e) ?w1] =>
      pose proof (fn_keeps acc root None (Some e) w1 Hacc) as H;
      destruct (fn acc root None (Some e) w1) as [[acc' err] w']
    end.
    simpl in H. destruct err as [e'|]; [destruct e'|]; exact H.
  - match goal with
    | |- context [walkDir fn root ?d n acc ?w1] =>
      pose proof (walkDir_keeps n root d acc w1 Hacc) as H;
      destruct (walkDir fn root d n acc w1) as [[acc' err] w']
    end.
    simpl in H. destruct err as [e'|]; [destruct e'|]; exact H.
Qed.

End WalkInvariant.

Lemma ProcessFile_FilePath fp path dryRun w :
  FilePath (fst (fst (ProcessFile fp path dryRun w))) = path.
Proof.
  destruct (read_file path (root w)) as [e|content] eqn:Hr.
  - now rewrite (ProcessFile_unreadable fp path dryRun w e Hr).
  - destruct (decide (FindEmojis (fpDetector fp) content = [])) as [Hnone|Hsome].
    { now rewrite (ProcessFile_no_emoji fp path dryRun w content Hr Hnone). }
    destruct dryRun.
    { now rewrite (ProcessFile_preview fp path w content Hr Hsome). }
    rewrite (ProcessFile_rewrite fp path w content Hr Hsome).
    destruct (write_file _ _ _ _); [|destruct (chmod _ _ _)]; reflexivity.
Qed.

(** The test of [ProcessDirectory] does what it tests: no file is reported
    under a name that has [/.git/], [/.svn/] or [/.hg/] in it. *)
Lemma visit_keeps Match fp dryRun results path d err w :
  Forall (fun res => has_inner_vcs (FilePath res) = false) results ->
  Forall (fun res => has_inner_vcs (FilePath res) = false)
         (fst (fst (visit Match fp dryRun results path d err w))).
Proof.
  intros Hres. unfold visit.
  destruct err as [e|]; [exact Hres|]. destruct d as [d|]; [|exact Hres].
  destruct (isExcluded Match fp path); [destruct (IsDir d); exact Hres|].
  destruct (IsDir d); [exact Hres|].
  fold (has_inner_vcs path).
  destruct (has_inner_vcs path) eqn:Hvcs; [exact Hres|].
  unfold mbind, OS_bind.
  destruct (shouldSkipFile path w) as [[|] w1]; [exact Hres|].
  pose proof (ProcessFile_FilePath fp path dryRun w1) as Hp.
  destruct (ProcessFile fp path dryRun w1) as [[result perr] w2]. simpl in Hp.
  destruct perr as [e|]; [exact Hres|].
  destruct (0 <? length (EmojisFound result))%nat; [|exact Hres].
  simpl. apply Forall_app. split; [exact Hres|].
  constructor; [|constructor]. now rewrite Hp.
Qed.

Lemma ProcessDirectory_skips_inner_vcs Match fp root dryRun w :
  Forall (fun res => has_inner_vcs (FilePath res) = false)
         (fst (fst (ProcessDirectory Match fp root dryRun w))).
Proof.
  unfold ProcessDirectory. apply WalkDir_keeps; [|constructor].
  intros acc path d err w'. apply visit_keeps.
Qed.



Lemma count_occ_filter_kept (p : Z -> bool) (l : list Z) (x : Z) :
  p x = true ->
  count_occ Z.eq_dec (List.filter p l) x = count_occ Z.eq_dec l x.
Proof.
  intros Hp. induction l as [|y l IH]; [reflexivity|]. simpl.
  destruct (Z.eq_dec y x) as [->|Hne].
  - rewrite Hp. simpl. destruct (Z.eq_dec x x); [now rewrite IH|contradiction].
  - destruct (p y); simpl; [destruct (Z.eq_dec y x); [contradiction|]|]; exact IH.
Qed.

Lemma filter_nonqualifying_valid d t :
  Forall (fun r => utf8.ValidRune r = true)
         (List.filter (fun r => negb (qualifies d r)) (runes t)).
Proof. apply Forall_filter_valid, runes_valid. Qed.

Lemma RemoveEmojis_filter allowed t :
  ValidString t \/ allowed <> [] ->
  let d := NewDetectorWithAllowed allowed in
  RemoveEmojis d t
  = string_of_runes (List.filter (fun r => negb (qualifies d r)) (runes t)).
Proof.
  intros Hdom d. unfold RemoveEmojis. subst d. rewrite detector_size.
  destruct allowed as [|a l]; cbn [length Nat.eqb negb].
  - destruct Hdom as [Ht|Hne]; [|contradiction].
    rewrite (RemoveEmojis_fast_filter [] t Ht). f_equal.
    apply filter_ext. intros r.
    change (NewDetectorWithAllowed []) with NewDetector.
    now rewrite qualifies_nothing_allowed.
  - apply RemoveEmojis_selective_filter.
Qed.

Lemma runes_RemoveEmojis allowed t :
  ValidString t \/ allowed <> [] ->
  let d := NewDetectorWithAllowed allowed in
  runes (RemoveEmojis d t)
  = List.filter (fun r => negb (qualifies d r)) (runes t).
Proof.
  intros Hdom d. unfold d. rewrite RemoveEmojis_filter by exact Hdom.
  apply runes_of_runes, filter_nonqualifying_valid.
Qed.


(** ** The claims on the detector *)

(** C1.  Preservation, for a text that is well-formed UTF-8: the code
    points of [RemoveEmojis(t)] are those of [t] that do not qualify, in the
    order they have in [t]; none is lost, so their number is unchanged; the
    qualifying ones are deleted; and the result is the encoding of the code
    points kept, with nothing put in their place. *)
Theorem RemoveEmojis_preserves_non_qualifying (allowed : list string) (t : string) :
  ValidString t ->
  let d := NewDetectorWithAllowed allowed in
  let kept := fun r => negb (qualifies d r) in
  runes (RemoveEmojis d t) = List.filter kept (runes t) /\
  length (List.filter kept (runes (RemoveEmojis d t)))
  = length (List.filter kept (runes t)) /\
  RemoveEmojis d t = string_of_runes (List.filter kept (runes t)).
Proof.
  intros Ht d kept.
  pose proof (RemoveEmojis_filter allowed t (or_introl Ht)) as Hf. simpl in Hf.
  fold d in Hf. fold kept in Hf.
  assert (Hr : runes (RemoveEmojis d t) = List.filter kept (runes t))
    by apply (runes_RemoveEmojis allowed t (or_introl Ht)).
  split; [exact Hr|]. split; [|exact Hf].
  rewrite Hr, filter_filter. f_equal. apply filter_ext. intros r.
  apply andb_diag.
Qed.

Lemma RemoveEmojis_preserves_witness :
  ValidString "Go ✅ now 🚀" /\
  runes (RemoveEmojis (NewDetectorWithAllowed ["✅"%string]) "Go ✅ now 🚀")
  = List.filter (fun r => negb (qualifies (NewDetectorWithAllowed ["✅"%string]) r))
                (runes "Go ✅ now 🚀").
Proof.
  split; [reflexivity|].
  apply (RemoveEmojis_preserves_non_qualifying ["✅"%string] "Go ✅ now 🚀").
  reflexivity.
Defined.

(** C1 as stated, for every text: it fails on [ill_formed_1] with nothing
    allowed.  The runes of that text are U+FFFD, U+1F600, U+FFFD, U+FFFD;
    the result is empty, so the three that do not qualify are lost. *)
Lemma RemoveEmojis_ill_formed_counterexample :
  let kept := fun r => negb (qualifies NewDetector r) in
  runes ill_formed_1 = [0xFFFD; 0x1F600; 0xFFFD; 0xFFFD] /\
  RemoveEmojis NewDetector ill_formed_1 = EmptyString /\
  runes (RemoveEmojis NewDetector ill_formed_1)
  <> List.filter kept (runes ill_formed_1) /\
  length (List.filter kept (runes (RemoveEmojis NewDetector ill_formed_1)))
  <> length (List.filter kept (runes ill_formed_1)).
Proof. vm_compute. repeat split; discriminate. Qed.

(** C2.  Idempotence, for a text that is well-formed UTF-8 and for every
    byte string when the allow set is not empty:
    [RemoveEmojis(RemoveEmojis(x)) == RemoveEmojis(x)]. *)
Theorem RemoveEmojis_idempotent (allowed : list string) (x : string) :
  ValidString x \/ allowed <> [] ->
  let d := NewDetectorWithAllowed allowed in
  RemoveEmojis d (RemoveEmojis d x) = RemoveEmojis d x.
Proof.
  intros Hdom d.
  pose proof (RemoveEmojis_filter allowed x Hdom) as Hf. simpl in Hf. fold d in Hf.
  assert (Hv : ValidString (RemoveEmojis d x)).
  { rewrite Hf. apply ValidString_of_runes, filter_nonqualifying_valid. }
  pose proof (RemoveEmojis_filter allowed (RemoveEmojis d x) (or_introl Hv)) as Hf2.
  simpl in Hf2. fold d in Hf2. rewrite Hf2.
  rewrite Hf at 1. rewrite runes_of_runes by apply filter_nonqualifying_valid.
  rewrite Hf, filter_filter. f_equal. apply filter_ext. intros r. apply andb_diag.
Qed.

Lemma RemoveEmojis_idempotent_witness :
  ValidString "Hi 😊 there ☀" /\
  RemoveEmojis NewDetector (RemoveEmojis NewDetector "Hi 😊 there ☀")
  = RemoveEmojis NewDetector "Hi 😊 there ☀".
Proof.
  split; [reflexivity|].
  apply (RemoveEmojis_idempotent [] "Hi 😊 there ☀"). left. reflexivity.
Defined.

(** C2 as stated, for every text: it fails on [ill_formed_2] with nothing
    allowed.  The first call returns the encoding of U+1FA70, which is in a
    range of the pattern; the second call returns the empty string. *)
Lemma RemoveEmojis_not_idempotent_ill_formed :
  runes (RemoveEmojis NewDetector ill_formed_2) = [0x1FA70] /\
  RemoveEmojis NewDetector (RemoveEmojis NewDetector ill_formed_2) = EmptyString /\
  RemoveEmojis NewDetector (RemoveEmojis NewDetector ill_formed_2)
  <> RemoveEmojis NewDetector ill_formed_2.
Proof. vm_compute. repeat split; discriminate. Qed.

(** C9.  With an empty allow set, the branch of the pattern substitution
    and the branch that goes rune by rune return the same string, for every
    text that is well-formed UTF-8. *)
Theorem RemoveEmojis_fast_is_selective (t : string) :
  ValidString t ->
  RemoveEmojis NewDetector t = RemoveEmojis_fast NewDetector t /\
  RemoveEmojis_fast NewDetector t = RemoveEmojis_selective NewDetector t.
Proof.
  intros Ht. split; [reflexivity|].
  change NewDetector with (NewDetectorWithAllowed []).
  rewrite (RemoveEmojis_fast_filter [] t Ht).
  rewrite (RemoveEmojis_selective_filter [] t). f_equal.
  apply filter_ext. intros r.
  change (NewDetectorWithAllowed []) with NewDetector.
  now rewrite qualifies_nothing_allowed.
Qed.

Lemma RemoveEmojis_fast_is_selective_witness :
  ValidString "Hi 😊 there ☀" /\
  RemoveEmojis_fast NewDetector "Hi 😊 there ☀"
  = RemoveEmojis_selective NewDetector "Hi 😊 there ☀".
Proof.
  split; [reflexivity|].
  apply (proj2 (RemoveEmojis_fast_is_selective "Hi 😊 there ☀" eq_refl)).
Defined.

(** C9 as stated, for every text: the two branches differ on
    [ill_formed_1], where the substitution returns the empty string and the
    rune-by-rune branch three U+FFFD. *)
Lemma RemoveEmojis_branches_differ_ill_formed :
  RemoveEmojis_fast NewDetector ill_formed_1 = EmptyString /\
  runes (RemoveEmojis_selective NewDetector ill_formed_1)
  = [0xFFFD; 0xFFFD; 0xFFFD] /\
  RemoveEmojis_fast NewDetector ill_formed_1
  <> RemoveEmojis_selective NewDetector ill_formed_1.
Proof. vm_compute. repeat split; discriminate. Qed.

(** C3.  Allow-list exemption: for a code point [e] whose one-character
    string is in the allow set, [RemoveEmojis(t)] has as many occurrences of
    [e] as [t], whatever range [e] lies in, and [FindEmojis(t)] does not
    report it. *)
Theorem allowed_emoji_is_exempt (allowed : list string) (t : string) (e : Z) :
  In (utf8.EncodeRune e) allowed ->
  let d := NewDetectorWithAllowed allowed in
  count_occ Z.eq_dec (runes (RemoveEmojis d t)) e = count_occ Z.eq_dec (runes t) e /\
  ~ In (utf8.EncodeRune e) (FindEmojis d t).
Proof.
  intros He d.
  assert (Hne : allowed <> []) by (intros ->; contradiction).
  assert (Ha : index (allowedEmojis d) (utf8.EncodeRune e) = true)
    by now apply detector_allows.
  split.
  - pose proof (runes_RemoveEmojis allowed t (or_intror Hne)) as Hr.
    simpl in Hr. fold d in Hr. rewrite Hr.
    apply count_occ_filter_kept. unfold qualifies. rewrite Ha.
    now rewrite andb_false_r.
  - unfold d. rewrite FindEmojis_first_occurrences. fold d.
    rewrite first_occurrences_In, in_map_iff.
    intros (r & Henc & Hr). apply filter_In in Hr. destruct Hr as [_ Hq].
    unfold qualifies in Hq. rewrite Henc, Ha in Hq.
    now rewrite andb_false_r in Hq.
Qed.

Lemma allowed_emoji_is_exempt_witness :
  In (utf8.EncodeRune 0x2705) ["✅"%string] /\
  count_occ Z.eq_dec
    (runes (RemoveEmojis (NewDetectorWithAllowed ["✅"%string]) "Go ✅ now 🚀"))
    0x2705
  = count_occ Z.eq_dec (runes "Go ✅ now 🚀") 0x2705.
Proof.
  split; [left; reflexivity|].
  apply (allowed_emoji_is_exempt ["✅"%string] "Go ✅ now 🚀" 0x2705).
  left. reflexivity.
Defined.

(** C4.  [FindEmojis(t)] is the sequence of the distinct qualifying
    one-code-point strings of [t], each at the place of its first
    occurrence: it has no duplicates, it holds exactly the strings of the
    qualifying code points of [t], it is empty when [t] has none, in
    particular for the empty text.  [FindEmojis] is a total function: there
    is no input on which it fails. *)
Theorem FindEmojis_distinct_in_order_of_first_occurrence
    (allowed : list string) (t : string) :
  let d := NewDetectorWithAllowed allowed in
  FindEmojis d t
  = first_occurrences (map utf8.EncodeRune (List.filter (qualifies d) (runes t))) /\
  List.NoDup (FindEmojis d t) /\
  (forall g, In g (FindEmojis d t) <->
             exists r, In r (runes t) /\ qualifies d r = true /\ g = utf8.EncodeRune r) /\
  (List.filter (qualifies d) (runes t) = [] -> FindEmojis d t = []) /\
  FindEmojis d EmptyString = [].
Proof.
  intros d.
  assert (Hf : forall s, FindEmojis d s
     = first_occurrences (map utf8.EncodeRune (List.filter (qualifies d) (runes s))))
    by (intros s; apply FindEmojis_first_occurrences).
  split; [apply Hf|]. split; [rewrite Hf; apply first_occurrences_NoDup|].
  split; [|split].
  - intros g. rewrite Hf, first_occurrences_In, in_map_iff. split.
    + intros (r & <- & Hr). apply filter_In in Hr. exists r. tauto.
    + intros (r & Hr & Hq & ->). exists r. split; [reflexivity|].
      apply filter_In. tauto.
  - intros Hnone. now rewrite Hf, Hnone.
  - rewrite Hf. reflexivity.
Qed.

(** ** The examples of the specification and of the tests *)

Example FindEmojis_twice :
  FindEmojis NewDetector "😊 world 😊 again"%string = ["😊"%string].
Proof. reflexivity. Qed.

Example FindEmojis_two :
  FindEmojis NewDetector "😊 world 🚀"%string = ["😊"%string; "🚀"%string].
Proof. reflexivity. Qed.

Example scenario_3 :
  let d := NewDetectorWithAllowed ["✅"%string] in
  FindEmojis d "Go ✅ now 🚀"%string = ["🚀"%string] /\
  RemoveEmojis d "Go ✅ now 🚀"%string = "Go ✅ now "%string.
Proof. split; reflexivity. Qed.

(** A cleaned text has no emoji left to find. *)
Lemma RemoveEmojis_leaves_no_emoji (allowed : list string) (t : string) :
  ValidString t \/ allowed <> [] ->
  let d := NewDetectorWithAllowed allowed in
  FindEmojis d (RemoveEmojis d t) = [].
Proof.
  intros Hdom d. unfold d.
  rewrite FindEmojis_first_occurrences, runes_RemoveEmojis by exact Hdom.
  rewrite filter_filter.
  rewrite (filter_ext _ (fun _ => false)) by (intros r; apply andb_negb_l).
  now rewrite filter_false.
Qed.

Example whitespace_and_emojis :
  RemoveEmojis NewDetector "   😊   🚀   " = "         ".
Proof. reflexivity. Qed.

Example multiline :
  RemoveEmojis NewDetector
    ("Line 1 😊" +:+ newline +:+ "Line 2 🚀" +:+ newline +:+ "Line 3 plain text")
  = "Line 1 " +:+ newline +:+ "Line 2 " +:+ newline +:+ "Line 3 plain text".
Proof. reflexivity. Qed.

(** ** The claim on the exclusion patterns *)

(** C6.  With path and pattern normalized by [filepath.Clean],
    [matchExclude] holds exactly when: the two are equal; or the pattern is
    absolute and the path equals it or starts with it followed by a
    separator; or the pattern is relative and some segment of the path
    equals it, or the path ends with a separator followed by the pattern,
    or the base name of the path equals it, or the pattern has a [*] or a
    [?] and the glob matcher accepts the path or its base name.  A path is
    excluded when some pattern of the list matches. *)
Theorem exclusion_matching (Match : GlobMatcher) (fp : FileProcessor)
    (path pattern : string) :
  (matchExclude Match path pattern = true
   <-> matches_in_code Match (filepath.Clean path) (filepath.Clean pattern)) /\
  (isExcluded Match fp path = true
   <-> exists exclude, In exclude (excludes fp) /\
                       matchExclude Match path exclude = true).
Proof.
  split; [apply matchExclude_spec|].
  unfold isExcluded. apply existsb_exists.
Qed.

(** C6 as stated, without the rule of the suffix: the relative pattern
    [src/foo.txt] matches the path [a/src/foo.txt], both normalized, though
    the two differ, no segment and no base name of the path equals the
    pattern, and the pattern has no metacharacter. *)
Lemma relative_suffix_counterexample :
  filepath.Clean "a/src/foo.txt" = "a/src/foo.txt" /\
  filepath.Clean "src/foo.txt" = "src/foo.txt" /\
  matchExclude no_glob "a/src/foo.txt" "src/foo.txt" = true /\
  ~ matches_by_rules no_glob "a/src/foo.txt" "src/foo.txt".
Proof.
  split; [reflexivity|]. split; [reflexivity|]. split; [reflexivity|].
  unfold matches_by_rules.
  intros [H|[[H _]|[_ [H|[H|[_ [H|H]]]]]]]; try discriminate.
  - apply IsAbs_spec in H. discriminate.
  - simpl in H. intuition discriminate.
Qed.

(** ** The table of the unit test of [isExcluded] *)

Example isExcluded_by_names (Match : GlobMatcher) :
  isExcluded Match (NewFileProcessorWithExcludes ["node_modules"])
    "/project/node_modules/file.js" = true /\
  isExcluded Match (NewFileProcessorWithExcludes ["node_modules"])
    "/project/src/file.js" = false /\
  isExcluded Match (NewFileProcessorWithExcludes ["config.json"])
    "/project/config.json" = true /\
  isExcluded Match (NewFileProcessorWithExcludes ["config.json"])
    "/project/src/config.json" = true /\
  isExcluded Match (NewFileProcessorWithExcludes ["/home/user/project/build"])
    "/home/user/project/build" = true /\
  isExcluded Match (NewFileProcessorWithExcludes ["/home/user/project/build"])
    "/home/user/project/build/output.txt" = true /\
  isExcluded Match (NewFileProcessorWithExcludes ["node_modules"; "vendor"])
    "/project/vendor/lib.go" = true /\
  isExcluded Match (NewFileProcessorWithExcludes ["node_modules"; "vendor"])
    "/project/src/main.go" = false.
Proof. repeat split; vm_compute; reflexivity. Qed.

(** A pattern with a metacharacter is tried on the whole path, then on the
    base name. *)
Lemma isExcluded_by_glob (Match : GlobMatcher) :
  Match "*.test.js" "app.test.js" = Some true ->
  isExcluded Match (NewFileProcessorWithExcludes ["*.test.js"])
    "/project/app.test.js" = true.
Proof.
  intros Hm. unfold isExcluded, NewFileProcessorWithExcludes. cbn [excludes existsb].
  rewrite orb_false_r. apply matchExclude_spec.
  replace (filepath.Clean "/project/app.test.js") with "/project/app.test.js"
    by reflexivity.
  replace (filepath.Clean "*.test.js") with "*.test.js" by reflexivity.
  right. right. split.
  - intros H. apply IsAbs_spec in H. discriminate.
  - right. right. right. split.
    + left. apply Contains_spec. reflexivity.
    + right. exact Hm.
Qed.

(** ** The claims on the processor *)

(** C10.  When the initial read fails, [ProcessFile] returns an error and a
    result in which only [FilePath] is set; the read is the only call it
    makes, so that nothing is written, no permission is changed, and the
    file system is as it was. *)
Theorem ProcessFile_read_error (fp : FileProcessor) (path : string)
    (dryRun : bool) (w : world) (e : Errno) :
  read_file path (root w) = inl e ->
  let out := ProcessFile fp path dryRun w in
  fst (fst out)
  = {| FilePath := path; EmojisFound := []; OriginalSize := 0;
       NewSize := 0; Modified := false |} /\
  snd (fst out) = Some (Errorf "failed to read file" (PathError "open" path e)) /\
  trace (snd out) = trace w ++ [SysReadFile path] /\
  root (snd out) = root w.
Proof.
  intros Hr out. subst out.
  rewrite (ProcessFile_unreadable fp path dryRun w e Hr). auto.
Qed.

Lemma ProcessFile_read_error_witness :
  read_file "missing.txt" (root scenario_world) = inl ENOENT /\
  root (snd (ProcessFile NewFileProcessor "missing.txt" false scenario_world))
  = root scenario_world.
Proof.
  split; [reflexivity|].
  apply (ProcessFile_read_error NewFileProcessor "missing.txt" false
           scenario_world ENOENT).
  reflexivity.
Defined.

(** C7.  On a file it could read, [ProcessFile] calls [WriteFile] or
    [Chmod] if and only if [dryRun] is false and [FindEmojis] on the content
    is not empty, and the first such call writes the cleaned bytes with mode
    0600; in preview, and when no emoji is found, the file tree after the
    call is the file tree before it; and when the rewriting goes through,
    that is when [dryRun] is false, an emoji is found and the call returns
    no error, so that the write and the change of mode have both succeeded,
    the file holds the cleaned bytes with the permission bits 0600,
    whatever they were before. *)
Theorem ProcessFile_writes (fp : FileProcessor) (path : string)
    (dryRun : bool) (w : world) (content : string) :
  read_file path (root w) = inr content ->
  let d := fpDetector fp in
  let w' := snd (ProcessFile fp path dryRun w) in
  let err := snd (fst (ProcessFile fp path dryRun w)) in
  (exists calls,
      trace w' = trace w ++ SysReadFile path :: calls /\
      (existsb is_write calls = true
       <-> dryRun = false /\ FindEmojis d content <> []) /\
      (dryRun = false -> FindEmojis d content <> [] ->
       exists rest, calls = SysWriteFile path (RemoveEmojis d content) perm0600 :: rest)) /\
  (dryRun = true \/ FindEmojis d content = [] -> root w' = root w) /\
  (dryRun = false -> FindEmojis d content <> [] -> err = None ->
   lookup (segments path) (root w')
   = inr (File Regular perm0600 (RemoveEmojis d content))).
Proof.
  intros Hread d w' err. subst w' err.
  destruct (decide (FindEmojis d content = [])) as [Hnone|Hsome].
  { rewrite (ProcessFile_no_emoji fp path dryRun w content Hread Hnone).
    cbn [fst snd root trace]. split; [|split].
    - exists []. split; [reflexivity|]. split; [|tauto].
      simpl. split; [discriminate|tauto].
    - reflexivity.
    - tauto. }
  destruct dryRun.
  { rewrite (ProcessFile_preview fp path w content Hread Hsome).
    cbn [fst snd root trace]. split; [|split].
    - exists []. split; [reflexivity|]. split; [|discriminate].
      simpl. split; intros H; [discriminate|destruct H; discriminate].
    - reflexivity.
    - discriminate. }
  rewrite (ProcessFile_rewrite fp path w content Hread Hsome). fold d.
  set (cleaned := RemoveEmojis d content).
  assert (Hcalls : forall (A : Type) (x : A) r calls,
    let w' := snd (x, {| root := r;
                         trace := (trace w ++ [SysReadFile path; SysWriteFile path cleaned perm0600])
                                  ++ calls |}) in
    exists calls',
      trace w' = trace w ++ SysReadFile path :: calls' /\
      (existsb is_write calls' = true <-> false = false /\ FindEmojis d content <> []) /\
      (false = false -> FindEmojis d content <> [] ->
       exists rest, calls' = SysWriteFile path cleaned perm0600 :: rest)).
  { intros A x r calls. cbn [snd trace].
    exists (SysWriteFile path cleaned perm0600 :: calls). split.
    - rewrite <- app_assoc. reflexivity.
    - split; [|eauto]. simpl. tauto. }
  destruct (write_file path cleaned perm0600 (root w)) as [e1|r1] eqn:Hw.
  { split; [|split].
    - specialize (Hcalls _ (modified d path content,
        Some (Errorf "failed to write cleaned file" (PathError "open" path e1)))
        (root w) []). rewrite app_nil_r in Hcalls. exact Hcalls.
    - intros [H|H]; congruence.
    - discriminate. }
  destruct (chmod path perm0600 r1) as [e2|r2] eqn:Hc.
  { split; [|split].
    - apply Hcalls.
    - intros [H|H]; congruence.
    - discriminate. }
  split; [|split].
  - apply Hcalls.
  - intros [H|H]; congruence.
  - intros _ _ _. cbn [snd root].
    destruct (read_file_inv path (root w) content Hread) as (perm & Hl & _).
    exact (lookup_after_rewrite path (root w) perm content cleaned r1 r2 Hl Hw Hc).
Qed.

Lemma ProcessFile_writes_witness :
  read_file "a.txt" (root scenario_world) = inr "Hi 😊" /\
  snd (fst (ProcessFile NewFileProcessor "a.txt" false scenario_world)) = None /\
  lookup (segments "a.txt")
    (root (snd (ProcessFile NewFileProcessor "a.txt" false scenario_world)))
  = inr (File Regular perm0600 "Hi ").
Proof.
  split; [reflexivity|]. split; [reflexivity|].
  destruct (ProcessFile_writes NewFileProcessor "a.txt" false scenario_world
              "Hi 😊" eq_refl) as (_ & _ & H).
  apply H; [reflexivity|discriminate|reflexivity].
Defined.

(** C8.  Every [ProcessResult], of [ProcessFile] on a file and of
    [processContentFromStdin] on piped content, in preview or not: [Modified]
    is false exactly when [EmojisFound] is empty, and when [EmojisFound] is
    not empty [Modified] is true and [NewSize] is the length in bytes of the
    cleaned text. *)
Theorem every_ProcessResult_is_consistent (fp : FileProcessor) (path : string)
    (dryRun : bool) (w : world) (lines : list string) (scanErr : option error) :
  let d := fpDetector fp in
  result_invariant d
    (match read_file path (root w) with inr content => Some content | inl _ => None end)
    (fst (fst (ProcessFile fp path dryRun w))) /\
  (forall res,
      In res (fst (fst (processContentFromStdin fp dryRun lines scanErr w))) ->
      result_invariant d (Some (stdin_text lines)) res).
Proof.
  intros d. split.
  - destruct (read_file path (root w)) as [e|content] eqn:Hr.
    + rewrite (ProcessFile_unreadable fp path dryRun w e Hr).
      split; [tauto|]. simpl. congruence.
    + destruct (decide (FindEmojis d content = [])) as [Hnone|Hsome].
      { rewrite (ProcessFile_no_emoji fp path dryRun w content Hr Hnone).
        apply unmodified_invariant. }
      destruct dryRun.
      { rewrite (ProcessFile_preview fp path w content Hr Hsome).
        now apply modified_invariant. }
      rewrite (ProcessFile_rewrite fp path w content Hr Hsome).
      destruct (write_file _ _ _ _); [|destruct (chmod _ _ _)];
        now apply modified_invariant.
  - unfold processContentFromStdin. fold (stdin_text lines). fold d.
    destruct scanErr as [e|]; [intros res []|].
    destruct (String.eqb _ ""); [intros res []|].
    destruct (FindEmojis d (stdin_text lines)) as [|g emojis] eqn:Hf;
      [intros res []|].
    cbn [length Nat.eqb Nat.ltb Nat.leb].
    assert (Hres : result_invariant d (Some (stdin_text lines))
              {| FilePath := "<stdin>"; EmojisFound := g :: emojis;
                 OriginalSize := len64 (stdin_text lines);
                 NewSize := len64 (RemoveEmojis d (stdin_text lines));
                 Modified := true |}).
    { split; simpl; [split; discriminate|].
      intros _. split; [reflexivity|]. now eexists. }
    destruct dryRun; cbn [negb]; intros res [<-|[]]; exact Hres.
Qed.

(** C5.  The walk from the root [.] hands [.git/objects/ab/xyz] to the
    function of [ProcessDirectory] under that name, which has a segment
    [.git] but no [/.git/] in it: the git object is processed and reported,
    and rewritten when [dryRun] is false.  From the root [/] the same file
    has the name [/.git/objects/ab/xyz] and is skipped. *)
Theorem ProcessDirectory_from_dot_reports_git_object (Match : GlobMatcher) :
  let results := fst (fst (ProcessDirectory Match NewFileProcessor "." true git_world)) in
  results
  = [ {| FilePath := ".git/objects/ab/xyz"; EmojisFound := ["😊"];
         OriginalSize := 9; NewSize := 5; Modified := true |} ] /\
  existsb (fun res => has_vcs_segment (FilePath res)) results = true /\
  read_file ".git/objects/ab/xyz"
    (root (snd (ProcessDirectory Match NewFileProcessor "." false git_world)))
  = inr "blob " /\
  fst (ProcessDirectory Match NewFileProcessor "/" true git_world) = ([], None).
Proof. repeat split; vm_compute; reflexivity. Qed.

(** ** The end-to-end scenarios of the specification *)

(** Scenario 1: a preview reports [a.txt] and leaves the files as they
    are. *)
Example scenario_1 (Match : GlobMatcher) :
  ProcessDirectory Match NewFileProcessor "/" true scenario_world
  = (([ {| FilePath := "/a.txt"; EmojisFound := ["😊"];
           OriginalSize := 7; NewSize := 3; Modified := true |} ], None),
     {| root := scenario_tree;
        trace := [ SysLstat "/"; SysReadDir "/";
                   SysStat "/a.txt"; SysReadFile "/a.txt";
                   SysStat "/b.txt"; SysReadFile "/b.txt" ] |}).
Proof. vm_compute. reflexivity. Qed.

(** Scenario 2: without preview [a.txt] is rewritten, with mode 0600, and
    [b.txt] is not touched. *)
Example scenario_2 (Match : GlobMatcher) :
  root (snd (ProcessDirectory Match NewFileProcessor "/" false scenario_world))
  = Dir 0x1ED
      [ ("a.txt", File Regular perm0600 "Hi ");
        ("b.txt", File Regular 0x1A4 "clean") ].
Proof. vm_compute. reflexivity. Qed.

(** Excluding [node_modules] prunes the directory: the walk does not read
    it, and the file in the sibling directory is reported. *)
Example exclusion_prunes (Match : GlobMatcher) :
  ProcessDirectory Match (NewFileProcessorWithExcludes ["node_modules"]) "/"
    true project_world
  = (([ {| FilePath := "/src/main.js"; EmojisFound := ["😊"];
           OriginalSize := 8; NewSize := 4; Modified := true |} ], None),
     {| root := project_tree;
        trace := [ SysLstat "/"; SysReadDir "/"; SysReadDir "/src";
                   SysStat "/src/main.js"; SysReadFile "/src/main.js" ] |}).
Proof. vm_compute. reflexivity. Qed.

(** The extensions that are skipped, and some that are not. *)
Example deny_by_extension :
  forallb (fun name => index skipExtensions (filepath.Ext name))
    [ "a.exe"; "a.bin"; "a.so"; "a.dll"; "a.jpg"; "a.jpeg"; "a.png"; "a.gif";
      "a.bmp"; "a.mp3"; "a.mp4"; "a.avi"; "a.mov"; "a.zip"; "a.tar"; "a.gz";
      "a.7z"; "a.pdf"; "a.sock"; "dir/archive.tar.gz" ] = true /\
  existsb (fun name => index skipExtensions (filepath.Ext name))
    [ "a.txt"; "a.md"; "a.json"; "a.go"; "README"; ".gitignore"; "a.EXE";
      "dir.zip/notes" ] = false.
Proof. split; vm_compute; reflexivity. Qed.

(** * Further properties of the code *)

(** ** The detector, on every byte string *)

Lemma string_of_runes_app (l1 l2 : list Z) :
  string_of_runes (l1 ++ l2) = string_of_runes l1 +:+ string_of_runes l2.
Proof.
  unfold string_of_runes. induction l1 as [|r l1 IH]; [reflexivity|].
  simpl. now rewrite IH, append_assoc.
Qed.

Lemma RemoveEmojis_selective_kept d t :
  RemoveEmojis_selective d t
  = string_of_runes (List.filter (kept_selective d) (runes t)).
Proof.
  unfold RemoveEmojis_selective. f_equal.
  rewrite <- (app_nil_l (List.filter _ _)), <- fold_left_snoc.
  apply fold_left_ext_in. intros acc r _. unfold kept_selective.
  destruct (isEmoji r || regexp.MatchString (emojiRegex d) (utf8.EncodeRune r));
    [destruct (index (allowedEmojis d) (utf8.EncodeRune r))|]; reflexivity.
Qed.

Lemma RemoveEmojis_fast_kept d t :
  RemoveEmojis_fast d t
  = string_of_runes
      (List.filter (fun r => negb (isEmoji r))
         (runes (regexp.ReplaceAllString (emojiRegex d) t EmptyString))).
Proof.
  unfold RemoveEmojis_fast. f_equal.
  now rewrite fold_left_snoc.
Qed.

(** X1.  Whatever the bytes of the input, well-formed or not, and whatever
    the pattern and the allow set of the detector, the text [RemoveEmojis]
    returns is well-formed UTF-8: it is the encoding of the runes it decodes
    to. *)
Theorem RemoveEmojis_is_well_formed (d : Detector) (t : string) :
  ValidString (RemoveEmojis d t).
Proof.
  unfold RemoveEmojis.
  destruct (0 <? size (allowedEmojis d))%nat.
  - rewrite RemoveEmojis_selective_kept.
    apply ValidString_of_runes, Forall_filter_valid, runes_valid.
  - rewrite RemoveEmojis_fast_kept.
    apply ValidString_of_runes, Forall_filter_valid, runes_valid.
Qed.

(** *** Concatenation *)

Lemma chunks_app s t :
  ValidString s -> chunks (s +:+ t) = chunks s ++ chunks t.
Proof.
  intros Hs. pose proof Hs as He. unfold ValidString in He. rewrite <- He at 1.
  rewrite chunks_string_of_runes by apply runes_valid.
  now rewrite <- ValidString_chunks.
Qed.

Lemma runes_app s t :
  ValidString s -> runes (s +:+ t) = runes s ++ runes t.
Proof.
  intros Hs. unfold runes. rewrite chunks_app by exact Hs. apply map_app.
Qed.

Lemma concat_bytes_app (l1 l2 : list string) :
  concat_bytes (l1 ++ l2) = concat_bytes l1 +:+ concat_bytes l2.
Proof.
  induction l1 as [|x l1 IH]; [reflexivity|].
  simpl. now rewrite IH, append_assoc.
Qed.

Lemma ValidString_append s t :
  ValidString s -> ValidString t -> ValidString (s +:+ t).
Proof.
  intros Hs Ht. unfold ValidString.
  rewrite runes_app, string_of_runes_app by exact Hs.
  unfold ValidString in Hs, Ht. now rewrite Hs, Ht.
Qed.

(** X2.  [RemoveEmojis] works on each part of a text on its own: when [s]
    is well-formed UTF-8, cleaning [s] followed by [t] gives the cleaned [s]
    followed by the cleaned [t], for every byte string [t] and every
    detector. *)
Theorem RemoveEmojis_of_concatenation (d : Detector) (s t : string) :
  ValidString s ->
  RemoveEmojis d (s +:+ t) = RemoveEmojis d s +:+ RemoveEmojis d t.
Proof.
  intros Hs. unfold RemoveEmojis.
  destruct (0 <? size (allowedEmojis d))%nat.
  - rewrite !RemoveEmojis_selective_kept, runes_app by exact Hs.
    now rewrite List.filter_app, string_of_runes_app.
  - rewrite !RemoveEmojis_fast_kept.
    unfold regexp.ReplaceAllString.
    rewrite chunks_app, map_app, concat_bytes_app by exact Hs.
    fold (regexp.ReplaceAllString (emojiRegex d) s EmptyString).
    fold (regexp.ReplaceAllString (emojiRegex d) t EmptyString).
    rewrite runes_app.
    + now rewrite List.filter_app, string_of_runes_app.
    + rewrite (ReplaceAllString_valid _ s Hs).
      apply ValidString_of_runes, Forall_filter_valid, runes_valid.
Qed.

Lemma RemoveEmojis_of_concatenation_witness :
  ValidString "a😊" /\
  RemoveEmojis NewDetector ("a😊" +:+ "b🚀")
  = RemoveEmojis NewDetector "a😊" +:+ RemoveEmojis NewDetector "b🚀".
Proof.
  split; [reflexivity|].
  apply (RemoveEmojis_of_concatenation NewDetector "a😊" "b🚀"). reflexivity.
Defined.

(** *** What is found and what is removed *)

Lemma filter_none_all {A : Type} (p : A -> bool) (l : list A) :
  List.filter p l = [] <-> List.filter (fun x => negb (p x)) l = l.
Proof.
  induction l as [|x l IH]; [tauto|]. simpl.
  destruct (p x); simpl.
  - split; [discriminate|]. intros H.
    pose proof (List.filter_length_le (fun y => negb (p y)) l) as Hle.
    rewrite H in Hle. simpl in Hle. lia.
  - rewrite IH. split; [now intros ->|]. now intros [= H].
Qed.

Lemma first_occurrences_nil l : first_occurrences l = [] <-> l = [].
Proof. destruct l; simpl; split; intros H; try discriminate H; reflexivity. Qed.

Lemma FindEmojis_none allowed t :
  let d := NewDetectorWithAllowed allowed in
  FindEmojis d t = [] <-> List.filter (qualifies d) (runes t) = [].
Proof.
  intros d. unfold d. rewrite FindEmojis_first_occurrences, first_occurrences_nil.
  split; [apply map_eq_nil|now intros ->].
Qed.

Lemma RemoveEmojis_fixed_iff (allowed : list string) (t : string) :
  ValidString t ->
  let d := NewDetectorWithAllowed allowed in
  RemoveEmojis d t = t <-> FindEmojis d t = [].
Proof.
  intros Ht d. unfold d.
  rewrite FindEmojis_none, filter_none_all.
  rewrite RemoveEmojis_filter by now left. split.
  - intros He. apply (f_equal runes) in He.
    now rewrite runes_of_runes in He by apply filter_nonqualifying_valid.
  - intros ->. exact Ht.
Qed.

(** X3.  For a text that is well-formed UTF-8, [RemoveEmojis] returns the
    text as it is exactly when [FindEmojis] finds nothing in it: a file in
    which nothing is found, and which is therefore not rewritten, is a file
    the rewriting would not have changed. *)
Theorem RemoveEmojis_unchanged_iff_nothing_found (allowed : list string)
    (t : string) :
  ValidString t ->
  let d := NewDetectorWithAllowed allowed in
  RemoveEmojis d t = t <-> FindEmojis d t = [].
Proof. exact (RemoveEmojis_fixed_iff allowed t). Qed.

Lemma RemoveEmojis_unchanged_iff_nothing_found_witness :
  ValidString "plain text" /\
  (RemoveEmojis NewDetector "plain text" = "plain text"
   <-> FindEmojis NewDetector "plain text" = []).
Proof.
  split; [reflexivity|].
  apply (RemoveEmojis_unchanged_iff_nothing_found [] "plain text"). reflexivity.
Defined.

(** *** The length of the cleaned text *)

Lemma encode_length_pos r : (0 < String.length (utf8.EncodeRune r))%nat.
Proof. destruct (encode_nonempty r) as (c & e & ->). simpl. lia. Qed.

Lemma length_string_of_runes_filter (p : Z -> bool) (l : list Z) :
  (String.length (string_of_runes (List.filter p l))
   <= String.length (string_of_runes l))%nat /\
  (List.filter (fun r => negb (p r)) l <> [] ->
   String.length (string_of_runes (List.filter p l))
   < String.length (string_of_runes l))%nat.
Proof.
  induction l as [|r l [IHle IHlt]]; [split; [reflexivity|intros H; now destruct H]|].
  change (string_of_runes (r :: l))
    with (utf8.EncodeRune r +:+ string_of_runes l).
  simpl. pose proof (encode_length_pos r) as Hpos.
  destruct (p r); simpl.
  - change (string_of_runes (r :: List.filter p l))
      with (utf8.EncodeRune r +:+ string_of_runes (List.filter p l)).
    rewrite !length_append. split; [lia|]. intros H. apply IHlt in H. lia.
  - rewrite length_append. split; intros; lia.
Qed.

(** X4.  For a text that is well-formed UTF-8, the cleaned text is never
    longer, in bytes, than the text, and it is shorter whenever [FindEmojis]
    finds something: the [NewSize] of a modified result is below its
    [OriginalSize]. *)
Theorem RemoveEmojis_shortens (allowed : list string) (t : string) :
  ValidString t ->
  let d := NewDetectorWithAllowed allowed in
  (String.length (RemoveEmojis d t) <= String.length t)%nat /\
  (FindEmojis d t <> [] ->
   String.length (RemoveEmojis d t) < String.length t)%nat.
Proof.
  intros Ht d. unfold d.
  rewrite RemoveEmojis_filter by now left.
  pose proof (length_string_of_runes_filter
                (fun r => negb (qualifies (NewDetectorWithAllowed allowed) r))
                (runes t)) as [Hle Hlt].
  unfold ValidString in Ht. rewrite Ht in Hle, Hlt. split; [exact Hle|].
  intros Hfound. apply Hlt. intros Hnone. apply Hfound.
  apply FindEmojis_none. rewrite <- Hnone. apply filter_ext.
  intros r. now rewrite negb_involutive.
Qed.

Lemma RemoveEmojis_shortens_witness :
  ValidString "Hi 😊" /\
  (String.length (RemoveEmojis NewDetector "Hi 😊") <= String.length "Hi 😊")%nat /\
  (FindEmojis NewDetector "Hi 😊" <> [] ->
   String.length (RemoveEmojis NewDetector "Hi 😊") < String.length "Hi 😊")%nat.
Proof.
  split; [reflexivity|].
  apply (RemoveEmojis_shortens [] "Hi 😊"). reflexivity.
Defined.

(** *** The allow set *)

Lemma first_occurrences_filter (p : string -> bool) (l : list string) :
  first_occurrences (List.filter p l) = List.filter p (first_occurrences l).
Proof.
  induction l as [|x l IH]; [reflexivity|]. simpl.
  destruct (p x) eqn:Hx; simpl; rewrite IH, ?Hx, !filter_filter.
  - f_equal. apply filter_ext. intros y. apply andb_comm.
  - apply filter_ext_in. intros y _.
    destruct (String.eqb_spec x y) as [<-|Hne]; [now rewrite Hx|reflexivity].
Qed.

Lemma index_allowed allowed k :
  index (allowedEmojis (NewDetectorWithAllowed allowed)) k = mem k allowed.
Proof.
  unfold NewDetectorWithAllowed. rewrite allowed_fold.
  replace (index (allowedEmojis NewDetector) k) with false by reflexivity.
  apply orb_false_r.
Qed.

Lemma FindEmojis_allowed_filter (allowed : list string) (t : string) :
  FindEmojis (NewDetectorWithAllowed allowed) t
  = List.filter (fun e => negb (mem e allowed)) (FindEmojis NewDetector t).
Proof.
  change NewDetector with (NewDetectorWithAllowed []).
  rewrite !FindEmojis_first_occurrences.
  rewrite <- first_occurrences_filter, filter_map_swap, filter_filter.
  do 2 f_equal. apply filter_ext. intros r. unfold qualifies.
  rewrite !in_emoji_range_pattern, !index_allowed. simpl.
  now rewrite andb_true_r.
Qed.

(** X5.  The allow set only takes away: what a detector with allowed
    emojis finds in a text is what the detector without any finds, in the
    same order, less the allowed ones. *)
Theorem FindEmojis_with_allowed (allowed : list string) (t : string) :
  FindEmojis (NewDetectorWithAllowed allowed) t
  = List.filter (fun e => negb (mem e allowed)) (FindEmojis NewDetector t).
Proof. exact (FindEmojis_allowed_filter allowed t). Qed.

Lemma lookup_fold (allowed : list string) (d0 : Detector) (k : string) :
  allowedEmojis
    (fold_left
       (fun detector emoji =>
          {| emojiRegex := emojiRegex detector;
             allowedEmojis := <[emoji := true]> (allowedEmojis detector) |})
       allowed d0) !! k
  = if mem k allowed then Some true else allowedEmojis d0 !! k.
Proof.
  revert d0. induction allowed as [|a l IH]; intros d0; [reflexivity|].
  simpl. rewrite IH. simpl. fold (mem k l).
  destruct (String.eqb_spec k a) as [->|Hne]; simpl.
  - rewrite lookup_insert_eq. now destruct (mem a l).
  - now rewrite lookup_insert_ne by congruence.
Qed.

(** X6.  [NewDetectorWithAllowed] depends on its list as a set: two lists
    with the same members, in any order and with any repetitions, give the
    same detector. *)
Theorem NewDetectorWithAllowed_same_members (l1 l2 : list string) :
  (forall e, In e l1 <-> In e l2) ->
  NewDetectorWithAllowed l1 = NewDetectorWithAllowed l2.
Proof.
  intros Hsame.
  assert (Hd : forall d1 d2 : Detector,
             emojiRegex d1 = emojiRegex d2 ->
             allowedEmojis d1 = allowedEmojis d2 -> d1 = d2).
  { intros [re1 m1] [re2 m2]. simpl. now intros -> ->. }
  apply Hd; [now rewrite !detector_regex|].
  apply map_eq. intros k. unfold NewDetectorWithAllowed.
  rewrite !lookup_fold.
  assert (Hm : mem k l1 = mem k l2).
  { apply eq_true_iff_eq. rewrite !mem_In. apply Hsame. }
  now rewrite Hm.
Qed.

Lemma NewDetectorWithAllowed_same_members_witness :
  (forall e, In e ["✅"; "🚀"; "✅"] <-> In e ["🚀"; "✅"]) /\
  NewDetectorWithAllowed ["✅"; "🚀"; "✅"] = NewDetectorWithAllowed ["🚀"; "✅"].
Proof.
  assert (H : forall e : string, In e ["✅"; "🚀"; "✅"] <-> In e ["🚀"; "✅"])
    by (intros e; simpl; tauto).
  split; [exact H|].
  apply (NewDetectorWithAllowed_same_members ["✅"; "🚀"; "✅"] ["🚀"; "✅"] H).
Defined.

(** *** The pattern and [isEmoji] *)

Lemma first_loop allowed t :
  let d := NewDetectorWithAllowed allowed in
  fst (fold_left (record_emoji d) (regexp.FindAllString (emojiRegex d) t) ([], ∅))
  = first_occurrences (map utf8.EncodeRune (List.filter (qualifies d) (runes t))).
Proof.
  intros d.
  assert (Hinv0 : seen_inv (([] : list string), (∅ : gmap string bool)))
    by (intros k; reflexivity).
  destruct (record_emoji_fold d (regexp.FindAllString (emojiRegex d) t) _ Hinv0)
    as [_ ->].
  rewrite fold_add_distinct. simpl. rewrite filter_true. f_equal.
  unfold d. rewrite detector_regex, FindAllString_encode.
  rewrite filter_map_swap, filter_filter. f_equal.
  apply filter_ext. intros r. unfold qualifies.
  now rewrite in_emoji_range_pattern.
Qed.

(** X7.  The seven ranges of [isEmoji] lie within the ranges of the
    pattern, so that the loops over [isEmoji] add nothing to the work of the
    pattern: on every byte string [FindEmojis] returns what its first loop,
    over the matches of the pattern, has collected; and on a text that is
    well-formed UTF-8 the faster method of [RemoveEmojis] returns what the
    substitution of the pattern returns. *)
Theorem isEmoji_adds_nothing (allowed : list string) (t : string) :
  let d := NewDetectorWithAllowed allowed in
  (forall r, isEmoji r = true -> regexp.matchRune (emojiRegex d) r = true) /\
  FindEmojis d t
  = fst (fold_left (record_emoji d)
           (regexp.FindAllString (emojiRegex d) t) ([], ∅)) /\
  (ValidString t ->
   RemoveEmojis NewDetector t
   = regexp.ReplaceAllString (emojiRegex NewDetector) t EmptyString).
Proof.
  intros d. split; [|split].
  - intros r. unfold d. rewrite detector_regex. apply isEmoji_in_pattern.
  - unfold d. now rewrite first_loop, FindEmojis_first_occurrences.
  - intros Ht. change NewDetector with (NewDetectorWithAllowed []).
    unfold RemoveEmojis. rewrite detector_size. cbn [length Nat.eqb negb].
    rewrite (RemoveEmojis_fast_filter [] t Ht), detector_regex.
    now rewrite (ReplaceAllString_valid _ t Ht).
Qed.

Lemma isEmoji_adds_nothing_witness :
  ValidString "Hi 😊" /\
  RemoveEmojis NewDetector "Hi 😊"
  = regexp.ReplaceAllString (emojiRegex NewDetector) "Hi 😊" EmptyString.
Proof.
  split; [reflexivity|].
  apply (isEmoji_adds_nothing [] "Hi 😊"). reflexivity.
Defined.

(** *** [FindEmojis] on a concatenation *)

Lemma mem_first_occurrences k l : mem k (first_occurrences l) = mem k l.
Proof.
  apply eq_true_iff_eq. rewrite !mem_In. apply first_occurrences_In.
Qed.

Lemma first_occurrences_app (l1 l2 : list string) :
  first_occurrences (l1 ++ l2)
  = first_occurrences l1
    ++ List.filter (fun k => negb (mem k (first_occurrences l1)))
         (first_occurrences l2).
Proof.
  pose proof (fold_add_distinct (l1 ++ l2) []) as H.
  rewrite fold_left_app, (fold_add_distinct l1 []) in H.
  simpl in H. rewrite !filter_true in H.
  rewrite fold_add_distinct in H. now symmetry.
Qed.

(** X8.  What is found in [s] followed by [t], for [s] well-formed UTF-8,
    is what is found in [s], followed by what is found in [t] and was not
    found in [s] already. *)
Theorem FindEmojis_of_concatenation (allowed : list string) (s t : string) :
  ValidString s ->
  let d := NewDetectorWithAllowed allowed in
  FindEmojis d (s +:+ t)
  = FindEmojis d s
    ++ List.filter (fun e => negb (mem e (FindEmojis d s))) (FindEmojis d t).
Proof.
  intros Hs d. unfold d. rewrite !FindEmojis_first_occurrences.
  rewrite runes_app, List.filter_app, map_app by exact Hs.
  apply first_occurrences_app.
Qed.

Lemma FindEmojis_of_concatenation_witness :
  ValidString "a😊" /\
  FindEmojis NewDetector ("a😊" +:+ "🚀😊")
  = FindEmojis NewDetector "a😊"
    ++ List.filter (fun e => negb (mem e (FindEmojis NewDetector "a😊")))
         (FindEmojis NewDetector "🚀😊").
Proof.
  split; [reflexivity|].
  apply (FindEmojis_of_concatenation [] "a😊" "🚀😊"). reflexivity.
Defined.

(** *** Nothing is left *)

(** X9.  A cleaned text has no emoji left to find: [FindEmojis] on what
    [RemoveEmojis] returns is empty, for a text that is well-formed UTF-8,
    and for every byte string when the allow set is not empty. *)
Theorem FindEmojis_of_cleaned_text (allowed : list string) (t : string) :
  ValidString t \/ allowed <> [] ->
  let d := NewDetectorWithAllowed allowed in
  FindEmojis d (RemoveEmojis d t) = [].
Proof. exact (RemoveEmojis_leaves_no_emoji allowed t). Qed.

Lemma FindEmojis_of_cleaned_text_witness :
  (ValidString "Go ✅ now 🚀" \/ ["✅"] <> []) /\
  FindEmojis (NewDetectorWithAllowed ["✅"])
    (RemoveEmojis (NewDetectorWithAllowed ["✅"]) "Go ✅ now 🚀") = [].
Proof.
  assert (H : ValidString "Go ✅ now 🚀" \/ ["✅"] <> [])
    by (left; reflexivity).
  split; [exact H|].
  exact (FindEmojis_of_cleaned_text ["✅"] "Go ✅ now 🚀" H).
Defined.

(** *** The entries of the allow list *)

Lemma single_rune_encode r :
  utf8.ValidRune r = true -> single_rune (utf8.EncodeRune r) = true.
Proof.
  intros Hv. unfold single_rune, runes. rewrite chunks_encode_one by exact Hv.
  simpl. apply String.eqb_refl.
Qed.

Lemma qualifies_ignores_entry (a : string) (l : list string) (r : Z) :
  single_rune a = false ->
  utf8.ValidRune r = true ->
  qualifies (NewDetectorWithAllowed (a :: l)) r
  = qualifies (NewDetectorWithAllowed l) r.
Proof.
  intros Ha Hv. unfold qualifies.
  rewrite !in_emoji_range_pattern, !index_allowed. simpl.
  destruct (String.eqb_spec (utf8.EncodeRune r) a) as [<-|Hne]; [|reflexivity].
  now rewrite single_rune_encode in Ha.
Qed.

(** X10.  An entry of the allow list that is not the encoding of exactly
    one code point allows nothing: with it or without it [FindEmojis]
    returns the same, for every byte string, and [RemoveEmojis] returns the
    same for every text that is well-formed UTF-8.  So a line of the allow
    file with two emojis on it, or with an emoji followed by a variation
    selector, has no effect. *)
Theorem allowed_entry_of_several_runes_is_ignored (a : string)
    (l : list string) (t : string) :
  single_rune a = false ->
  FindEmojis (NewDetectorWithAllowed (a :: l)) t
  = FindEmojis (NewDetectorWithAllowed l) t /\
  (ValidString t ->
   RemoveEmojis (NewDetectorWithAllowed (a :: l)) t
   = RemoveEmojis (NewDetectorWithAllowed l) t).
Proof.
  intros Ha.
  pose proof (runes_valid t) as Hv. rewrite List.Forall_forall in Hv.
  split.
  - rewrite !FindEmojis_first_occurrences. do 2 f_equal.
    apply filter_ext_in. intros r Hr.
    exact (qualifies_ignores_entry a l r Ha (Hv r Hr)).
  - intros Ht. rewrite !RemoveEmojis_filter by now left. f_equal.
    apply filter_ext_in. intros r Hr.
    now rewrite (qualifies_ignores_entry a l r Ha (Hv r Hr)).
Qed.

Lemma allowed_entry_of_several_runes_is_ignored_witness :
  single_rune "✅🚀" = false /\
  FindEmojis (NewDetectorWithAllowed ["✅🚀"]) "Go ✅ now 🚀"
  = FindEmojis (NewDetectorWithAllowed []) "Go ✅ now 🚀".
Proof.
  split; [reflexivity|].
  apply (allowed_entry_of_several_runes_is_ignored "✅🚀" [] "Go ✅ now 🚀").
  reflexivity.
Defined.

(** X11.  What [FindEmojis] reports can be allowed: with the strings the
    detector without allowed emojis finds in a text as the allow list,
    [FindEmojis] finds nothing in that text, and, the text being
    well-formed UTF-8, [RemoveEmojis] returns it as it is. *)
Theorem allowing_what_is_found_silences (t : string) :
  let d := NewDetectorWithAllowed (FindEmojis NewDetector t) in
  FindEmojis d t = [] /\ (ValidString t -> RemoveEmojis d t = t).
Proof.
  intros d.
  assert (Hnone : FindEmojis d t = []).
  { unfold d. rewrite FindEmojis_allowed_filter.
    rewrite (filter_ext_in _ (fun _ => false)); [apply filter_false|].
    intros e He. apply mem_In in He. now rewrite He. }
  split; [exact Hnone|]. intros Ht.
  now apply (RemoveEmojis_fixed_iff (FindEmojis NewDetector t) t Ht).
Qed.

Lemma allowing_what_is_found_silences_witness :
  ValidString "Hi 😊 there 🚀" /\
  RemoveEmojis
    (NewDetectorWithAllowed (FindEmojis NewDetector "Hi 😊 there 🚀"))
    "Hi 😊 there 🚀"
  = "Hi 😊 there 🚀".
Proof.
  split; [reflexivity|].
  apply (allowing_what_is_found_silences "Hi 😊 there 🚀"). reflexivity.
Defined.

(** ** The processor *)

(** *** The shape of the file tree *)

Lemma skeleton_Dir perm entries :
  skeleton (Dir perm entries)
  = Dir perm (map (fun e => (fst e, skeleton (snd e))) entries).
Proof.
  simpl. f_equal. induction entries as [|[name child] es IH]; [reflexivity|].
  simpl. now rewrite IH.
Qed.

Lemma replace_entry_skeleton name g entries entries' :
  replace_entry name g entries = inr entries' ->
  (forall child child', find_entry name entries = Some child ->
                        g child = inr child' -> skeleton child' = skeleton child) ->
  map (fun e => (fst e, skeleton (snd e))) entries'
  = map (fun e => (fst e, skeleton (snd e))) entries.
Proof.
  revert entries'. induction entries as [|[n c] es IH]; intros entries' Hr Hg;
    [discriminate|].
  simpl in Hr, Hg. destruct (String.eqb n name) eqn:Hn.
  - destruct (g c) as [e|c'] eqn:Hc; [discriminate|]. injection Hr as <-.
    simpl. now rewrite (Hg c c' eq_refl Hc).
  - destruct (replace_entry name g es) as [e|es''] eqn:Hes; [discriminate|].
    injection Hr as <-. simpl. f_equal. now apply IH.
Qed.

Lemma update_skeleton segs g :
  forall r r',
    update segs g r = inr r' ->
    (forall n n', lookup segs r = inr n -> g n = inr n' ->
                  skeleton n' = skeleton n) ->
    skeleton r' = skeleton r.
Proof.
  induction segs as [|name segs IH]; intros r r' Hu Hg.
  - simpl in Hu. now apply Hg.
  - destruct r as [k p d|p entries]; [discriminate|]. simpl in Hu.
    destruct (replace_entry name (update segs g) entries) as [e|entries'] eqn:Hr;
      [discriminate|].
    injection Hu as <-. rewrite !skeleton_Dir. f_equal.
    apply (replace_entry_skeleton name (update segs g) entries entries' Hr).
    intros child child' Hf Hc. apply (IH child child' Hc).
    intros n n' Hl. apply Hg. simpl. now rewrite Hf.
Qed.

Lemma write_file_skeleton path data perm r r1 content :
  read_file path r = inr content ->
  write_file path data perm r = inr r1 ->
  skeleton r1 = skeleton r.
Proof.
  intros Hread Hw.
  destruct (read_file_inv path r content Hread) as (p & Hl & _).
  unfold write_file in Hw. rewrite Hl in Hw.
  destruct (writable p); [|discriminate].
  apply (update_skeleton _ _ r r1 Hw).
  intros n n' Hn [= <-]. rewrite Hl in Hn. now injection Hn as <-.
Qed.

Lemma chmod_skeleton path mode r r' perm data :
  lookup (segments path) r = inr (File Regular perm data) ->
  chmod path mode r = inr r' ->
  skeleton r' = skeleton r.
Proof.
  intros Hl Hc. apply (update_skeleton _ _ r r' Hc).
  intros n n' Hn. rewrite Hl in Hn. injection Hn as <-. now intros [= <-].
Qed.

(** What [ProcessFile] does to the world, in every case: it reads the file,
    and then writes it and sets its mode, or stops before, or after the
    write; in preview it only reads. *)
Lemma ProcessFile_effect fp path dryRun w :
  let out := ProcessFile fp path dryRun w in
  skeleton (root (snd out)) = skeleton (root w) /\
  exists calls,
    trace (snd out) = trace w ++ SysReadFile path :: calls /\
    Forall (fun c => (exists data, c = SysWriteFile path data perm0600)
                     \/ c = SysChmod path perm0600) calls /\
    (dryRun = true -> calls = [] /\ root (snd out) = root w).
Proof.
  intros out. subst out.
  assert (Hstop : forall res dry,
            let w1 := {| root := root w; trace := trace w ++ [SysReadFile path] |} in
            skeleton (root (snd (res : ProcessResult * option error, w1)))
            = skeleton (root w) /\
            exists calls,
              trace (snd (res, w1)) = trace w ++ SysReadFile path :: calls /\
              Forall (fun c => (exists data, c = SysWriteFile path data perm0600)
                               \/ c = SysChmod path perm0600) calls /\
              (dry = true -> calls = [] /\ root (snd (res, w1)) = root w)).
  { intros res dry. simpl. split; [reflexivity|]. exists []. auto. }
  destruct (read_file path (root w)) as [e|content] eqn:Hr.
  { rewrite (ProcessFile_unreadable fp path dryRun w e Hr). apply Hstop. }
  destruct (decide (FindEmojis (fpDetector fp) content = [])) as [Hnone|Hsome].
  { rewrite (ProcessFile_no_emoji fp path dryRun w content Hr Hnone). apply Hstop. }
  destruct dryRun.
  { rewrite (ProcessFile_preview fp path w content Hr Hsome). apply Hstop. }
  rewrite (ProcessFile_rewrite fp path w content Hr Hsome).
  set (cleaned := RemoveEmojis (fpDetector fp) content).
  destruct (write_file path cleaned perm0600 (root w)) as [e|r1] eqn:Hw.
  { simpl. split; [reflexivity|]. exists [SysWriteFile path cleaned perm0600].
    split; [reflexivity|]. split; [|discriminate].
    constructor; [left; now exists cleaned|constructor]. }
  assert (Hs1 : skeleton r1 = skeleton (root w))
    by exact (write_file_skeleton path cleaned perm0600 (root w) r1 content Hr Hw).
  assert (Hcalls : forall r2,
            exists calls,
              trace {| root := r2;
                       trace := (trace w ++ [SysReadFile path;
                                             SysWriteFile path cleaned perm0600])
                                ++ [SysChmod path perm0600] |}
              = trace w ++ SysReadFile path :: calls /\
              Forall (fun c => (exists data, c = SysWriteFile path data perm0600)
                               \/ c = SysChmod path perm0600) calls /\
              (false = true -> calls = [] /\ r2 = root w)).
  { intros r2.
    exists [SysWriteFile path cleaned perm0600; SysChmod path perm0600].
    split; [simpl; now rewrite <- !app_assoc|]. split; [|discriminate].
    constructor; [left; now exists cleaned|].
    constructor; [now right|constructor]. }
  destruct (chmod path perm0600 r1) as [e|r2] eqn:Hc.
  { split; [exact Hs1|]. apply (Hcalls r1). }
  split; [|apply (Hcalls r2)]. simpl. rewrite <- Hs1.
  destruct (read_file_inv path (root w) content Hr) as (p & Hl & _).
  assert (Hwr : writable p = true).
  { unfold write_file in Hw. rewrite Hl in Hw. now destruct (writable p). }
  destruct (write_then_chmod path content p perm0600 (root w) Hl cleaned Hwr)
    as (r1' & r2' & Hw' & Hc' & _).
  assert (r1' = r1) by congruence. subst r1'.
  unfold write_file in Hw. rewrite Hl, Hwr in Hw.
  destruct (update_lookup (segments path)
              (fun _ => inr (File Regular p cleaned)) (root w) _ _ Hl eq_refl)
    as (r1'' & Hu & Hl1).
  assert (r1'' = r1) by congruence. subst r1''.
  exact (chmod_skeleton path perm0600 r1 r2 p cleaned Hl1 Hc).
Qed.

(** *** An invariant of the walk, over the results and the world *)

Section WalkWorld.

Context {R : Type}.
Variable fn : R -> string -> option FileInfo -> option error -> OS (R * option error).
Variable Inv : R -> world -> Prop.

Hypothesis fn_inv :
  forall acc path d err w,
    Inv acc w -> Inv (fst (fst (fn acc path d err w))) (snd (fn acc path d err w)).

(** [ReadDir] is called on a directory the function has let through. *)
Hypothesis ReadDir_inv :
  forall acc path d w,
    Inv acc w -> IsDir d = true ->
    snd (fst (fn acc path (Some d) None w)) = None ->
    Inv (fst (fst (fn acc path (Some d) None w)))
        (snd (record (SysReadDir path) (snd (fn acc path (Some d) None w)))).

Lemma walkDir_inv n :
  forall path name acc w,
    Inv acc w ->
    Inv (fst (fst (walkDir fn path (info_of name n) n acc w)))
        (snd (walkDir fn path (info_of name n) n acc w)).
Proof.
  induction n as [kind perm data|perm entries IH] using node_nested_ind;
    intros path name acc w Hacc.
  - set (d := info_of name (File kind perm data)). clearbody d. simpl.
    pose proof (fn_inv acc path (Some d) None w Hacc) as H.
    destruct (fn acc path (Some d) None w) as [[acc1 err] w1]. exact H.
  - set (d := info_of name (Dir perm entries)).
    assert (Hd : IsDir d = true) by reflexivity.
    clearbody d. simpl.
    pose proof (fn_inv acc path (Some d) None w Hacc) as H.
    pose proof (ReadDir_inv acc path d w Hacc Hd) as Hrd.
    destruct (fn acc path (Some d) None w) as [[acc1 err] w1].
    cbn [fst snd] in H, Hrd.
    destruct err as [e|]; [destruct e; exact H|].
    specialize (Hrd eq_refl). unfold record in Hrd |- *. cbn [snd] in Hrd.
    destruct (readable perm).
    + clear H Hacc. generalize dependent acc1.
      generalize ({| root := root w1; trace := trace w1 ++ [SysReadDir path] |}).
      induction IH as [|[name' child] entries Hchild _ IHentries];
        intros w2 acc1 Hacc1; [exact Hacc1|].
      simpl in Hchild.
      pose proof (Hchild (filepath.Join [path; name']) name' acc1 w2 Hacc1) as Hc.
      destruct (walkDir fn (filepath.Join [path; name']) (info_of name' child)
                        child acc1 w2) as [[acc' err1] w'].
      cbn [fst snd] in Hc. destruct err1 as [e|]; [destruct e; exact Hc|].
      apply IHentries. exact Hc.
    + match goal with
      | |- context [fn acc1 path (Some d) (Some ?e) ?w2] =>
        pose proof (fn_inv acc1 path (Some d) (Some e) w2 Hrd) as H2;
        destruct (fn acc1 path (Some d) (Some e) w2) as [[acc2 err2] w3]
      end.
      cbn [fst snd] in H2. destruct err2 as [e|]; [destruct e|]; exact H2.
Qed.

Lemma WalkDir_inv dirPath acc w :
  Inv acc (snd (record (SysLstat dirPath) w)) ->
  Inv (fst (fst (WalkDir fn dirPath acc w))) (snd (WalkDir fn dirPath acc w)).
Proof.
  intros Hacc. unfold WalkDir. unfold record in Hacc |- *. cbn [snd] in Hacc.
  destruct (lookup (segments dirPath) (os.root w)) as [e|n].
  - match goal with
    | |- context [fn acc dirPath None (Some ?e) ?w1] =>
      pose proof (fn_inv acc dirPath None (Some e) w1 Hacc) as H;
      destruct (fn acc dirPath None (Some e) w1) as [[acc' err] w']
    end.
    cbn [fst snd] in H. destruct err as [e'|]; [destruct e'|]; exact H.
  - match goal with
    | |- context [walkDir fn dirPath (info_of ?name n) n acc ?w1] =>
      pose proof (walkDir_inv n dirPath name acc w1 Hacc) as H;
      destruct (walkDir fn dirPath (info_of name n) n acc w1) as [[acc' err] w']
    end.
    cbn [fst snd] in H. destruct err as [e'|]; [destruct e'|]; exact H.
Qed.

End WalkWorld.

(** *** The function of [ProcessDirectory] keeps the invariant *)

Lemma shouldSkipFile_effect path w :
  snd (shouldSkipFile path w) = snd (record (SysStat path) w) /\
  (fst (shouldSkipFile path w) = false ->
   index skipExtensions (filepath.Ext path) = false).
Proof.
  unfold shouldSkipFile, mbind, OS_bind, Stat, record.
  destruct (lookup (segments path) (root w)) as [e|n]; simpl;
    [split; [reflexivity|discriminate]|].
  destruct (IsRegular (info_of (filepath.Base path) n)); simpl;
    split; auto; discriminate.
Qed.

Lemma ProcessFile_Modified fp path dryRun w :
  EmojisFound (fst (fst (ProcessFile fp path dryRun w))) <> [] ->
  Modified (fst (fst (ProcessFile fp path dryRun w))) = true.
Proof.
  destruct (read_file path (root w)) as [e|content] eqn:Hr.
  { now rewrite (ProcessFile_unreadable fp path dryRun w e Hr). }
  destruct (decide (FindEmojis (fpDetector fp) content = [])) as [Hnone|Hsome].
  { now rewrite (ProcessFile_no_emoji fp path dryRun w content Hr Hnone). }
  destruct dryRun.
  { now rewrite (ProcessFile_preview fp path w content Hr Hsome). }
  rewrite (ProcessFile_rewrite fp path w content Hr Hsome).
  destruct (write_file _ _ _ _); [|destruct (chmod _ _ _)]; reflexivity.
Qed.

Lemma forallb_written Match fp dirPath path calls :
  eligible Match fp path = true ->
  Forall (fun c => (exists data, c = SysWriteFile path data perm0600)
                   \/ c = SysChmod path perm0600) calls ->
  forallb (permitted Match fp dirPath) calls = true.
Proof.
  intros He. induction 1 as [|c calls Hc _ IH]; [reflexivity|].
  simpl. rewrite IH, andb_true_r.
  destruct Hc as [[data ->] | ->]; simpl; now rewrite He.
Qed.

Lemma visit_lets_through Match fp dryRun results path d w :
  IsDir d = true ->
  snd (fst (visit Match fp dryRun results path (Some d) None w)) = None ->
  isExcluded Match fp path = false /\
  visit Match fp dryRun results path (Some d) None w = ((results, None), w).
Proof.
  intros Hd. unfold visit. rewrite Hd.
  destruct (isExcluded Match fp path); [discriminate|]. now split.
Qed.

Lemma visit_inv Match fp dryRun dirPath w0 results path d err w :
  walk_invariant Match fp dryRun dirPath w0 results w ->
  walk_invariant Match fp dryRun dirPath w0
    (fst (fst (visit Match fp dryRun results path d err w)))
    (snd (visit Match fp dryRun results path d err w)).
Proof.
  intros Hinv. unfold visit.
  destruct err as [e|]; [exact Hinv|]. destruct d as [d|]; [|exact Hinv].
  destruct (isExcluded Match fp path) eqn:Hex; [destruct (IsDir d); exact Hinv|].
  destruct (IsDir d); [exact Hinv|].
  fold (has_inner_vcs path).
  destruct (has_inner_vcs path) eqn:Hvcs; [exact Hinv|].
  unfold mbind, OS_bind.
  destruct (shouldSkipFile_effect path w) as [Hw1 Hext].
  destruct (shouldSkipFile path w) as [skip w1]. cbn [fst snd] in Hw1, Hext.
  unfold record in Hw1. cbn [snd] in Hw1.
  destruct Hinv as (Hsk & Hdry & (calls & Htr & Hperm & Hnw) & Hres).
  assert (Hinv1 : walk_invariant Match fp dryRun dirPath w0 results w1).
  { subst w1. split; [exact Hsk|]. split; [exact Hdry|]. split; [|exact Hres].
    exists (calls ++ [SysStat path]). cbn [trace].
    rewrite Htr, <- app_assoc, forallb_app, Hperm. split; [reflexivity|].
    split; [simpl; now rewrite Hex, Hvcs|].
    intros Hd. rewrite existsb_app, (Hnw Hd). reflexivity. }
  destruct skip; [exact Hinv1|]. specialize (Hext eq_refl).
  assert (Hel : eligible Match fp path = true).
  { unfold eligible. now rewrite Hex, Hvcs, Hext. }
  clear Hsk Hdry Htr Hperm Hnw Hres calls.
  destruct Hinv1 as (Hsk & Hdry & (calls & Htr & Hperm & Hnw) & Hres).
  pose proof (ProcessFile_effect fp path dryRun w1) as (Hsk2 & calls2 & Htr2 & Hc2 & Hd2).
  pose proof (ProcessFile_FilePath fp path dryRun w1) as Hpath.
  pose proof (ProcessFile_Modified fp path dryRun w1) as Hmod.
  destruct (ProcessFile fp path dryRun w1) as [[result perr] w2].
  cbn [fst snd] in Hsk2, Htr2, Hd2, Hpath, Hmod.
  assert (Hw2 : forall acc,
             Forall (reported Match fp) acc ->
             walk_invariant Match fp dryRun dirPath w0 acc w2).
  { intros acc Hacc. split; [congruence|]. split.
    { intros Hd. destruct (Hd2 Hd) as [_ ->]. auto. }
    split; [|exact Hacc].
    exists (calls ++ SysReadFile path :: calls2).
    rewrite Htr2, Htr, <- app_assoc. split; [reflexivity|].
    rewrite forallb_app, Hperm. simpl. rewrite Hel. simpl.
    split; [exact (forallb_written Match fp dirPath path calls2 Hel Hc2)|].
    intros Hd. destruct (Hd2 Hd) as [-> _].
    rewrite existsb_app, (Hnw Hd). reflexivity. }
  destruct perr as [e|]; [now apply Hw2|].
  destruct (0 <? length (EmojisFound result))%nat eqn:Hlen; [|now apply Hw2].
  apply Hw2. apply Forall_app. split; [exact Hres|].
  constructor; [|constructor].
  assert (Hne : EmojisFound result <> []).
  { intros He. rewrite He in Hlen. discriminate. }
  unfold reported. rewrite Hpath. auto.
Qed.

Lemma ProcessDirectory_invariant Match fp dirPath dryRun w :
  walk_invariant Match fp dryRun dirPath w
    (fst (fst (ProcessDirectory Match fp dirPath dryRun w)))
    (snd (ProcessDirectory Match fp dirPath dryRun w)).
Proof.
  unfold ProcessDirectory.
  apply (WalkDir_inv (visit Match fp dryRun)
                     (walk_invariant Match fp dryRun dirPath w)).
  - intros acc path d err w'. apply visit_inv.
  - intros acc path d w' Hinv Hd Hnone.
    destruct (visit_lets_through Match fp dryRun acc path d w' Hd Hnone)
      as [Hex ->].
    cbn [fst snd]. unfold record. cbn [snd].
    destruct Hinv as (Hsk & Hdry & (calls & Htr & Hperm & Hnw) & Hres).
    split; [exact Hsk|]. split; [exact Hdry|]. split; [|exact Hres].
    exists (calls ++ [SysReadDir path]). cbn [trace].
    rewrite Htr, <- app_assoc, forallb_app, Hperm. split; [reflexivity|].
    split; [simpl; now rewrite Hex|].
    intros Hd'. rewrite existsb_app, (Hnw Hd'). reflexivity.
  - unfold record. cbn [snd].
    split; [reflexivity|]. split; [reflexivity|]. split; [|constructor].
    exists [SysLstat dirPath]. cbn [trace]. split; [reflexivity|].
    split; [simpl; now rewrite String.eqb_refl|reflexivity].
Qed.

(** *** [ProcessDirectory] *)

(** X12.  A preview changes nothing: with [dryRun] set, the file tree after
    [ProcessDirectory] is the file tree before it, whatever the directory,
    the exclusions and the allowed emojis, and none of the calls made is a
    [WriteFile] or a [Chmod]. *)
Theorem ProcessDirectory_preview_changes_nothing (Match : GlobMatcher)
    (fp : FileProcessor) (dirPath : string) (w : world) :
  let out := ProcessDirectory Match fp dirPath true w in
  root (snd out) = root w /\
  exists calls,
    trace (snd out) = trace w ++ calls /\ existsb is_write calls = false.
Proof.
  destruct (ProcessDirectory_invariant Match fp dirPath true w)
    as (_ & Hroot & (calls & Htr & _ & Hnw) & _).
  simpl. split; [now apply Hroot|]. exists calls. split; [exact Htr|now apply Hnw].
Qed.

(** X13.  [ProcessDirectory] rewrites regular files and does nothing else to
    the file tree: after it, in preview or not and also when it stops on an
    error, the tree has the same directories with the same permission
    bits, the same names in the same order, and the same pipes, sockets and
    devices; only the contents and the permission bits of regular files may
    differ.  No file is created, removed or renamed. *)
Theorem ProcessDirectory_keeps_the_tree_shape (Match : GlobMatcher)
    (fp : FileProcessor) (dirPath : string) (dryRun : bool) (w : world) :
  skeleton (root (snd (ProcessDirectory Match fp dirPath dryRun w)))
  = skeleton (root w).
Proof.
  now destruct (ProcessDirectory_invariant Match fp dirPath dryRun w) as (H & _).
Qed.

(** X14.  The calls of [ProcessDirectory]: [Lstat] on the root of the walk
    only; [ReadDir] on directories that are not excluded only; [Stat] only
    on paths that are not excluded and have no [/.git/], [/.svn/] or
    [/.hg/] in them; and [ReadFile], [WriteFile] and [Chmod] only on such
    paths whose extension is not on the deny list, the last two with the
    mode 0600.  Nothing is printed.  An excluded file, a file in a
    directory of version control below the root and a file with a denied
    extension are never opened. *)
Theorem ProcessDirectory_opens_eligible_files_only (Match : GlobMatcher)
    (fp : FileProcessor) (dirPath : string) (dryRun : bool) (w : world) :
  exists calls,
    trace (snd (ProcessDirectory Match fp dirPath dryRun w)) = trace w ++ calls /\
    forall c, In c calls -> permitted Match fp dirPath c = true.
Proof.
  destruct (ProcessDirectory_invariant Match fp dirPath dryRun w)
    as (_ & _ & (calls & Htr & Hperm & _) & _).
  exists calls. split; [exact Htr|].
  intros c Hc. rewrite forallb_forall in Hperm. now apply Hperm.
Qed.

(** X15.  What [ProcessDirectory] reports: every result is of a file that
    is not excluded, has no directory of version control below the root in
    its name and no denied extension; it lists at least one emoji, and it
    says [Modified]: a file in which nothing is found is not reported. *)
Theorem ProcessDirectory_reports_files_with_emojis (Match : GlobMatcher)
    (fp : FileProcessor) (dirPath : string) (dryRun : bool) (w : world)
    (res : ProcessResult) :
  In res (fst (fst (ProcessDirectory Match fp dirPath dryRun w))) ->
  isExcluded Match fp (FilePath res) = false /\
  has_inner_vcs (FilePath res) = false /\
  index skipExtensions (filepath.Ext (FilePath res)) = false /\
  EmojisFound res <> [] /\ Modified res = true.
Proof.
  intros Hres.
  destruct (ProcessDirectory_invariant Match fp dirPath dryRun w)
    as (_ & _ & _ & Hall).
  rewrite List.Forall_forall in Hall.
  destruct (Hall res Hres) as (Hel & Hne & Hmod).
  unfold eligible in Hel.
  apply andb_true_iff in Hel as [Hel Hext].
  apply andb_true_iff in Hel as [Hex Hvcs].
  apply negb_true_iff in Hex, Hvcs, Hext. auto.
Qed.

Lemma ProcessDirectory_reports_files_with_emojis_witness :
  In (modified NewDetector "/a.txt" "Hi 😊")
     (fst (fst (ProcessDirectory no_glob NewFileProcessor "/" true
                  scenario_world))) /\
  isExcluded no_glob NewFileProcessor
    (FilePath (modified NewDetector "/a.txt" "Hi 😊")) = false.
Proof.
  assert (H : In (modified NewDetector "/a.txt" "Hi 😊")
                 (fst (fst (ProcessDirectory no_glob NewFileProcessor "/"
                              true scenario_world))))
    by (vm_compute; left; reflexivity).
  split; [exact H|].
  apply (ProcessDirectory_reports_files_with_emojis no_glob NewFileProcessor
           "/" true scenario_world _ H).
Defined.

(** *** [ProcessFile] *)

Lemma read_after_rewrite path r perm content cleaned r1 r2 :
  lookup (segments path) r = inr (File Regular perm content) ->
  write_file path cleaned perm0600 r = inr r1 ->
  chmod path perm0600 r1 = inr r2 ->
  read_file path r2 = inr cleaned.
Proof.
  intros Hl Hw Hc.
  assert (Hwr : writable perm = true).
  { unfold write_file in Hw. rewrite Hl in Hw. now destruct (writable perm). }
  destruct (write_then_chmod path content perm perm0600 r Hl cleaned Hwr)
    as (r1' & r2' & Hw' & Hc' & Hl2).
  assert (r1' = r1) by congruence. subst r1'.
  assert (r2' = r2) by congruence. subst r2'.
  unfold read_file. now rewrite Hl2.
Qed.

(** X16.  A second run finds nothing to do.  After [ProcessFile] has gone
    through without error and without [dryRun], on a file whose content is
    well-formed UTF-8 or with a non-empty allow set, [ProcessFile] on the
    same file, in preview or not, finds no emoji, reports the file as not
    modified, returns no error, and only reads: the file tree stays as the
    first run left it. *)
Theorem ProcessFile_second_run_finds_nothing (excludes allowed : list string)
    (path : string) (w : world) (content : string) (dryRun : bool) :
  let fp := NewFileProcessorWithExcludesAndAllowed excludes allowed in
  let first := ProcessFile fp path false w in
  let second := ProcessFile fp path dryRun (snd first) in
  read_file path (root w) = inr content ->
  ValidString content \/ allowed <> [] ->
  snd (fst first) = None ->
  EmojisFound (fst (fst second)) = [] /\
  Modified (fst (fst second)) = false /\
  snd (fst second) = None /\
  root (snd second) = root (snd first) /\
  trace (snd second) = trace (snd first) ++ [SysReadFile path].
Proof.
  intros fp first second Hr Hdom Hok. subst second.
  assert (Hnext : forall text,
             read_file path (root (snd first)) = inr text ->
             FindEmojis (fpDetector fp) text = [] ->
             EmojisFound (fst (fst (ProcessFile fp path dryRun (snd first)))) = [] /\
             Modified (fst (fst (ProcessFile fp path dryRun (snd first)))) = false /\
             snd (fst (ProcessFile fp path dryRun (snd first))) = None /\
             root (snd (ProcessFile fp path dryRun (snd first))) = root (snd first) /\
             trace (snd (ProcessFile fp path dryRun (snd first)))
             = trace (snd first) ++ [SysReadFile path]).
  { intros text Hr' Hnone.
    rewrite (ProcessFile_no_emoji fp path dryRun (snd first) text Hr' Hnone).
    simpl. auto. }
  destruct (decide (FindEmojis (fpDetector fp) content = [])) as [Hnone|Hsome].
  { apply (Hnext content); [|exact Hnone]. subst first.
    now rewrite (ProcessFile_no_emoji fp path false w content Hr Hnone). }
  apply (Hnext (RemoveEmojis (fpDetector fp) content));
    [|exact (RemoveEmojis_leaves_no_emoji allowed content Hdom)].
  subst first.
  rewrite (ProcessFile_rewrite fp path w content Hr Hsome) in Hok |- *.
  destruct (read_file_inv path (root w) content Hr) as (perm & Hl & _).
  destruct (write_file path (RemoveEmojis (fpDetector fp) content) perm0600 (root w))
    as [e|r1] eqn:Hw; [discriminate|].
  destruct (chmod path perm0600 r1) as [e|r2] eqn:Hc; [discriminate|].
  exact (read_after_rewrite path (root w) perm content _ r1 r2 Hl Hw Hc).
Qed.

Lemma ProcessFile_second_run_finds_nothing_witness :
  read_file "a.txt" (root scenario_world) = inr "Hi 😊" /\
  EmojisFound
    (fst (fst (ProcessFile (NewFileProcessorWithExcludesAndAllowed [] [])
                 "a.txt" true
                 (snd (ProcessFile (NewFileProcessorWithExcludesAndAllowed [] [])
                         "a.txt" false scenario_world))))) = [].
Proof.
  split; [reflexivity|].
  apply (ProcessFile_second_run_finds_nothing [] [] "a.txt" scenario_world
           "Hi 😊" true); [reflexivity|left; reflexivity|reflexivity].
Defined.

(** X17.  A file that may be read but not written is not forced: when it
    holds an emoji and [dryRun] is not set, [ProcessFile] tries the write,
    which fails, and stops there, without a [Chmod]; it returns the error
    of the write, wrapped, together with a result that says [Modified] and
    gives the size the cleaned text would have had; the file tree is as it
    was. *)
Theorem ProcessFile_read_only_file (fp : FileProcessor) (path : string)
    (w : world) (perm : Z) (content : string) :
  lookup (segments path) (root w) = inr (File Regular perm content) ->
  readable perm = true ->
  writable perm = false ->
  FindEmojis (fpDetector fp) content <> [] ->
  let cleaned := RemoveEmojis (fpDetector fp) content in
  ProcessFile fp path false w
  = ((modified (fpDetector fp) path content,
      Some (Errorf "failed to write cleaned file" (PathError "open" path EACCES))),
     {| root := root w;
        trace := trace w ++ [SysReadFile path;
                             SysWriteFile path cleaned perm0600] |}).
Proof.
  intros Hl Hrd Hwr Hsome cleaned.
  assert (Hr : read_file path (root w) = inr content).
  { unfold read_file. now rewrite Hl, Hrd. }
  rewrite (ProcessFile_rewrite fp path w content Hr Hsome).
  unfold write_file. now rewrite Hl, Hwr.
Qed.

Lemma ProcessFile_read_only_file_witness :
  writable 0x124 = false /\
  ProcessFile NewFileProcessor "a.txt" false read_only_world
  = ((modified NewDetector "a.txt" "Hi 😊",
      Some (Errorf "failed to write cleaned file"
              (PathError "open" "a.txt" EACCES))),
     {| root := root read_only_world;
        trace := [SysReadFile "a.txt"; SysWriteFile "a.txt" "Hi " perm0600] |}).
Proof.
  split; [reflexivity|].
  apply (ProcessFile_read_only_file NewFileProcessor "a.txt" read_only_world
           0x124 "Hi 😊"); [reflexivity|reflexivity|reflexivity|discriminate].
Defined.

(** *** Every write is accounted for *)

Section WalkOutcome.

Context {R : Type}.
Variable fn : R -> string -> option FileInfo -> option error -> OS (R * option error).
Variable Inv : R -> world -> Prop.
Variable Fail : R -> error -> world -> Prop.

Hypothesis fn_outcome :
  forall acc path d err w, Inv acc w -> outcome Inv Fail (fn acc path d err w).

Hypothesis ReadDir_outcome :
  forall acc path d w,
    Inv acc w -> IsDir d = true ->
    snd (fst (fn acc path (Some d) None w)) = None ->
    Inv (fst (fst (fn acc path (Some d) None w)))
        (snd (record (SysReadDir path) (snd (fn acc path (Some d) None w)))).

Lemma walkDir_outcome n :
  forall path name acc w,
    Inv acc w -> outcome Inv Fail (walkDir fn path (info_of name n) n acc w).
Proof.
  induction n as [kind perm data|perm entries IH] using node_nested_ind;
    intros path name acc w Hacc.
  - set (d := info_of name (File kind perm data)). clearbody d. simpl.
    pose proof (fn_outcome acc path (Some d) None w Hacc) as H.
    destruct (fn acc path (Some d) None w) as [[acc1 err] w1]. exact H.
  - set (d := info_of name (Dir perm entries)).
    assert (Hd : IsDir d = true) by reflexivity.
    clearbody d. simpl.
    pose proof (fn_outcome acc path (Some d) None w Hacc) as H.
    pose proof (ReadDir_outcome acc path d w Hacc Hd) as Hrd.
    destruct (fn acc path (Some d) None w) as [[acc1 err] w1].
    unfold outcome in H. cbn [fst snd] in H, Hrd.
    destruct err as [e|]; [destruct e; exact H|].
    specialize (Hrd eq_refl). unfold record in Hrd |- *. cbn [snd] in Hrd.
    destruct (readable perm).
    + clear H Hacc. generalize dependent acc1.
      generalize ({| root := root w1; trace := trace w1 ++ [SysReadDir path] |}).
      induction IH as [|[name' child] entries Hchild _ IHentries];
        intros w2 acc1 Hacc1; [exact Hacc1|].
      simpl in Hchild.
      pose proof (Hchild (filepath.Join [path; name']) name' acc1 w2 Hacc1) as Hc.
      destruct (walkDir fn (filepath.Join [path; name']) (info_of name' child)
                        child acc1 w2) as [[acc' err1] w'].
      unfold outcome in Hc. cbn [fst snd] in Hc.
      destruct err1 as [e|]; [destruct e; exact Hc|].
      apply IHentries. exact Hc.
    + match goal with
      | |- context [fn acc1 path (Some d) (Some ?e) ?w2] =>
        pose proof (fn_outcome acc1 path (Some d) (Some e) w2 Hrd) as H2;
        destruct (fn acc1 path (Some d) (Some e) w2) as [[acc2 err2] w3]
      end.
      unfold outcome in H2. cbn [fst snd] in H2.
      destruct err2 as [e|]; [destruct e|]; exact H2.
Qed.

Lemma WalkDir_outcome dirPath acc w :
  Inv acc (snd (record (SysLstat dirPath) w)) ->
  outcome Inv Fail (WalkDir fn dirPath acc w).
Proof.
  intros Hacc. unfold WalkDir. unfold record in Hacc |- *. cbn [snd] in Hacc.
  destruct (lookup (segments dirPath) (os.root w)) as [e|n].
  - match goal with
    | |- context [fn acc dirPath None (Some ?e) ?w1] =>
      pose proof (fn_outcome acc dirPath None (Some e) w1 Hacc) as H;
      destruct (fn acc dirPath None (Some e) w1) as [[acc' err] w']
    end.
    unfold outcome in H. cbn [fst snd] in H.
    destruct err as [e'|]; [destruct e'|]; exact H.
  - match goal with
    | |- context [walkDir fn dirPath (info_of ?name n) n acc ?w1] =>
      pose proof (walkDir_outcome n dirPath name acc w1 Hacc) as H;
      destruct (walkDir fn dirPath (info_of name n) n acc w1) as [[acc' err] w']
    end.
    unfold outcome in H. cbn [fst snd] in H.
    destruct err as [e'|]; [destruct e'|]; exact H.
Qed.

End WalkOutcome.

(** The calls of [ProcessFile] after the read write to its path, and there
    is one only when the result lists an emoji. *)
Lemma ProcessFile_calls fp path dryRun w :
  exists calls,
    trace (snd (ProcessFile fp path dryRun w))
    = trace w ++ SysReadFile path :: calls /\
    Forall (fun c => written c = Some path) calls /\
    (calls <> [] -> EmojisFound (fst (fst (ProcessFile fp path dryRun w))) <> []).
Proof.
  destruct (read_file path (root w)) as [e|content] eqn:Hr.
  { rewrite (ProcessFile_unreadable fp path dryRun w e Hr). exists []. auto. }
  destruct (decide (FindEmojis (fpDetector fp) content = [])) as [Hnone|Hsome].
  { rewrite (ProcessFile_no_emoji fp path dryRun w content Hr Hnone).
    exists []. auto. }
  destruct dryRun.
  { rewrite (ProcessFile_preview fp path w content Hr Hsome). exists []. auto. }
  rewrite (ProcessFile_rewrite fp path w content Hr Hsome).
  set (cleaned := RemoveEmojis (fpDetector fp) content).
  destruct (write_file path cleaned perm0600 (root w)) as [e1|r1].
  { exists [SysWriteFile path cleaned perm0600]. split; [reflexivity|].
    split; [repeat constructor|intros _; exact Hsome]. }
  assert (H : forall r,
             exists calls,
               trace {| root := r;
                        trace := (trace w ++ [SysReadFile path;
                                              SysWriteFile path cleaned perm0600])
                                 ++ [SysChmod path perm0600] |}
               = trace w ++ SysReadFile path :: calls /\
               Forall (fun c => written c = Some path) calls /\
               (calls <> [] -> FindEmojis (fpDetector fp) content <> [])).
  { intros r.
    exists [SysWriteFile path cleaned perm0600; SysChmod path perm0600].
    split; [simpl; now rewrite <- !app_assoc|].
    split; [repeat constructor|intros _; exact Hsome]. }
  destruct (chmod path perm0600 r1) as [e2|r2]; apply H.
Qed.

Lemma visit_outcome Match fp dryRun t0 results path d err w :
  writes_reported t0 results w ->
  outcome (writes_reported t0) (writes_accounted t0)
          (visit Match fp dryRun results path d err w).
Proof.
  intros Hinv.
  assert (Hstop : forall e : error,
             outcome (writes_reported t0) (writes_accounted t0)
                     ((results, Some e), w)).
  { intros e. unfold outcome. cbn [fst snd].
    assert (Hacc : writes_accounted t0 results e w).
    { destruct Hinv as (calls & Htr & Hrep). exists calls. split; [exact Htr|].
      intros c p Hc Hp. left. exact (Hrep c p Hc Hp). }
    destruct e; [exact Hacc|exact Hinv|exact Hacc]. }
  assert (Hgo : outcome (writes_reported t0) (writes_accounted t0)
                        ((results, None), w)) by exact Hinv.
  unfold visit.
  destruct err as [e|]; [apply Hstop|]. destruct d as [d|]; [|exact Hgo].
  destruct (isExcluded Match fp path);
    [destruct (IsDir d); [apply Hstop|exact Hgo]|].
  destruct (IsDir d); [exact Hgo|].
  destruct (strings.Contains path "/.git/" || strings.Contains path "/.svn/"
            || strings.Contains path "/.hg/"); [exact Hgo|].
  unfold mbind, OS_bind.
  destruct (shouldSkipFile_effect path w) as [Hw1 _].
  destruct (shouldSkipFile path w) as [skip w1]. cbn [fst snd] in Hw1.
  unfold record in Hw1. cbn [snd] in Hw1.
  destruct Hinv as (calls & Htr & Hrep).
  assert (Hrep1 : forall c p, In c (calls ++ [SysStat path]) ->
                              written c = Some p ->
                              exists res, In res results /\ FilePath res = p).
  { intros c p Hc Hp. apply in_app_or in Hc as [Hc|[<-|[]]];
      [exact (Hrep c p Hc Hp)|discriminate]. }
  assert (Htr1 : trace w1 = t0 ++ calls ++ [SysStat path]).
  { subst w1. cbn [trace]. now rewrite Htr, <- app_assoc. }
  destruct skip.
  { unfold outcome. cbn [fst snd]. now exists (calls ++ [SysStat path]). }
  destruct (ProcessFile_calls fp path dryRun w1) as (calls2 & Htr2 & Hw2 & Hfound).
  pose proof (ProcessFile_FilePath fp path dryRun w1) as Hpath.
  destruct (ProcessFile fp path dryRun w1) as [[result perr] w2].
  cbn [fst snd] in Htr2, Hfound, Hpath.
  rewrite List.Forall_forall in Hw2.
  assert (Htrace : trace w2
                   = t0 ++ (calls ++ [SysStat path]) ++ SysReadFile path :: calls2).
  { rewrite Htr2, Htr1. now rewrite <- !app_assoc. }
  assert (Hcases : forall c, In c ((calls ++ [SysStat path])
                                   ++ SysReadFile path :: calls2) ->
                             In c (calls ++ [SysStat path])
                             \/ c = SysReadFile path \/ In c calls2).
  { intros c Hc. apply in_app_or in Hc as [Hc|[<-|Hc]]; auto. }
  destruct perr as [e|].
  - unfold outcome. cbn [fst snd].
    exists ((calls ++ [SysStat path]) ++ SysReadFile path :: calls2).
    split; [exact Htrace|]. intros c p Hc Hp.
    destruct (Hcases c Hc) as [Hc1|[-> |Hc2]].
    + left. exact (Hrep1 c p Hc1 Hp).
    + discriminate.
    + right. exists e. rewrite (Hw2 c Hc2) in Hp. now injection Hp as <-.
  - destruct (EmojisFound result) as [|g emojis] eqn:Hf.
    + cbn [length Nat.ltb Nat.leb]. unfold outcome. cbn [fst snd].
      exists ((calls ++ [SysStat path]) ++ SysReadFile path :: calls2).
      split; [exact Htrace|]. intros c p Hc Hp.
      destruct (Hcases c Hc) as [Hc1|[-> |Hc2]].
      * exact (Hrep1 c p Hc1 Hp).
      * discriminate.
      * destruct calls2 as [|c2 l2]; [destruct Hc2|].
        now destruct Hfound.
    + cbn [length Nat.ltb Nat.leb]. unfold outcome. cbn [fst snd].
      exists ((calls ++ [SysStat path]) ++ SysReadFile path :: calls2).
      split; [exact Htrace|]. intros c p Hc Hp.
      destruct (Hcases c Hc) as [Hc1|[-> |Hc2]].
      * destruct (Hrep1 c p Hc1 Hp) as (res & Hres & Hp').
        exists res. split; [apply in_or_app; now left|exact Hp'].
      * discriminate.
      * exists result. split; [apply in_or_app; right; now left|].
        rewrite (Hw2 c Hc2) in Hp. injection Hp as <-. exact Hpath.
Qed.

(** X18.  Every write of [ProcessDirectory] is accounted for in what it
    returns: the path of every [WriteFile] and every [Chmod] it has made
    is the [FilePath] of one of the results, or, when the walk has stopped
    on an error, the path that error names after [failed to process].
    This holds whatever the outcome of the calls: it speaks of the calls
    made, not of the state of the files. *)
Theorem ProcessDirectory_accounts_for_every_write (Match : GlobMatcher)
    (fp : FileProcessor) (dirPath : string) (dryRun : bool) (w : world) :
  let out := ProcessDirectory Match fp dirPath dryRun w in
  exists calls,
    trace (snd out) = trace w ++ calls /\
    forall c path, In c calls -> written c = Some path ->
      (exists res, In res (fst (fst out)) /\ FilePath res = path) \/
      (exists cause,
          snd (fst out) = Some (Errorf ("failed to process " +:+ path) cause)).
Proof.
  intros out. subst out.
  assert (H : outcome (writes_reported (trace w)) (writes_accounted (trace w))
                      (ProcessDirectory Match fp dirPath dryRun w)).
  { unfold ProcessDirectory.
    apply (WalkDir_outcome (visit Match fp dryRun)
             (writes_reported (trace w)) (writes_accounted (trace w))).
    - intros acc path d err w'. apply visit_outcome.
    - intros acc path d w' Hinv Hd Hnone.
      destruct (visit_lets_through Match fp dryRun acc path d w' Hd Hnone)
        as [_ ->].
      cbn [fst snd]. unfold record. cbn [snd].
      destruct Hinv as (calls & Htr & Hrep).
      exists (calls ++ [SysReadDir path]). cbn [trace].
      split; [now rewrite Htr, <- app_assoc|].
      intros c p Hc Hp. apply in_app_or in Hc as [Hc|[<-|[]]];
        [exact (Hrep c p Hc Hp)|discriminate].
    - unfold record. cbn [snd]. exists [SysLstat dirPath].
      split; [reflexivity|]. intros c p [<-|[]]. discriminate. }
  unfold outcome in H.
  destruct (ProcessDirectory Match fp dirPath dryRun w) as [[results err] w'].
  cbn [fst snd] in H |- *.
  assert (Hrep : writes_reported (trace w) results w' ->
                 exists calls,
                   trace w' = trace w ++ calls /\
                   forall c path, In c calls -> written c = Some path ->
                     (exists res, In res results /\ FilePath res = path) \/
                     (exists cause,
                         err = Some (Errorf ("failed to process " +:+ path) cause))).
  { intros (calls & Htr & Hr). exists calls. split; [exact Htr|].
    intros c p Hc Hp. left. exact (Hr c p Hc Hp). }
  destruct err as [e|]; [|exact (Hrep H)].
  assert (Hacc : writes_accounted (trace w) results e w' ->
                 exists calls,
                   trace w' = trace w ++ calls /\
                   forall c path, In c calls -> written c = Some path ->
                     (exists res, In res results /\ FilePath res = path) \/
                     (exists cause,
                         Some e = Some (Errorf ("failed to process " +:+ path) cause))).
  { intros (calls & Htr & Hr). exists calls. split; [exact Htr|].
    intros c p Hc Hp. destruct (Hr c p Hc Hp) as [Hres|[cause ->]];
      [now left|right; now exists cause]. }
  destruct e; [exact (Hacc H)|exact (Hrep H)|exact (Hacc H)].
Qed.

(** *** A tree without emojis *)

Lemma emoji_free_entry d perm entries name child :
  emoji_free d (Dir perm entries) = true ->
  find_entry name entries = Some child ->
  emoji_free d child = true.
Proof.
  simpl. induction entries as [|[n c] es IH]; [discriminate|].
  intros Hfree Hfind. apply andb_true_iff in Hfree as [Hc Hes].
  simpl in Hfind. destruct (String.eqb n name).
  - now injection Hfind as <-.
  - now apply IH.
Qed.

Lemma emoji_free_lookup d segs :
  forall r n,
    emoji_free d r = true -> lookup segs r = inr n -> emoji_free d n = true.
Proof.
  induction segs as [|name segs IH]; intros r n Hfree Hl.
  - simpl in Hl. now injection Hl as <-.
  - destruct r as [k p data|p entries]; [discriminate|]. simpl in Hl.
    destruct (find_entry name entries) as [child|] eqn:Hf; [|discriminate].
    apply (IH child n); [|exact Hl].
    exact (emoji_free_entry d p entries name child Hfree Hf).
Qed.

Lemma emoji_free_read d path r content :
  emoji_free d r = true -> read_file path r = inr content ->
  FindEmojis d content = [].
Proof.
  intros Hfree Hr.
  destruct (read_file_inv path r content Hr) as (perm & Hl & _).
  pose proof (emoji_free_lookup d _ r _ Hfree Hl) as Hn. simpl in Hn.
  now destruct (FindEmojis d content).
Qed.

Lemma visit_clean Match fp dryRun w0 calls path d err w :
  emoji_free (fpDetector fp) (root w0) = true ->
  root w = root w0 ->
  trace w = trace w0 ++ calls ->
  existsb is_write calls = false ->
  let out := visit Match fp dryRun [] path d err w in
  fst (fst out) = [] /\ root (snd out) = root w0 /\
  exists calls',
    trace (snd out) = trace w0 ++ calls' /\ existsb is_write calls' = false.
Proof.
  intros Hfree Hroot Htr Hnw out. subst out.
  assert (Hinv : ([] : list ProcessResult) = [] /\ root w = root w0 /\
                 exists calls',
                   trace w = trace w0 ++ calls' /\ existsb is_write calls' = false)
    by (split; [reflexivity|]; split; [exact Hroot|now exists calls]).
  unfold visit.
  destruct err as [e|]; [exact Hinv|]. destruct d as [d|]; [|exact Hinv].
  destruct (isExcluded Match fp path); [destruct (IsDir d); exact Hinv|].
  destruct (IsDir d); [exact Hinv|].
  destruct (strings.Contains path "/.git/" || strings.Contains path "/.svn/"
            || strings.Contains path "/.hg/"); [exact Hinv|].
  unfold mbind, OS_bind.
  destruct (shouldSkipFile_effect path w) as [Hw1 _].
  destruct (shouldSkipFile path w) as [skip w1]. cbn [fst snd] in Hw1.
  unfold record in Hw1. cbn [snd] in Hw1. subst w1.
  assert (Hnw1 : existsb is_write (calls ++ [SysStat path]) = false)
    by (rewrite existsb_app, Hnw; reflexivity).
  destruct skip.
  { cbn [fst snd root trace]. split; [reflexivity|]. split; [exact Hroot|].
    exists (calls ++ [SysStat path]).
    split; [now rewrite Htr, <- app_assoc|exact Hnw1]. }
  assert (Hnw2 : existsb is_write ((calls ++ [SysStat path]) ++ [SysReadFile path])
                 = false)
    by (rewrite existsb_app, Hnw1; reflexivity).
  assert (Hend : forall res err',
             fst (fst ((([] : list ProcessResult), (err' : option error)),
                       {| root := root w;
                          trace := (trace w ++ [SysStat path])
                                   ++ [SysReadFile path] |})) = [] /\
             root (snd ((res : list ProcessResult, err'),
                        {| root := root w;
                           trace := (trace w ++ [SysStat path])
                                    ++ [SysReadFile path] |})) = root w0 /\
             exists calls',
               trace (snd ((res, err'),
                           {| root := root w;
                              trace := (trace w ++ [SysStat path])
                                       ++ [SysReadFile path] |}))
               = trace w0 ++ calls' /\ existsb is_write calls' = false).
  { intros res err'. cbn [fst snd root trace]. split; [reflexivity|].
    split; [exact Hroot|].
    exists ((calls ++ [SysStat path]) ++ [SysReadFile path]).
    split; [rewrite Htr; now rewrite <- !app_assoc|exact Hnw2]. }
  set (w1 := {| root := root w; trace := trace w ++ [SysStat path] |}).
  destruct (read_file path (root w1)) as [e|content] eqn:Hr.
  { rewrite (ProcessFile_unreadable fp path dryRun w1 e Hr). apply Hend. }
  assert (Hnone : FindEmojis (fpDetector fp) content = []).
  { apply (emoji_free_read _ path (root w0) content Hfree).
    now rewrite <- Hroot. }
  rewrite (ProcessFile_no_emoji fp path dryRun w1 content Hr Hnone).
  apply Hend.
Qed.

(** X19.  A tree without emojis is left as it is: when no regular file of
    the tree holds an emoji the detector of the processor finds,
    [ProcessDirectory], in preview or not, reports nothing, makes no call of
    [WriteFile] or [Chmod], and returns the file tree unchanged. *)
Theorem ProcessDirectory_on_a_tree_without_emojis (Match : GlobMatcher)
    (fp : FileProcessor) (dirPath : string) (dryRun : bool) (w : world) :
  emoji_free (fpDetector fp) (root w) = true ->
  let out := ProcessDirectory Match fp dirPath dryRun w in
  fst (fst out) = [] /\
  root (snd out) = root w /\
  exists calls,
    trace (snd out) = trace w ++ calls /\ existsb is_write calls = false.
Proof.
  intros Hfree out. subst out.
  change (untouched w (fst (fst (ProcessDirectory Match fp dirPath dryRun w)))
            (snd (ProcessDirectory Match fp dirPath dryRun w))).
  unfold ProcessDirectory.
  apply (WalkDir_inv (visit Match fp dryRun) (untouched w)).
  - intros acc path d err w' (-> & Hroot & calls & Htr & Hnw).
    exact (visit_clean Match fp dryRun w calls path d err w' Hfree Hroot Htr Hnw).
  - intros acc path d w' Hinv Hd Hnone.
    destruct (visit_lets_through Match fp dryRun acc path d w' Hd Hnone)
      as [_ ->].
    destruct Hinv as (-> & Hroot & calls & Htr & Hnw).
    cbn [fst snd]. unfold record. cbn [snd].
    split; [reflexivity|]. split; [exact Hroot|].
    exists (calls ++ [SysReadDir path]). cbn [trace].
    split; [now rewrite Htr, <- app_assoc|].
    rewrite existsb_app, Hnw. reflexivity.
  - unfold record. cbn [snd]. split; [reflexivity|]. split; [reflexivity|].
    now exists [SysLstat dirPath].
Qed.

Lemma ProcessDirectory_on_a_tree_without_emojis_witness :
  emoji_free NewDetector (root clean_world) = true /\
  fst (fst (ProcessDirectory no_glob NewFileProcessor "/" false clean_world)) = [].
Proof.
  split; [reflexivity|].
  apply (ProcessDirectory_on_a_tree_without_emojis no_glob NewFileProcessor "/"
           false clean_world).
  reflexivity.
Defined.

(** *** The errors of the walk *)

Section WalkError.

Context {R : Type}.
Variable fn : R -> string -> option FileInfo -> option error -> OS (R * option error).
Variable dirPath : string.
Variable E : error -> Prop.

Hypothesis fn_error :
  forall acc path d err w e,
    handed dirPath err ->
    snd (fst (fn acc path d err w)) = Some e -> e = SkipDir \/ E e.

Lemma walkDir_error n :
  forall path d acc w e,
    snd (fst (walkDir fn path d n acc w)) = Some e -> e = SkipDir \/ E e.
Proof.
  induction n as [kind perm data|perm entries IH] using node_nested_ind;
    intros path d acc w e.
  - simpl.
    pose proof (fn_error acc path (Some d) None w) as H.
    destruct (fn acc path (Some d) None w) as [[acc1 err] w1]. cbn [fst snd] in *.
    intros He. apply H; [now left|exact He].
  - simpl.
    pose proof (fn_error acc path (Some d) None w) as H.
    destruct (fn acc path (Some d) None w) as [[acc1 err] w1]. cbn [fst snd] in H.
    destruct err as [e1|].
    { specialize (H e1 (or_introl eq_refl) eq_refl).
      destruct e1; cbn [fst snd]; intros [= <-]; exact H. }
    clear H. destruct (readable perm).
    + generalize acc1.
      generalize ({| root := root w1; trace := trace w1 ++ [SysReadDir path] |}).
      induction IH as [|[name child] entries Hchild _ IHentries];
        intros w2 acc2; [discriminate|].
      simpl in Hchild.
      pose proof (Hchild (filepath.Join [path; name]) (info_of name child)
                         acc2 w2) as Hc.
      destruct (walkDir fn (filepath.Join [path; name]) (info_of name child)
                        child acc2 w2) as [[acc' err1] w'].
      cbn [fst snd] in Hc. destruct err1 as [e1|]; [|apply IHentries].
      destruct (Hc e1 eq_refl) as [-> | He1]; [discriminate|].
      destruct e1; cbn [fst snd]; intros [= <-]; now right.
    + match goal with
      | |- context [fn acc1 path (Some d) (Some ?e0) ?w2] =>
        pose proof (fn_error acc1 path (Some d) (Some e0) w2) as H2;
        destruct (fn acc1 path (Some d) (Some e0) w2) as [[acc2 err2] w3]
      end.
      cbn [fst snd] in H2. destruct err2 as [e2|]; [|discriminate].
      assert (He2 : e2 = SkipDir \/ E e2).
      { apply H2; [right; left; now exists path|reflexivity]. }
      destruct e2; cbn [fst snd]; intros [= <-]; exact He2.
Qed.

Lemma WalkDir_error acc w e :
  snd (fst (WalkDir fn dirPath acc w)) = Some e -> E e.
Proof.
  unfold WalkDir. unfold record.
  destruct (lookup (segments dirPath) (os.root w)) as [e0|n].
  - match goal with
    | |- context [fn acc dirPath None (Some ?e1) ?w1] =>
      pose proof (fn_error acc dirPath None (Some e1) w1) as H;
      destruct (fn acc dirPath None (Some e1) w1) as [[acc' err] w']
    end.
    cbn [fst snd] in H. destruct err as [e'|]; [|discriminate].
    assert (He : e' = SkipDir \/ E e').
    { apply H; [right; right; now exists e0|reflexivity]. }
    destruct e'; cbn [fst snd]; intros [= <-];
      destruct He as [He|He]; try discriminate He; exact He.
  - match goal with
    | |- context [walkDir fn dirPath ?d n acc ?w1] =>
      pose proof (walkDir_error n dirPath d acc w1) as H;
      destruct (walkDir fn dirPath d n acc w1) as [[acc' err] w']
    end.
    cbn [fst snd] in H. destruct err as [e'|]; [|discriminate].
    specialize (H e' eq_refl).
    destruct e'; cbn [fst snd]; intros [= <-];
      destruct H as [H|H]; try discriminate H; exact H.
Qed.

End WalkError.

Lemma ProcessFile_error fp path dryRun w e :
  snd (fst (ProcessFile fp path dryRun w)) = Some e -> file_failure path e.
Proof.
  destruct (read_file path (root w)) as [e0|content] eqn:Hr.
  { rewrite (ProcessFile_unreadable fp path dryRun w e0 Hr). intros [= <-].
    exists "failed to read file", "open", e0. split; [reflexivity|now left]. }
  destruct (decide (FindEmojis (fpDetector fp) content = [])) as [Hnone|Hsome].
  { now rewrite (ProcessFile_no_emoji fp path dryRun w content Hr Hnone). }
  destruct dryRun.
  { now rewrite (ProcessFile_preview fp path w content Hr Hsome). }
  rewrite (ProcessFile_rewrite fp path w content Hr Hsome).
  destruct (write_file _ _ _ _) as [e1|r1].
  { intros [= <-]. exists "failed to write cleaned file", "open", e1.
    split; [reflexivity|right; now left]. }
  destruct (chmod _ _ _) as [e2|r2]; [|discriminate].
  intros [= <-]. exists "failed to set file permissions", "chmod", e2.
  split; [reflexivity|right; right; now left].
Qed.

Lemma visit_error Match fp dryRun dirPath results path d err w e :
  handed dirPath err ->
  snd (fst (visit Match fp dryRun results path d err w)) = Some e ->
  e = SkipDir \/ walk_failure dirPath e.
Proof.
  intros Hh. unfold visit.
  destruct err as [e0|].
  { cbn [fst snd]. intros [= <-]. right.
    destruct Hh as [H|[[p [= ->]]|[errno [= ->]]]]; [discriminate| |].
    - right; left. now exists p.
    - left. now exists errno. }
  destruct d as [d|]; [|discriminate].
  destruct (isExcluded Match fp path).
  { destruct (IsDir d); [|discriminate]. intros [= <-]. now left. }
  destruct (IsDir d); [discriminate|].
  destruct (strings.Contains path "/.git/" || strings.Contains path "/.svn/"
            || strings.Contains path "/.hg/"); [discriminate|].
  unfold mbind, OS_bind.
  destruct (shouldSkipFile path w) as [[|] w1]; [discriminate|].
  pose proof (ProcessFile_error fp path dryRun w1) as Hpf.
  destruct (ProcessFile fp path dryRun w1) as [[result perr] w2].
  cbn [fst snd] in Hpf. destruct perr as [e1|].
  - cbn [fst snd]. intros [= <-]. right. right; right.
    exists path, e1. split; [reflexivity|now apply Hpf].
  - destruct (0 <? length (EmojisFound result))%nat; discriminate.
Qed.

(** X20.  The errors of [ProcessDirectory].  When it returns an error, the
    error is one of three: that of the [Lstat] on the root of the walk, as
    it is; that of a directory that cannot be listed, as it is, which ends
    the walk; or [failed to process] with the path of a file, around the
    error of [ProcessFile], which is [failed to read file], [failed to
    write cleaned file] or [failed to set file permissions] around the
    error of the call on that path.  It is never [SkipDir]. *)
Theorem ProcessDirectory_errors (Match : GlobMatcher) (fp : FileProcessor)
    (dirPath : string) (dryRun : bool) (w : world) (e : error) :
  snd (fst (ProcessDirectory Match fp dirPath dryRun w)) = Some e ->
  walk_failure dirPath e /\ e <> SkipDir.
Proof.
  intros He.
  assert (Hw : walk_failure dirPath e).
  { unfold ProcessDirectory in He.
    apply (WalkDir_error (visit Match fp dryRun) dirPath (walk_failure dirPath)
             (fun acc path d err w' e' =>
                visit_error Match fp dryRun dirPath acc path d err w' e')
             [] w e He). }
  split; [exact Hw|].
  intros ->. destruct Hw as [[errno H]|[[p H]|(p & cause & H & _)]]; discriminate.
Qed.

Lemma ProcessDirectory_errors_witness :
  snd (fst (ProcessDirectory no_glob NewFileProcessor "/" true locked_world))
  = Some (PathError "open" "/private" EACCES) /\
  walk_failure "/" (PathError "open" "/private" EACCES).
Proof.
  assert (H : snd (fst (ProcessDirectory no_glob NewFileProcessor "/" true
                          locked_world))
              = Some (PathError "open" "/private" EACCES))
    by reflexivity.
  split; [exact H|].
  apply (ProcessDirectory_errors no_glob NewFileProcessor "/" true locked_world
           _ H).
Defined.

(** ** The command *)

(** *** Content from standard input *)

Lemma TrimSuffix_append (s suffix : string) :
  strings.TrimSuffix (s +:+ suffix) suffix = s.
Proof.
  unfold strings.TrimSuffix.
  assert (Hs : strings.HasSuffix (s +:+ suffix) suffix = true)
    by (apply HasSuffix_spec; now exists s).
  rewrite Hs, length_append.
  replace (String.length s + String.length suffix - String.length suffix)%nat
    with (String.length s) by lia.
  apply take_bytes_append.
Qed.

Lemma lines_joined (l : string) (lines : list string) :
  concat_bytes (map (fun line => line +:+ newline) (l :: lines))
  = strings.Join (l :: lines) newline +:+ newline.
Proof.
  revert l. induction lines as [|l' lines IH]; intros l.
  - simpl. now rewrite append_empty_r.
  - change (concat_bytes (map (fun line => line +:+ newline) (l :: l' :: lines)))
      with ((l +:+ newline)
            +:+ concat_bytes (map (fun line => line +:+ newline) (l' :: lines))).
    rewrite IH.
    change (strings.Join (l :: l' :: lines) newline)
      with (l +:+ newline +:+ strings.Join (l' :: lines) newline).
    now rewrite !append_assoc.
Qed.

Lemma stdin_text_joined (lines : list string) :
  lines <> [] -> stdin_text lines = strings.Join lines newline.
Proof.
  destruct lines as [|l lines]; [contradiction|]. intros _.
  unfold stdin_text. rewrite lines_joined. apply TrimSuffix_append.
Qed.

Lemma lines_not_empty (l : string) (lines : list string) :
  String.eqb (concat_bytes (map (fun line => line +:+ newline) (l :: lines))) ""
  = false.
Proof.
  rewrite lines_joined. apply String.eqb_neq. intros H.
  apply (f_equal String.length) in H. rewrite length_append in H.
  simpl in H. lia.
Qed.

(** The run of [processContentFromStdin] on one line at least, read
    without error. *)
Lemma processContentFromStdin_run (processor : FileProcessor) (dryRun : bool)
    (lines : list string) (w : world) :
  lines <> [] ->
  let d := fpDetector processor in
  let text := strings.Join lines newline in
  processContentFromStdin processor dryRun lines None w
  = match FindEmojis d text with
    | [] => (([], None), w)
    | _ :: _ =>
      (([modified d "<stdin>" text], None),
       {| root := root w;
          trace := trace w ++ (if dryRun then []
                               else [SysPrint (RemoveEmojis d text)]) |})
    end.
Proof.
  intros Hne d text.
  unfold processContentFromStdin. fold (stdin_text lines).
  rewrite (stdin_text_joined lines Hne). fold text. fold d.
  destruct lines as [|l lines]; [contradiction|]. rewrite lines_not_empty.
  unfold modified.
  destruct (FindEmojis d text) as [|g emojis] eqn:Hf; [reflexivity|].
  cbn [length Nat.eqb].
  destruct dryRun; cbn [negb]; unfold mret, OS_ret, mbind, OS_bind, Print, record;
    simpl; [|reflexivity].
  rewrite app_nil_r. now destruct w.
Qed.

(** X21.  [processContentFromStdin], on input read to the end without
    error and of one line at least, works on the lines joined by line
    feeds.  It does not touch the file tree.  Its only call is a print, of
    the cleaned text and nothing else, made exactly when [dryRun] is not set
    and an emoji is found; when nothing is found, nothing is printed and
    nothing is reported, and in preview the text found to hold emojis is
    reported and not printed. *)
Theorem processContentFromStdin_joins_lines (processor : FileProcessor)
    (dryRun : bool) (lines : list string) (w : world) :
  lines <> [] ->
  let d := fpDetector processor in
  let text := strings.Join lines newline in
  let out := processContentFromStdin processor dryRun lines None w in
  root (snd out) = root w /\
  (FindEmojis d text = [] -> out = (([], None), w)) /\
  (FindEmojis d text <> [] ->
   fst out = ([modified d "<stdin>" text], None) /\
   trace (snd out)
   = trace w ++ (if dryRun then [] else [SysPrint (RemoveEmojis d text)])).
Proof.
  intros Hne d text out. subst out.
  rewrite (processContentFromStdin_run processor dryRun lines w Hne).
  fold d. fold text.
  destruct (FindEmojis d text) as [|g emojis].
  - split; [reflexivity|]. split; [reflexivity|contradiction].
  - split; [reflexivity|]. split; [discriminate|]. intros _. split; reflexivity.
Qed.

Lemma processContentFromStdin_joins_lines_witness :
  ["Hi 😊"; "there"] <> [] /\
  root (snd (processContentFromStdin NewFileProcessor false ["Hi 😊"; "there"]
               None scenario_world))
  = root scenario_world.
Proof.
  split; [discriminate|].
  apply (processContentFromStdin_joins_lines NewFileProcessor false
           ["Hi 😊"; "there"] scenario_world). discriminate.
Defined.

(** *** File names from standard input *)

Lemma Fprint_root toStderr text c :
  root (commands.sys (commands.Fprint toStderr text c)) = root (commands.sys c).
Proof. now destruct toStderr. Qed.

Lemma processFilePath_inv TrimSpace processor dryRun lines tree results c line :
  In line lines ->
  paths_invariant TrimSpace dryRun lines tree results (commands.sys c) ->
  paths_invariant TrimSpace dryRun lines tree
    (fst (commands.processFilePath TrimSpace processor dryRun (results, c) line))
    (commands.sys
       (snd (commands.processFilePath TrimSpace processor dryRun (results, c) line))).
Proof.
  intros Hline Hinv. unfold commands.processFilePath.
  destruct (String.eqb (TrimSpace line) ""); [exact Hinv|].
  unfold commands.lift, Stat.
  set (w1 := {| root := root (commands.sys c);
                trace := trace (commands.sys c) ++ [SysStat (TrimSpace line)] |}).
  assert (Hinv1 : paths_invariant TrimSpace dryRun lines tree results w1)
    by exact Hinv.
  set (info := match lookup (segments (TrimSpace line)) (root (commands.sys c)) with
               | inl e => inl (PathError "stat" (TrimSpace line) e)
               | inr n => inr (info_of (filepath.Base (TrimSpace line)) n)
               end).
  assert (Hst : (let '(x, w) :=
                   match lookup (segments (TrimSpace line)) (root (commands.sys c)) with
                   | inl e => (inl (PathError "stat" (TrimSpace line) e), w1)
                   | inr n => (inr (info_of (filepath.Base (TrimSpace line)) n), w1)
                   end in
                 (x, {| commands.sys := w; commands.stderr := commands.stderr c |}))
                = (info, {| commands.sys := w1;
                            commands.stderr := commands.stderr c |})).
  { subst info. now destruct (lookup _ _). }
  fold w1. rewrite Hst. clear Hst.
  destruct (commands.IsNotExist info);
    [cbn [fst snd]; unfold commands.Fprint; exact Hinv1|].
  cbn [commands.sys commands.stderr].
  pose proof (ProcessFile_effect processor (TrimSpace line) dryRun w1)
    as (Hsk & calls & _ & _ & Hdry).
  pose proof (ProcessFile_FilePath processor (TrimSpace line) dryRun w1) as Hpath.
  pose proof (ProcessFile_Modified processor (TrimSpace line) dryRun w1) as Hmod.
  destruct (ProcessFile processor (TrimSpace line) dryRun w1)
    as [[result perr] w2]. cbn [fst snd] in Hsk, Hdry, Hpath, Hmod.
  destruct Hinv1 as (Hsk1 & Hdry1 & Hres).
  assert (Hw2 : forall acc,
             Forall (fun res => EmojisFound res <> [] /\ Modified res = true /\
                        exists line, In line lines /\ FilePath res = TrimSpace line)
                    acc ->
             paths_invariant TrimSpace dryRun lines tree acc w2).
  { intros acc Hacc. split; [congruence|]. split; [|exact Hacc].
    intros Hd. destruct (Hdry Hd) as [_ ->]. auto. }
  destruct perr as [e|].
  { cbn [fst snd]. unfold commands.Fprint. cbn [commands.sys]. now apply Hw2. }
  destruct (0 <? length (EmojisFound result))%nat eqn:Hlen;
    cbn [fst snd commands.sys]; apply Hw2; [|exact Hres].
  apply Forall_app. split; [exact Hres|]. constructor; [|constructor].
  assert (Hne : EmojisFound result <> []).
  { intros He. rewrite He in Hlen. discriminate. }
  split; [exact Hne|]. split; [now apply Hmod|]. now exists line.
Qed.

Lemma processFilePaths_fold TrimSpace processor dryRun lines tree :
  forall todo results c,
    incl todo lines ->
    paths_invariant TrimSpace dryRun lines tree results (commands.sys c) ->
    paths_invariant TrimSpace dryRun lines tree
      (fst (fold_left (commands.processFilePath TrimSpace processor dryRun)
                      todo (results, c)))
      (commands.sys
         (snd (fold_left (commands.processFilePath TrimSpace processor dryRun)
                         todo (results, c)))).
Proof.
  induction todo as [|line todo IH]; intros results c Hincl Hinv; [exact Hinv|].
  cbn [fold_left].
  pose proof (processFilePath_inv TrimSpace processor dryRun lines tree results c
                line (Hincl line (or_introl eq_refl)) Hinv) as Hstep.
  destruct (commands.processFilePath TrimSpace processor dryRun (results, c) line)
    as [results' c'].
  apply IH; [|exact Hstep]. intros x Hx. apply Hincl. now right.
Qed.

(** X22.  [processFilePathsFromStdin] warns and goes on: its only error is
    that of the scanner, a file that is missing or cannot be processed
    never fails the run.  Every result is of a file named on a line of the
    input, trimmed, lists at least one emoji and says [Modified].  In
    preview the file tree is left as it was, and in every case it keeps its
    shape: no file is created, removed or renamed. *)
Theorem processFilePathsFromStdin_warns_and_goes_on (TrimSpace : string -> string)
    (processor : FileProcessor) (dryRun : bool) (lines : list string)
    (scanErr : option error) (c : commands.console) :
  let out :=
    commands.processFilePathsFromStdin TrimSpace processor dryRun lines scanErr c in
  (snd (fst out) = None <-> scanErr = None) /\
  skeleton (root (commands.sys (snd out))) = skeleton (root (commands.sys c)) /\
  (dryRun = true -> root (commands.sys (snd out)) = root (commands.sys c)) /\
  (forall res, In res (fst (fst out)) ->
     EmojisFound res <> [] /\ Modified res = true /\
     exists line, In line lines /\ FilePath res = TrimSpace line).
Proof.
  intros out. subst out. unfold commands.processFilePathsFromStdin.
  assert (Hinv0 : paths_invariant TrimSpace dryRun lines (root (commands.sys c))
                    [] (commands.sys c)).
  { split; [reflexivity|]. split; [reflexivity|constructor]. }
  pose proof (processFilePaths_fold TrimSpace processor dryRun lines
                (root (commands.sys c)) lines [] c (incl_refl lines) Hinv0)
    as (Hsk & Hdry & Hres).
  destruct (fold_left (commands.processFilePath TrimSpace processor dryRun)
                      lines ([], c)) as [results c'].
  cbn [fst snd] in Hsk, Hdry, Hres.
  assert (Hall : forall res, In res results ->
             EmojisFound res <> [] /\ Modified res = true /\
             exists line, In line lines /\ FilePath res = TrimSpace line).
  { rewrite List.Forall_forall in Hres. exact Hres. }
  destruct scanErr as [err|]; cbn [fst snd].
  - split; [split; discriminate|]. split; [exact Hsk|]. split; [exact Hdry|].
    intros res [].
  - split; [tauto|]. auto.
Qed.

Lemma processFilePathsFromStdin_warns_and_goes_on_witness :
  root (commands.sys
          (snd (commands.processFilePathsFromStdin (fun s => s) NewFileProcessor
                  true ["a.txt"; "missing.txt"] None
                  {| commands.sys := scenario_world; commands.stderr := [] |})))
  = scenario_tree.
Proof.
  apply (processFilePathsFromStdin_warns_and_goes_on (fun s => s) NewFileProcessor
           true ["a.txt"; "missing.txt"] None
           {| commands.sys := scenario_world; commands.stderr := [] |}).
  reflexivity.
Defined.

(** X23.  A file named on standard input is processed whatever the
    exclusion patterns, whatever its extension and whatever the directories
    in its name: [processFilePathsFromStdin] applies none of the filters of
    [ProcessDirectory].  Here in preview, for one line that names a file
    that can be read and holds an emoji. *)
Theorem processFilePathsFromStdin_applies_no_filter (TrimSpace : string -> string)
    (processor : FileProcessor) (line path content : string)
    (c : commands.console) :
  TrimSpace line = path ->
  path <> "" ->
  read_file path (root (commands.sys c)) = inr content ->
  FindEmojis (fpDetector processor) content <> [] ->
  fst (commands.processFilePathsFromStdin TrimSpace processor true [line] None c)
  = ([modified (fpDetector processor) path content], None).
Proof.
  intros Htrim Hne Hr Hsome.
  unfold commands.processFilePathsFromStdin. cbn [fold_left].
  unfold commands.processFilePath. rewrite Htrim.
  apply String.eqb_neq in Hne. rewrite Hne.
  destruct (read_file_inv path (root (commands.sys c)) content Hr) as (perm & Hl & _).
  unfold commands.lift, Stat. rewrite Hl. cbn [commands.IsNotExist commands.sys].
  match goal with
  | |- context [ProcessFile processor path true ?w1] =>
    rewrite (ProcessFile_preview processor path w1 content Hr Hsome)
  end.
  unfold modified at 1. cbn [EmojisFound].
  destruct (FindEmojis (fpDetector processor) content); [contradiction|].
  reflexivity.
Qed.

Lemma processFilePathsFromStdin_applies_no_filter_witness :
  isExcluded no_glob (NewFileProcessorWithExcludes ["a.txt"]) "a.txt" = true /\
  fst (commands.processFilePathsFromStdin (fun s => s)
         (NewFileProcessorWithExcludes ["a.txt"]) true ["a.txt"] None
         {| commands.sys := scenario_world; commands.stderr := [] |})
  = ([modified NewDetector "a.txt" "Hi 😊"], None).
Proof.
  split; [reflexivity|].
  apply (processFilePathsFromStdin_applies_no_filter (fun s => s)
           (NewFileProcessorWithExcludes ["a.txt"]) "a.txt" "a.txt" "Hi 😊");
    [reflexivity|discriminate|reflexivity|discriminate].
Defined.

Lemma processFilePathsFromStdin_tree TrimSpace processor dryRun lines scanErr c :
  let out :=
    commands.processFilePathsFromStdin TrimSpace processor dryRun lines scanErr c in
  skeleton (root (commands.sys (snd out))) = skeleton (root (commands.sys c)) /\
  (dryRun = true -> root (commands.sys (snd out)) = root (commands.sys c)).
Proof.
  intros out. subst out. unfold commands.processFilePathsFromStdin.
  assert (Hinv0 : paths_invariant TrimSpace dryRun lines (root (commands.sys c))
                    [] (commands.sys c)).
  { split; [reflexivity|]. split; [reflexivity|constructor]. }
  pose proof (processFilePaths_fold TrimSpace processor dryRun lines
                (root (commands.sys c)) lines [] c (incl_refl lines) Hinv0)
    as (Hsk & Hdry & _).
  destruct (fold_left (commands.processFilePath TrimSpace processor dryRun)
                      lines ([], c)) as [results c'].
  destruct scanErr; now split.
Qed.

(** *** The command and the file tree *)

Lemma processContentFromStdin_root processor dryRun lines scanErr w :
  root (snd (processContentFromStdin processor dryRun lines scanErr w)) = root w.
Proof.
  unfold processContentFromStdin.
  destruct scanErr as [e|]; [reflexivity|].
  destruct (String.eqb _ ""); [reflexivity|].
  destruct (length _ =? 0)%nat; [reflexivity|].
  now destruct dryRun.
Qed.

Lemma processInput_tree Match TrimSpace dirPath config lines scanErr c :
  let out := commands.processInput Match TrimSpace dirPath config lines scanErr c in
  skeleton (root (commands.sys (snd out))) = skeleton (root (commands.sys c)) /\
  (commands.dryRun config = true ->
   root (commands.sys (snd out)) = root (commands.sys c)).
Proof.
  intros out. subst out. unfold commands.processInput.
  set (processor := NewFileProcessorWithExcludesAndAllowed _ _).
  destruct (String.eqb dirPath "-").
  - destruct (commands.listOnly config && negb (commands.filesFromStdin config));
      [now split|].
    destruct (commands.filesFromStdin config).
    + pose proof (processFilePathsFromStdin_tree TrimSpace processor
                    (commands.dryRun config) lines scanErr c) as H.
      destruct (commands.processFilePathsFromStdin TrimSpace processor
                  (commands.dryRun config) lines scanErr c) as [r c'].
      exact H.
    + unfold commands.lift.
      pose proof (processContentFromStdin_root processor (commands.dryRun config)
                    lines scanErr (commands.sys c)) as H.
      destruct (processContentFromStdin processor (commands.dryRun config)
                  lines scanErr (commands.sys c)) as [r w'].
      cbn [fst snd commands.sys] in *. rewrite H. now split.
  - set (w1 := {| root := root (commands.sys c);
                  trace := trace (commands.sys c) ++ [SysStat dirPath] |}).
    assert (Hst : exists info,
               commands.lift (Stat dirPath) c
               = (info, {| commands.sys := w1;
                           commands.stderr := commands.stderr c |})).
    { unfold commands.lift, Stat. fold w1.
      destruct (lookup (segments dirPath) (root (commands.sys c)));
        eexists; reflexivity. }
    destruct Hst as [info ->].
    destruct (commands.IsNotExist info); [now split|].
    unfold commands.lift. cbn [commands.sys].
    pose proof (ProcessDirectory_invariant Match processor dirPath
                  (commands.dryRun config) w1) as (Hsk & Hdry & _).
    destruct (ProcessDirectory Match processor dirPath
                (commands.dryRun config) w1) as [r w'].
    cbn [fst snd commands.sys] in *. now split.
Qed.

Lemma fold_Fprint_root {A : Type} (f : commands.console -> A -> commands.console)
    (l : list A) :
  (forall c x, root (commands.sys (f c x)) = root (commands.sys c)) ->
  forall c, root (commands.sys (fold_left f l c)) = root (commands.sys c).
Proof.
  intros Hf. induction l as [|x l IH]; intros c; [reflexivity|].
  simpl. now rewrite IH, Hf.
Qed.

Lemma report_result_root dryRun toStderr c result :
  root (commands.sys (commands.report_result dryRun toStderr c result))
  = root (commands.sys c).
Proof.
  unfold commands.report_result.
  destruct (Modified result); [destruct dryRun|]; now rewrite !Fprint_root.
Qed.

Lemma outputResults_root MarshalIndent results config isStdinContent c :
  root (commands.sys
          (snd (commands.outputResults MarshalIndent results config
                  isStdinContent c)))
  = root (commands.sys c).
Proof.
  assert (Hd : forall dry toStderr,
             root (commands.sys
                     (snd (commands.outputDetailedResults results dry toStderr c)))
             = root (commands.sys c)).
  { intros dry toStderr. unfold commands.outputDetailedResults.
    destruct dry; cbn [snd]; rewrite !Fprint_root;
      rewrite (fold_Fprint_root _ _ (report_result_root _ toStderr));
      apply Fprint_root. }
  unfold commands.outputResults.
  destruct (String.eqb (commands.output config) "json").
  { unfold commands.outputJSON. destruct (MarshalIndent _); [reflexivity|].
    apply Fprint_root. }
  destruct isStdinContent.
  { destruct (commands.quiet config || _); [reflexivity|apply Hd]. }
  destruct (commands.quiet config && _); [reflexivity|].
  destruct (commands.len results =? 0).
  { destruct (negb _); [apply Fprint_root|reflexivity]. }
  destruct (commands.listOnly config); [|apply Hd].
  unfold commands.outputFileList. cbn [snd].
  apply fold_Fprint_root. intros c' x. apply Fprint_root.
Qed.

(** X24.  In preview the command changes no file: when the flags parsed
    have [dryRun] set, the file tree after [DestroyEmojis] is the file tree
    [parseFlags] has left, for a directory, for file names on standard
    input and for content on standard input, in every output format and
    whether the command fails or not.  Without [dryRun] the tree keeps its
    shape: the command creates, removes and renames nothing. *)
Theorem DestroyEmojis_preview_changes_no_file
    (MarshalIndent : commands.JSONOutput -> commands.error + string)
    (Match : GlobMatcher) (TrimSpace : string -> string)
    (parseFlags : commands.CLI (commands.error + commands.commandConfig))
    (dirPath : string) (lines : list string) (scanErr : option error)
    (c : commands.console) :
  let out := commands.DestroyEmojis MarshalIndent Match TrimSpace parseFlags
               dirPath lines scanErr c in
  skeleton (root (commands.sys (snd out)))
  = skeleton (root (commands.sys (snd (parseFlags c)))) /\
  ((forall config, fst (parseFlags c) = inr config ->
                   commands.dryRun config = true) ->
   root (commands.sys (snd out)) = root (commands.sys (snd (parseFlags c)))).
Proof.
  intros out. subst out. unfold commands.DestroyEmojis.
  destruct (parseFlags c) as [[err|config] c1]; cbn [fst snd]; [now split|].
  pose proof (processInput_tree Match TrimSpace dirPath config lines scanErr c1)
    as [Hsk Hdry].
  destruct (commands.processInput Match TrimSpace dirPath config lines scanErr c1)
    as [[results err] c2]. cbn [fst snd] in Hsk, Hdry.
  destruct err as [e|]; cbn [snd].
  - split; [exact Hsk|]. intros H. apply Hdry. now apply H.
  - rewrite outputResults_root. split; [exact Hsk|].
    intros H. apply Hdry. now apply H.
Qed.

(** *** The command as a filter *)

Lemma fold_report_stderr dryRun results :
  forall c,
    commands.sys (fold_left (commands.report_result dryRun true) results c)
    = commands.sys c.
Proof.
  induction results as [|result results IH]; intros c; [reflexivity|].
  cbn [fold_left]. rewrite IH. unfold commands.report_result.
  destruct (Modified result); [destruct dryRun|]; reflexivity.
Qed.

Lemma outputDetailedResults_stderr results dryRun c :
  fst (commands.outputDetailedResults results dryRun true c) = None /\
  commands.sys (snd (commands.outputDetailedResults results dryRun true c))
  = commands.sys c.
Proof.
  unfold commands.outputDetailedResults.
  destruct dryRun; cbn [fst snd]; (split; [reflexivity|]);
    unfold commands.Fprint at 1; cbn [commands.sys];
    try (unfold commands.Fprint at 1; cbn [commands.sys]);
    now rewrite fold_report_stderr.
Qed.

(** X25.  The command as a filter, [emoji-sad -] with the text output and
    without [--list-only]: given one line at least on standard input,
    read without error, it succeeds, and what it writes to standard output
    is the cleaned text alone, in one piece, when [dryRun] is not set and an
    emoji is found, and nothing at all otherwise; in particular a text
    without emojis is not copied to the output.  The report goes to
    standard error, and there is none with [quiet] or when nothing is
    found. *)
Theorem DestroyEmojis_filters_standard_input
    (MarshalIndent : commands.JSONOutput -> commands.error + string)
    (Match : GlobMatcher) (TrimSpace : string -> string)
    (parseFlags : commands.CLI (commands.error + commands.commandConfig))
    (lines : list string) (c : commands.console)
    (config : commands.commandConfig) :
  fst (parseFlags c) = inr config ->
  commands.filesFromStdin config = false ->
  commands.listOnly config = false ->
  String.eqb (commands.output config) "json" = false ->
  lines <> [] ->
  let c1 := snd (parseFlags c) in
  let d := NewDetectorWithAllowed (commands.allowedEmojis config) in
  let text := strings.Join lines newline in
  let out := commands.DestroyEmojis MarshalIndent Match TrimSpace parseFlags
               "-" lines None c in
  fst out = None /\
  root (commands.sys (snd out)) = root (commands.sys c1) /\
  trace (commands.sys (snd out))
  = trace (commands.sys c1)
    ++ (if commands.dryRun config then []
        else match FindEmojis d text with
             | [] => []
             | _ :: _ => [SysPrint (RemoveEmojis d text)]
             end) /\
  (commands.quiet config = true \/ FindEmojis d text = [] ->
   commands.stderr (snd out) = commands.stderr c1).
Proof.
  intros Hparse Hfiles Hlist Hjson Hne c1 d text out. subst out c1.
  unfold commands.DestroyEmojis.
  destruct (parseFlags c) as [parsed c1]. cbn [fst snd] in Hparse |- *. subst parsed.
  unfold commands.processInput. rewrite Hfiles, Hlist.
  cbn [String.eqb Ascii.eqb Bool.eqb andb negb].
  unfold commands.lift.
  rewrite (processContentFromStdin_run _ (commands.dryRun config) lines
             (commands.sys c1) Hne).
  cbn [fpDetector NewFileProcessorWithExcludesAndAllowed]. fold d. fold text.
  unfold commands.outputResults. rewrite Hjson.
  destruct (FindEmojis d text) as [|g emojis] eqn:Hf.
  - cbn [commands.sys_error fst snd]. rewrite orb_true_r. cbn [fst snd commands.sys].
    split; [reflexivity|]. split; [reflexivity|].
    split; [now destruct (commands.dryRun config); rewrite app_nil_r|reflexivity].
  - cbn [commands.sys_error fst snd].
    replace (commands.len [modified d "<stdin>" text] =? 0) with false by reflexivity.
    rewrite orb_false_r.
    destruct (commands.quiet config) eqn:Hq.
    + cbn [fst snd commands.sys commands.stderr root trace].
      split; [reflexivity|]. split; [reflexivity|]. split; [reflexivity|reflexivity].
    + match goal with
      | |- context [commands.outputDetailedResults ?rs ?dry true ?c2] =>
        destruct (outputDetailedResults_stderr rs dry c2) as [Hnone Hsys]
      end.
      rewrite Hnone, Hsys. cbn [commands.sys root trace].
      split; [reflexivity|]. split; [reflexivity|]. split; [reflexivity|].
      intros [Hq'|Hf']; discriminate.
Qed.

Lemma DestroyEmojis_filters_standard_input_witness :
  ["Hi 😊"; "there"] <> [] /\
  fst (commands.DestroyEmojis (fun _ => inr "") no_glob (fun s => s)
         (fun c => (inr filter_config, c)) "-" ["Hi 😊"; "there"] None
         {| commands.sys := scenario_world; commands.stderr := [] |})
  = None.
Proof.
  split; [discriminate|].
  apply (DestroyEmojis_filters_standard_input (fun _ => inr "") no_glob
           (fun s => s) (fun c => (inr filter_config, c)) ["Hi 😊"; "there"]
           {| commands.sys := scenario_world; commands.stderr := [] |}
           filter_config);
    [reflexivity|reflexivity|reflexivity|reflexivity|discriminate].
Defined.

(** *** The list of files and the JSON report *)

Lemma fold_Fprint_stdout (results : list ProcessResult) :
  forall c,
    fold_left (fun c result => commands.Fprint false (FilePath result +:+ newline) c)
              results c
    = {| commands.sys :=
           {| root := root (commands.sys c);
              trace := trace (commands.sys c)
                       ++ map (fun result => SysPrint (FilePath result +:+ newline))
                              results |};
         commands.stderr := commands.stderr c |}.
Proof.
  induction results as [|result results IH]; intros c.
  - simpl. rewrite app_nil_r. now destruct c as [[r t] e].
  - cbn [fold_left]. rewrite IH. unfold commands.Fprint, Print, record.
    cbn [snd commands.sys commands.stderr root trace map].
    now rewrite <- app_assoc.
Qed.

(** X26.  [emoji-sad --list-only DIR] with the text output: when the
    directory is there and the walk ends without error, the command
    succeeds, and after the walk it prints the path of every file reported,
    each on a line of its own, in the order of the walk, and nothing else,
    with [quiet] or without, and nothing at all when no file is reported.
    Nothing goes to standard error.  The flag changes what is printed
    only: the walk is the one of [ProcessDirectory] with the [dryRun] of
    the flags. *)
Theorem DestroyEmojis_list_only
    (MarshalIndent : commands.JSONOutput -> commands.error + string)
    (Match : GlobMatcher) (TrimSpace : string -> string)
    (parseFlags : commands.CLI (commands.error + commands.commandConfig))
    (dirPath : string) (lines : list string) (scanErr : option error)
    (c : commands.console) (config : commands.commandConfig) :
  fst (parseFlags c) = inr config ->
  commands.listOnly config = true ->
  String.eqb (commands.output config) "json" = false ->
  String.eqb dirPath "-" = false ->
  let c1 := snd (parseFlags c) in
  let processor :=
    NewFileProcessorWithExcludesAndAllowed (commands.exclude config)
      (commands.allowedEmojis config) in
  let walk :=
    ProcessDirectory Match processor dirPath (commands.dryRun config)
      (snd (Stat dirPath (commands.sys c1))) in
  commands.IsNotExist (fst (Stat dirPath (commands.sys c1))) = false ->
  snd (fst walk) = None ->
  commands.DestroyEmojis MarshalIndent Match TrimSpace parseFlags
    dirPath lines scanErr c
  = (None,
     {| commands.sys :=
          {| root := root (snd walk);
             trace := trace (snd walk)
                      ++ map (fun res => SysPrint (FilePath res +:+ newline))
                             (fst (fst walk)) |};
        commands.stderr := commands.stderr c1 |}).
Proof.
  intros Hparse Hlist Hjson Hdir c1 processor walk Hstat Hwalk. subst walk c1.
  unfold commands.DestroyEmojis.
  destruct (parseFlags c) as [parsed c1]. cbn [fst snd] in *. subst parsed.
  unfold commands.processInput. rewrite Hdir. fold processor.
  unfold commands.lift at 1.
  destruct (Stat dirPath (commands.sys c1)) as [info w1]. cbn [fst snd] in *.
  rewrite Hstat. unfold commands.lift. cbn [commands.sys commands.stderr].
  destruct (ProcessDirectory Match processor dirPath (commands.dryRun config) w1)
    as [[results err] w2]. cbn [fst snd] in *. subst err.
  cbn [commands.sys_error fst snd].
  unfold commands.outputResults. rewrite Hjson, Hlist.
  cbn [andb negb]. rewrite andb_false_r.
  destruct results as [|res results].
  - cbn [commands.len length Z.of_nat Z.eqb map]. rewrite app_nil_r.
    now destruct w2.
  - replace (commands.len (res :: results) =? 0) with false
      by (unfold commands.len; cbn [length]; symmetry; apply Z.eqb_neq; lia).
    unfold commands.outputFileList. now rewrite fold_Fprint_stdout.
Qed.

Lemma DestroyEmojis_list_only_witness :
  commands.listOnly list_config = true /\
  commands.DestroyEmojis (fun _ => inr "") no_glob (fun s => s)
    (fun c => (inr list_config, c)) "/" [] None
    {| commands.sys := scenario_world; commands.stderr := [] |}
  = (None,
     {| commands.sys :=
          {| root := scenario_tree;
             trace := [ SysStat "/"; SysLstat "/"; SysReadDir "/";
                        SysStat "/a.txt"; SysReadFile "/a.txt";
                        SysStat "/b.txt"; SysReadFile "/b.txt";
                        SysPrint ("/a.txt" +:+ newline) ] |};
        commands.stderr := [] |}).
Proof.
  split; [reflexivity|].
  apply (DestroyEmojis_list_only (fun _ => inr "") no_glob (fun s => s)
           (fun c => (inr list_config, c)) "/" [] None
           {| commands.sys := scenario_world; commands.stderr := [] |}
           list_config);
    reflexivity.
Defined.

Lemma total_emojis (results : list ProcessResult) :
  forall total,
    fold_left (fun total result => total + commands.len (EmojisFound result))
              results total
    = total + fold_right Z.add 0
                (map (fun result => commands.len (EmojisFound result)) results).
Proof.
  induction results as [|result results IH]; intros total; simpl; [lia|].
  rewrite IH. lia.
Qed.

(** X27.  The JSON report of a walk.  The summary agrees with the list of
    files: [total_files] is the number of entries and [total_emojis] is
    the sum of the numbers of emojis found in them.  For the results of
    [ProcessDirectory] every entry has [modified] true and one emoji at
    least, so that [total_emojis] is not less than [total_files]. *)
Theorem jsonOutput_of_ProcessDirectory (Match : GlobMatcher) (fp : FileProcessor)
    (dirPath : string) (dryRun : bool) (w : world)
    (config : commands.commandConfig) :
  let results := fst (fst (ProcessDirectory Match fp dirPath dryRun w)) in
  let report := commands.jsonOutput results config in
  commands.TotalFiles (commands.Summary report)
  = commands.len (commands.Files report) /\
  commands.TotalEmojis (commands.Summary report)
  = fold_right Z.add 0
      (map (fun f => commands.len (commands.emojis_found f))
           (commands.Files report)) /\
  Forall (fun f => commands.modified f = true /\ commands.emojis_found f <> [])
         (commands.Files report) /\
  commands.TotalFiles (commands.Summary report)
  <= commands.TotalEmojis (commands.Summary report).
Proof.
  intros results report.
  assert (Hall : Forall (reported Match fp) results)
    by now destruct (ProcessDirectory_invariant Match fp dirPath dryRun w)
         as (_ & _ & _ & H).
  subst report. generalize results Hall. clear results Hall.
  intros results Hall. unfold commands.jsonOutput.
  cbn [commands.Summary commands.Files commands.TotalFiles commands.TotalEmojis].
  rewrite total_emojis, Z.add_0_l, map_map. cbn [commands.emojis_found].
  unfold commands.len at 1 2. rewrite length_map.
  split; [reflexivity|]. split; [reflexivity|].
  induction Hall as [|res results (_ & Hne & Hmod) _ [IHall IHle]];
    [split; [constructor|reflexivity]|].
  split.
  - cbn [map]. constructor; [|exact IHall]. cbn [commands.modified
      commands.emojis_found]. now split.
  - cbn [map fold_right length]. unfold commands.len in *.
    destruct (EmojisFound res) as [|g l]; [contradiction|]. cbn [length]. lia.
Qed.

(** *** A directory that is not there *)

(** X28.  [processInput] on a path, not [-], that names nothing in the
    file tree returns an error and no result, and leaves the file tree as
    it is.  When the path is missing the error is [directory does not
    exist], made after one [Stat], and there is no walk; when a file stands
    where the path has a directory, the [Stat] error is not one of a
    missing file, the walk starts, and its error, of the [Lstat] on the
    root, is returned as it is. *)
Theorem processInput_missing_directory (Match : GlobMatcher)
    (TrimSpace : string -> string) (dirPath : string)
    (config : commands.commandConfig) (lines : list string)
    (scanErr : option error) (c : commands.console) (e : Errno) :
  String.eqb dirPath "-" = false ->
  lookup (segments dirPath) (root (commands.sys c)) = inl e ->
  commands.processInput Match TrimSpace dirPath config lines scanErr c
  = (([], Some (match e with
                | ENOENT => commands.New ("directory does not exist: " +:+ dirPath)
                | _ => commands.Sys (PathError "lstat" dirPath e)
                end)),
     {| commands.sys :=
          {| root := root (commands.sys c);
             trace := trace (commands.sys c)
                      ++ SysStat dirPath
                         :: match e with
                            | ENOENT => []
                            | _ => [SysLstat dirPath]
                            end |};
        commands.stderr := commands.stderr c |}).
Proof.
  intros Hdir Hl. unfold commands.processInput. rewrite Hdir.
  unfold commands.lift at 1. unfold Stat. rewrite Hl.
  assert (Hwalk : forall processor dryRun,
             ProcessDirectory Match processor dirPath dryRun
               {| root := root (commands.sys c);
                  trace := trace (commands.sys c) ++ [SysStat dirPath] |}
             = (([], Some (PathError "lstat" dirPath e)),
                {| root := root (commands.sys c);
                   trace := (trace (commands.sys c) ++ [SysStat dirPath])
                            ++ [SysLstat dirPath] |})).
  { intros processor dryRun. unfold ProcessDirectory, WalkDir, record.
    cbn [root trace]. rewrite Hl. reflexivity. }
  destruct e; cbn [commands.IsNotExist]; try reflexivity;
    unfold commands.lift; cbn [commands.sys commands.stderr];
    rewrite Hwalk; cbn [commands.sys_error fst snd]; now rewrite <- app_assoc.
Qed.

Lemma processInput_missing_directory_witness :
  lookup (segments "/none") (root scenario_world) = inl ENOENT /\
  fst (commands.processInput no_glob (fun s => s) "/none" list_config [] None
         {| commands.sys := scenario_world; commands.stderr := [] |})
  = ([], Some (commands.New "directory does not exist: /none")).
Proof.
  split; [reflexivity|].
  now rewrite (processInput_missing_directory no_glob (fun s => s) "/none"
                 list_config [] None
                 {| commands.sys := scenario_world; commands.stderr := [] |}
                 ENOENT).
Defined.

(** *** Every write is accounted for, for file names on standard input also *)

Lemma processFilePath_accounted TrimSpace processor dryRun c0 results c line :
  paths_accounted c0 results c ->
  paths_accounted c0
    (fst (commands.processFilePath TrimSpace processor dryRun (results, c) line))
    (snd (commands.processFilePath TrimSpace processor dryRun (results, c) line)).
Proof.
  intros Hinv. unfold commands.processFilePath.
  destruct (String.eqb (TrimSpace line) ""); [exact Hinv|].
  set (path := TrimSpace line).
  set (w1 := {| root := root (commands.sys c);
                trace := trace (commands.sys c) ++ [SysStat path] |}).
  assert (Hst : exists info,
             commands.lift (Stat path) c
             = (info, {| commands.sys := w1;
                         commands.stderr := commands.stderr c |})).
  { unfold commands.lift, Stat. fold w1.
    destruct (lookup (segments path) (root (commands.sys c)));
      eexists; reflexivity. }
  destruct Hst as [info ->].
  destruct Hinv as (calls & warnings & Htr & Herr & Hrep).
  assert (Hrep1 : forall call p, In call (calls ++ [SysStat path]) ->
                    written call = Some p ->
                    (exists res, In res results /\ FilePath res = p) \/
                    (exists text,
                        In ("Warning: failed to process " +:+ p +:+ ": " +:+ text)
                           warnings)).
  { intros call p Hc Hp. apply in_app_or in Hc as [Hc|[<-|[]]];
      [exact (Hrep call p Hc Hp)|discriminate]. }
  assert (Htr1 : trace w1 = trace (commands.sys c0) ++ calls ++ [SysStat path]).
  { subst w1. cbn [trace]. now rewrite Htr, <- app_assoc. }
  destruct (commands.IsNotExist info).
  { cbn [fst snd]. unfold commands.Fprint. cbn [commands.sys commands.stderr].
    exists (calls ++ [SysStat path]),
           (warnings ++ ["Warning: file does not exist: " +:+ path +:+ newline]).
    split; [exact Htr1|]. split; [now rewrite Herr, <- app_assoc|].
    intros call p Hc Hp. destruct (Hrep1 call p Hc Hp) as [H|[text H]];
      [now left|right; exists text; apply in_or_app; now left]. }
  unfold commands.lift. cbn [commands.sys commands.stderr].
  destruct (ProcessFile_calls processor path dryRun w1)
    as (calls2 & Htr2 & Hw2 & Hfound).
  pose proof (ProcessFile_FilePath processor path dryRun w1) as Hpath.
  destruct (ProcessFile processor path dryRun w1) as [[result perr] w2].
  cbn [fst snd] in Htr2, Hfound, Hpath.
  rewrite List.Forall_forall in Hw2.
  assert (Htrace : trace w2
                   = trace (commands.sys c0)
                     ++ (calls ++ [SysStat path]) ++ SysReadFile path :: calls2).
  { rewrite Htr2, Htr1. now rewrite <- !app_assoc. }
  assert (Hcases : forall call, In call ((calls ++ [SysStat path])
                                         ++ SysReadFile path :: calls2) ->
                                In call (calls ++ [SysStat path])
                                \/ call = SysReadFile path \/ In call calls2).
  { intros call Hc. apply in_app_or in Hc as [Hc|[<-|Hc]]; auto. }
  destruct perr as [e|].
  - cbn [fst snd]. unfold commands.Fprint. cbn [commands.sys commands.stderr].
    exists ((calls ++ [SysStat path]) ++ SysReadFile path :: calls2),
           (warnings ++ ["Warning: failed to process " +:+ path +:+ ": "
                         +:+ commands.error_string e +:+ newline]).
    split; [exact Htrace|]. split; [now rewrite Herr, <- app_assoc|].
    intros call p Hc Hp. destruct (Hcases call Hc) as [Hc1|[-> |Hc2]].
    + destruct (Hrep1 call p Hc1 Hp) as [H|[text H]];
        [now left|right; exists text; apply in_or_app; now left].
    + discriminate.
    + right. rewrite (Hw2 call Hc2) in Hp. injection Hp as <-.
      exists (commands.error_string e +:+ newline).
      apply in_or_app. right. now left.
  - destruct (EmojisFound result) as [|g emojis] eqn:Hf;
      cbn [length Nat.ltb Nat.leb fst snd];
      exists ((calls ++ [SysStat path]) ++ SysReadFile path :: calls2), warnings;
      (split; [exact Htrace|]); (split; [exact Herr|]);
      intros call p Hc Hp; destruct (Hcases call Hc) as [Hc1|[-> |Hc2]];
      try discriminate.
    + exact (Hrep1 call p Hc1 Hp).
    + destruct calls2 as [|c2 l2]; [destruct Hc2|]. now destruct Hfound.
    + destruct (Hrep1 call p Hc1 Hp) as [(res & Hres & Hp')|H]; [|now right].
      left. exists res. split; [apply in_or_app; now left|exact Hp'].
    + left. exists result. split; [apply in_or_app; right; now left|].
      rewrite (Hw2 call Hc2) in Hp. injection Hp as <-. exact Hpath.
Qed.

Lemma processFilePaths_accounted TrimSpace processor dryRun c0 lines :
  forall results c,
    paths_accounted c0 results c ->
    paths_accounted c0
      (fst (fold_left (commands.processFilePath TrimSpace processor dryRun)
                      lines (results, c)))
      (snd (fold_left (commands.processFilePath TrimSpace processor dryRun)
                      lines (results, c))).
Proof.
  induction lines as [|line lines IH]; intros results c Hinv; [exact Hinv|].
  cbn [fold_left].
  pose proof (processFilePath_accounted TrimSpace processor dryRun c0
                results c line Hinv) as Hstep.
  destruct (commands.processFilePath TrimSpace processor dryRun (results, c) line)
    as [results' c'].
  now apply IH.
Qed.

(** X29.  Every write of [processFilePathsFromStdin] is accounted for, when
    the input is read to its end without error: the path of every
    [WriteFile] and every [Chmod] it has made is the [FilePath] of one of
    the results, or the path in a warning [failed to process] written to
    standard error.  This holds whatever the outcome of the calls: it
    speaks of the calls made, not of the state of the files. *)
Theorem processFilePathsFromStdin_accounts_for_every_write
    (TrimSpace : string -> string) (processor : FileProcessor) (dryRun : bool)
    (lines : list string) (c : commands.console) :
  let out :=
    commands.processFilePathsFromStdin TrimSpace processor dryRun lines None c in
  exists calls warnings,
    trace (commands.sys (snd out)) = trace (commands.sys c) ++ calls /\
    commands.stderr (snd out) = commands.stderr c ++ warnings /\
    forall call path, In call calls -> written call = Some path ->
      (exists res, In res (fst (fst out)) /\ FilePath res = path) \/
      (exists text,
          In ("Warning: failed to process " +:+ path +:+ ": " +:+ text) warnings).
Proof.
  intros out. subst out. unfold commands.processFilePathsFromStdin.
  assert (Hinv0 : paths_accounted c [] c).
  { exists [], []. split; [now rewrite app_nil_r|].
    split; [now rewrite app_nil_r|]. intros call path []. }
  pose proof (processFilePaths_accounted TrimSpace processor dryRun c lines [] c
                Hinv0) as H.
  destruct (fold_left (commands.processFilePath TrimSpace processor dryRun)
                      lines ([], c)) as [results c'].
  exact H.
Qed.

(** *** The JSON report of the filter *)

(** X30.  The filter with the JSON output, [emoji-sad --no-dry-run
    --output json -]: when an emoji is found, standard output receives the
    cleaned text and then, right after it, the JSON report of the one
    result [<stdin>] and a line feed; nothing goes to standard error, and
    the file tree is not touched. *)
Theorem DestroyEmojis_json_follows_the_cleaned_text
    (MarshalIndent : commands.JSONOutput -> commands.error + string)
    (Match : GlobMatcher) (TrimSpace : string -> string)
    (parseFlags : commands.CLI (commands.error + commands.commandConfig))
    (lines : list string) (c : commands.console)
    (config : commands.commandConfig) (jsonBytes : string) :
  fst (parseFlags c) = inr config ->
  commands.filesFromStdin config = false ->
  commands.listOnly config = false ->
  commands.dryRun config = false ->
  String.eqb (commands.output config) "json" = true ->
  lines <> [] ->
  let c1 := snd (parseFlags c) in
  let d := NewDetectorWithAllowed (commands.allowedEmojis config) in
  let text := strings.Join lines newline in
  FindEmojis d text <> [] ->
  MarshalIndent (commands.jsonOutput [modified d "<stdin>" text] config)
  = inr jsonBytes ->
  commands.DestroyEmojis MarshalIndent Match TrimSpace parseFlags
    "-" lines None c
  = (None,
     {| commands.sys :=
          {| root := root (commands.sys c1);
             trace := trace (commands.sys c1)
                      ++ [ SysPrint (RemoveEmojis d text);
                           SysPrint (jsonBytes +:+ newline) ] |};
        commands.stderr := commands.stderr c1 |}).
Proof.
  intros Hparse Hfiles Hlist Hdry Hjson Hne c1 d text Hfound Hmarshal. subst c1.
  unfold commands.DestroyEmojis.
  destruct (parseFlags c) as [parsed c1]. cbn [fst snd] in Hparse |- *. subst parsed.
  unfold commands.processInput. rewrite Hfiles, Hlist, Hdry.
  cbn [String.eqb Ascii.eqb Bool.eqb andb negb].
  unfold commands.lift.
  rewrite (processContentFromStdin_run _ false lines (commands.sys c1) Hne).
  cbn [fpDetector NewFileProcessorWithExcludesAndAllowed]. fold d. fold text.
  destruct (FindEmojis d text) as [|g emojis] eqn:Hf; [contradiction|].
  cbn [commands.sys_error fst snd].
  unfold commands.outputResults, commands.outputJSON. rewrite Hjson.
  rewrite Hmarshal.
  unfold commands.Fprint, Print, record. cbn [snd commands.sys commands.stderr root trace].
  now rewrite <- app_assoc.
Qed.

Lemma DestroyEmojis_json_follows_the_cleaned_text_witness :
  ["Hi 😊"] <> [] /\
  commands.DestroyEmojis (fun _ => inr "{}") no_glob (fun s => s)
    (fun c => (inr json_config, c)) "-" ["Hi 😊"] None
    {| commands.sys := scenario_world; commands.stderr := [] |}
  = (None,
     {| commands.sys :=
          {| root := scenario_tree;
             trace := [ SysPrint "Hi "; SysPrint ("{}" +:+ newline) ] |};
        commands.stderr := [] |}).
Proof.
  split; [discriminate|].
  apply (DestroyEmojis_json_follows_the_cleaned_text (fun _ => inr "{}") no_glob
           (fun s => s) (fun c => (inr json_config, c)) ["Hi 😊"]
           {| commands.sys := scenario_world; commands.stderr := [] |}
           json_config "{}");
    [reflexivity|reflexivity|reflexivity|reflexivity|reflexivity|discriminate
    |discriminate|reflexivity].
Defined.
